(** * ASD CoreUtils: cp, mv, rm, echo and head

    A shallow embedding of the file-mutating utilities of ASD CoreUtils
    (mv/main.c, the cp and rm sources), of echo and of head, over a small
    model of the POSIX file system, and the properties of their control
    flow: exit statuses, per-entry error policy, conflict handling, option
    parsing, prompts, the copy loops, escape processing and the lines head
    prints.

    C [int] values are [Z]; C strings and byte buffers are [string];
    the kernel's inode table is a [gmap]; directory entries are ordered
    association lists (the order is the order [readdir] returns). *)

From Stdlib Require Import ZArith Lia Ascii String.
From stdpp Require Import base option gmap strings list.

Local Open Scope Z_scope.

(** ** The operating system the utilities run on *)

Module Posix.

(** [errno] values of Linux. *)
Definition EPERM : Z := 1.
Definition ENOENT : Z := 2.
Definition EBADF : Z := 9.
Definition EACCES : Z := 13.
Definition EBUSY : Z := 16.
Definition EEXIST : Z := 17.
Definition EXDEV : Z := 18.
Definition ENOTDIR : Z := 20.
Definition EISDIR : Z := 21.
Definition EINVAL : Z := 22.
Definition ENOSPC : Z := 28.
Definition ENAMETOOLONG : Z := 36.
Definition ENOTEMPTY : Z := 39.
Definition ELOOP : Z := 40.

Definition strerror (e : Z) : string :=
  if e =? 0 then "Success"
  else if e =? EPERM then "Operation not permitted"
  else if e =? ENOENT then "No such file or directory"
  else if e =? EBADF then "Bad file descriptor"
  else if e =? EACCES then "Permission denied"
  else if e =? EBUSY then "Device or resource busy"
  else if e =? EEXIST then "File exists"
  else if e =? EXDEV then "Invalid cross-device link"
  else if e =? ENOTDIR then "Not a directory"
  else if e =? EISDIR then "Is a directory"
  else if e =? EINVAL then "Invalid argument"
  else if e =? ENOSPC then "No space left on device"
  else if e =? ENAMETOOLONG then "File name too long"
  else if e =? ENOTEMPTY then "Directory not empty"
  else if e =? ELOOP then "Too many levels of symbolic links"
  else "Unknown error".

(** The outcome of a kernel operation: an [errno] value or a result. *)
Inductive res (A : Type) : Type :=
  | Err (e : Z)
  | Ok (a : A).
Arguments Err {A} e.
Arguments Ok {A} a.

(** File type and permission bits of [st_mode]. *)
Definition S_IFMT : Z := 61440.    (* 0170000 *)
Definition S_IFDIR : Z := 16384.   (* 0040000 *)
Definition S_IFREG : Z := 32768.   (* 0100000 *)
Definition S_IFLNK : Z := 40960.   (* 0120000 *)
Definition S_ISDIR (m : Z) : bool := Z.land m S_IFMT =? S_IFDIR.
Definition S_ISREG (m : Z) : bool := Z.land m S_IFMT =? S_IFREG.
Definition S_ISLNK (m : Z) : bool := Z.land m S_IFMT =? S_IFLNK.

Definition R_OK : Z := 4.
Definition W_OK : Z := 2.
Definition X_OK : Z := 1.
Definition F_OK : Z := 0.

Definition PATH_MAX : Z := 4096.
Definition MAXSYMLINKS : nat := 40.

(** A file is identified by its device and inode number. *)
Abbreviation fid := (Z * Z)%type.

Record imeta : Type := {
  i_mode : Z;        (* permission bits *)
  i_uid : Z;
  i_gid : Z;
  i_atime : Z;
  i_mtime : Z
}.

Inductive ibody : Type :=
  | Reg (data : string)
  | Dir (entries : list (string * fid))   (* including "." and ".." *)
  | Lnk (target : string).

Record inode : Type := { i_meta : imeta; i_body : ibody }.

Record filesys : Type := {
  inodes : gmap fid inode;
  root : fid;
  cwd : fid;
  next_ino : Z;          (* next inode number to hand out *)
  avail : gmap Z Z;      (* free bytes per device; absent: unlimited *)
  clock : Z;
  euid : Z
}.

Record stat_t : Type := {
  st_dev : Z;
  st_ino : Z;
  st_mode : Z;
  st_uid : Z;
  st_gid : Z;
  st_size : Z;
  st_atime : Z;
  st_mtime : Z
}.

Definition set_inodes (im : gmap fid inode) (fs : filesys) : filesys :=
  {| inodes := im; root := root fs; cwd := cwd fs; next_ino := next_ino fs;
     avail := avail fs; clock := clock fs; euid := euid fs |}.

Definition set_avail (av : gmap Z Z) (fs : filesys) : filesys :=
  {| inodes := inodes fs; root := root fs; cwd := cwd fs; next_ino := next_ino fs;
     avail := av; clock := clock fs; euid := euid fs |}.

Definition bump_ino (fs : filesys) : filesys :=
  {| inodes := inodes fs; root := root fs; cwd := cwd fs; next_ino := next_ino fs + 1;
     avail := avail fs; clock := clock fs; euid := euid fs |}.

(** *** Strings *)

Definition strlen (s : string) : Z := Z.of_nat (String.length s).

Fixpoint str_take (n : Z) (s : string) : string :=
  match s with
  | EmptyString => EmptyString
  | String c r => if n <=? 0 then EmptyString else String c (str_take (n - 1) r)
  end.

Fixpoint str_drop (n : Z) (s : string) : string :=
  match s with
  | EmptyString => EmptyString
  | String c r => if n <=? 0 then s else str_drop (n - 1) r
  end.

Definition slash : ascii := "/"%char.
Definition newline : ascii := "010"%char.

Definition starts_with_slash (p : string) : bool :=
  match p with
  | String c _ => Ascii.eqb c slash
  | EmptyString => false
  end.

Fixpoint ends_with_slash (p : string) : bool :=
  match p with
  | EmptyString => false
  | String c EmptyString => Ascii.eqb c slash
  | String _ r => ends_with_slash r
  end.

(** The components of a path; empty components (repeated or trailing
    slashes) are dropped here, and what a trailing slash asks for is
    checked where the path is resolved. *)
Fixpoint split_from (cur : string) (p : string) : list string :=
  match p with
  | EmptyString => if String.eqb cur "" then [] else [cur]
  | String c r =>
      if Ascii.eqb c slash
      then (if String.eqb cur "" then split_from "" r else cur :: split_from "" r)
      else split_from (cur +:+ String c "") r
  end.

Definition split_path (p : string) : list string := split_from "" p.

Fixpoint split_last {A : Type} (l : list A) : option (list A * A) :=
  match l with
  | [] => None
  | x :: r =>
      match split_last r with
      | None => Some ([], x)
      | Some (i, y) => Some (x :: i, y)
      end
  end.

(** *** Directories and permissions *)

Fixpoint dir_find (name : string) (es : list (string * fid)) : option fid :=
  match es with
  | [] => None
  | (n, f) :: r => if String.eqb n name then Some f else dir_find name r
  end.

Fixpoint dir_remove (name : string) (es : list (string * fid)) : list (string * fid) :=
  match es with
  | [] => []
  | (n, f) :: r => if String.eqb n name then dir_remove name r else (n, f) :: dir_remove name r
  end.

(** Replaces the entry [name] in place, or appends it. *)
Fixpoint dir_set (name : string) (f : fid) (es : list (string * fid)) : list (string * fid) :=
  match es with
  | [] => [(name, f)]
  | (n, g) :: r => if String.eqb n name then (n, f) :: r else (n, g) :: dir_set name f r
  end.

Definition is_dot (n : string) : bool := String.eqb n "." || String.eqb n "..".

Definition dir_is_empty (es : list (string * fid)) : bool :=
  forallb (fun e => is_dot (fst e)) es.

(** Permission check with the owner or the other bits (groups are not
    modelled); the superuser passes every check. *)
Definition may (fs : filesys) (m : imeta) (bit : Z) : bool :=
  if euid fs =? 0 then true
  else if i_uid m =? euid fs then negb (Z.land (i_mode m) (Z.shiftl bit 6) =? 0)
  else negb (Z.land (i_mode m) bit =? 0).

(** *** Path resolution *)

Definition is_nil {A : Type} (l : list A) : bool :=
  match l with [] => true | _ => false end.

(** Walks [comps] from directory [cur]. A symlink in the path is followed,
    at most [links] times in all; a symlink that is the last component is
    followed only if [follow] is set. *)
Fixpoint walk (links : nat) (fs : filesys) (follow : bool) (cur : fid)
    (comps : list string) {struct links} : res fid :=
  (fix go (cur : fid) (comps : list string) {struct comps} : res fid :=
     match comps with
     | [] => Ok cur
     | c :: rest =>
         match inodes fs !! cur with
         | Some {| i_meta := m; i_body := Dir es |} =>
             if negb (may fs m X_OK) then Err EACCES
             else
               match dir_find c es with
               | None => Err ENOENT
               | Some child =>
                   match inodes fs !! child with
                   | None => Err ENOENT
                   | Some {| i_meta := _; i_body := Lnk target |} =>
                       if is_nil rest && negb follow then Ok child
                       else
                         match links with
                         | O => Err ELOOP
                         | S links' =>
                             walk links' fs follow
                               (if starts_with_slash target then root fs else cur)
                               (split_path target ++ rest)
                         end
                   | Some _ => go child rest
                   end
               end
         | Some _ => Err ENOTDIR
         | None => Err ENOENT
         end
     end) cur comps.

Definition start_dir (fs : filesys) (p : string) : fid :=
  if starts_with_slash p then root fs else cwd fs.

Definition is_dir_inode (fs : filesys) (f : fid) : bool :=
  match inodes fs !! f with
  | Some {| i_meta := _; i_body := Dir _ |} => true
  | _ => false
  end.

(** A path that ends with a slash names a directory: a symlink that is
    its last component is followed, and anything but a directory there is
    ENOTDIR. *)
Definition lookup_path (fs : filesys) (follow : bool) (p : string) : res fid :=
  if String.eqb p "" then Err ENOENT
  else if PATH_MAX <=? strlen p then Err ENAMETOOLONG
  else
    match walk MAXSYMLINKS fs (follow || ends_with_slash p) (start_dir fs p) (split_path p) with
    | Err e => Err e
    | Ok f => if ends_with_slash p && negb (is_dir_inode fs f) then Err ENOTDIR else Ok f
    end.

(** The directory that holds the last component of [p], and that
    component. The root has no parent entry. *)
Definition lookup_parent (fs : filesys) (p : string) : res (fid * string) :=
  if String.eqb p "" then Err ENOENT
  else if PATH_MAX <=? strlen p then Err ENAMETOOLONG
  else
    match split_last (split_path p) with
    | None => Err EBUSY
    | Some (init, name) =>
        match walk MAXSYMLINKS fs true (start_dir fs p) init with
        | Err e => Err e
        | Ok d => Ok (d, name)
        end
    end.

Definition type_bits (b : ibody) : Z :=
  match b with
  | Reg _ => S_IFREG
  | Dir _ => S_IFDIR
  | Lnk _ => S_IFLNK
  end.

Definition body_size (b : ibody) : Z :=
  match b with
  | Reg d => strlen d
  | Dir es => 4096
  | Lnk t => strlen t
  end.

Definition stat_of (f : fid) (i : inode) : stat_t :=
  {| st_dev := fst f; st_ino := snd f;
     st_mode := Z.lor (type_bits (i_body i)) (i_mode (i_meta i));
     st_uid := i_uid (i_meta i); st_gid := i_gid (i_meta i);
     st_size := body_size (i_body i);
     st_atime := i_atime (i_meta i); st_mtime := i_mtime (i_meta i) |}.

Definition fs_stat (fs : filesys) (follow : bool) (p : string) : res stat_t :=
  match lookup_path fs follow p with
  | Err e => Err e
  | Ok f =>
      match inodes fs !! f with
      | None => Err ENOENT
      | Some i => Ok (stat_of f i)
      end
  end.

Definition fs_access (fs : filesys) (p : string) (mode : Z) : res unit :=
  match lookup_path fs true p with
  | Err e => Err e
  | Ok f =>
      match inodes fs !! f with
      | None => Err ENOENT
      | Some i =>
          if (mode =? F_OK) || may fs (i_meta i) mode then Ok tt else Err EACCES
      end
  end.

(** *** Operations that change the file system *)

Definition is_Some_b {A : Type} (o : option A) : bool :=
  match o with Some _ => true | None => false end.

Definition get_dir (fs : filesys) (d : fid) : res (imeta * list (string * fid)) :=
  match inodes fs !! d with
  | Some {| i_meta := m; i_body := Dir es |} =>
      if may fs m X_OK then Ok (m, es) else Err EACCES
  | Some _ => Err ENOTDIR
  | None => Err ENOENT
  end.

Definition put_dir (fs : filesys) (d : fid) (m : imeta) (es : list (string * fid)) : filesys :=
  set_inodes (<[d := {| i_meta := m; i_body := Dir es |}]> (inodes fs)) fs.

Definition new_meta (fs : filesys) (mode gid : Z) : imeta :=
  {| i_mode := Z.land mode 4095; i_uid := euid fs; i_gid := gid;
     i_atime := clock fs; i_mtime := clock fs |}.

Definition touch (fs : filesys) (m : imeta) : imeta :=
  {| i_mode := i_mode m; i_uid := i_uid m; i_gid := i_gid m;
     i_atime := i_atime m; i_mtime := clock fs |}.

(** Gives [n] bytes back to (or, when negative, takes them from) device [dev]. *)
Definition release (dev n : Z) (fs : filesys) : filesys :=
  match avail fs !! dev with
  | Some free => set_avail (<[dev := free + n]> (avail fs)) fs
  | None => fs
  end.

(** mkdir(2). The process umask is taken to be 0. *)
Definition fs_mkdir (fs : filesys) (p : string) (mode : Z) : res filesys :=
  match lookup_parent fs p with
  | Err e => Err (if e =? EBUSY then EEXIST else e)
  | Ok (d, name) =>
      match get_dir fs d with
      | Err e => Err e
      | Ok (m, es) =>
          match dir_find name es with
          | Some _ => Err EEXIST
          | None =>
              if negb (may fs m W_OK) then Err EACCES
              else if is_Some_b (inodes fs !! (fst d, next_ino fs)) then Err ENOSPC
              else
                let new := (fst d, next_ino fs) in
                let self := {| i_meta := new_meta fs mode (i_gid m);
                               i_body := Dir [(".", new); ("..", d)] |} in
                Ok (bump_ino (set_inodes
                      (<[new := self]> (inodes (put_dir fs d (touch fs m) (es ++ [(name, new)]))))
                      fs))
          end
      end
  end.

(** open(2) with O_RDONLY. *)
Definition fs_open_read (fs : filesys) (p : string) : res fid :=
  match lookup_path fs true p with
  | Err e => Err e
  | Ok f =>
      match inodes fs !! f with
      | None => Err ENOENT
      | Some i => if may fs (i_meta i) R_OK then Ok f else Err EACCES
      end
  end.

(** open(2) with O_WRONLY | O_CREAT | O_TRUNC. Creating the target of a
    dangling symlink is not modelled (it fails with ENOENT). *)
Definition fs_open_write (fs : filesys) (p : string) (mode : Z) : res (filesys * fid) :=
  match lookup_path fs true p with
  | Ok f =>
      match inodes fs !! f with
      | Some {| i_meta := m; i_body := Reg d |} =>
          if may fs m W_OK
          then Ok (release (fst f) (strlen d)
                     (set_inodes (<[f := {| i_meta := touch fs m; i_body := Reg "" |}]> (inodes fs)) fs),
                   f)
          else Err EACCES
      | Some {| i_meta := _; i_body := Dir _ |} => Err EISDIR
      | _ => Err ENOENT
      end
  | Err e =>
      if negb (e =? ENOENT) then Err e
      else
        match lookup_parent fs p with
        | Err e' => Err e'
        | Ok (d, name) =>
            match get_dir fs d with
            | Err e' => Err e'
            | Ok (m, es) =>
                match dir_find name es with
                | Some _ => Err ENOENT
                | None =>
                    if ends_with_slash p then Err EISDIR
                    else if negb (may fs m W_OK) then Err EACCES
                    else if is_Some_b (inodes fs !! (fst d, next_ino fs)) then Err ENOSPC
                    else
                      let new := (fst d, next_ino fs) in
                      let file := {| i_meta := new_meta fs mode (i_gid m); i_body := Reg "" |} in
                      Ok (bump_ino (set_inodes
                            (<[new := file]> (inodes (put_dir fs d (touch fs m) (es ++ [(name, new)]))))
                            fs),
                          new)
                end
            end
        end
  end.

(** pread(2): at most [n] bytes of file [f] from offset [pos]. *)
Definition fs_read (fs : filesys) (f : fid) (pos n : Z) : res string :=
  match inodes fs !! f with
  | Some {| i_meta := _; i_body := Reg d |} => Ok (str_take n (str_drop pos d))
  | Some {| i_meta := _; i_body := Dir _ |} => Err EISDIR
  | _ => Err EBADF
  end.

(** pwrite(2) at an offset within or at the end of the file. As many bytes
    are written as the device has room for; none at all is ENOSPC. *)
Definition fs_write (fs : filesys) (f : fid) (pos : Z) (buf : string) : res (filesys * Z) :=
  match inodes fs !! f with
  | Some {| i_meta := m; i_body := Reg d |} =>
      let room := Z.max 0 (strlen d - pos) in
      let k := match avail fs !! fst f with
               | Some free => Z.min (strlen buf) (room + Z.max 0 free)
               | None => strlen buf
               end in
      if (0 <? strlen buf) && (k <=? 0) then Err ENOSPC
      else
        let d' := str_take pos d +:+ str_take k buf +:+ str_drop (pos + k) d in
        Ok (release (fst f) (strlen d - strlen d')
              (set_inodes (<[f := {| i_meta := touch fs m; i_body := Reg d' |}]> (inodes fs)) fs),
            k)
  | _ => Err EBADF
  end.

Definition fs_futimens (fs : filesys) (f : fid) (atime mtime : Z) : res filesys :=
  match inodes fs !! f with
  | Some i =>
      let m := i_meta i in
      Ok (set_inodes (<[f := {| i_meta := {| i_mode := i_mode m; i_uid := i_uid m; i_gid := i_gid m;
                                            i_atime := atime; i_mtime := mtime |};
                               i_body := i_body i |}]> (inodes fs)) fs)
  | None => Err EBADF
  end.

(** fchown(2): only the superuser may give a file away. *)
Definition fs_fchown (fs : filesys) (f : fid) (uid gid : Z) : res filesys :=
  match inodes fs !! f with
  | Some i =>
      let m := i_meta i in
      if (euid fs =? 0) || ((i_uid m =? euid fs) && (uid =? euid fs))
      then Ok (set_inodes (<[f := {| i_meta := {| i_mode := i_mode m; i_uid := uid; i_gid := gid;
                                                 i_atime := i_atime m; i_mtime := i_mtime m |};
                                    i_body := i_body i |}]> (inodes fs)) fs)
      else Err EPERM
  | None => Err EBADF
  end.

(** unlink(2). The inode itself stays in the table (as if still open);
    only the name is removed. *)
Definition fs_unlink (fs : filesys) (p : string) : res filesys :=
  match lookup_parent fs p with
  | Err e => Err (if e =? EBUSY then EISDIR else e)
  | Ok (d, name) =>
      match get_dir fs d with
      | Err e => Err e
      | Ok (m, es) =>
          match dir_find name es with
          | None => Err ENOENT
          | Some f =>
              if ends_with_slash p && negb (is_dir_inode fs f) then Err ENOTDIR
              else if negb (may fs m W_OK) then Err EACCES
              else if is_dir_inode fs f then Err EISDIR
              else Ok (put_dir fs d (touch fs m) (dir_remove name es))
          end
      end
  end.

(** rmdir(2). *)
Definition fs_rmdir (fs : filesys) (p : string) : res filesys :=
  match lookup_parent fs p with
  | Err e => Err e
  | Ok (d, name) =>
      if String.eqb name "." then Err EINVAL
      else if String.eqb name ".." then Err ENOTEMPTY
      else
        match get_dir fs d with
        | Err e => Err e
        | Ok (m, es) =>
            match dir_find name es with
            | None => Err ENOENT
            | Some f =>
                if negb (may fs m W_OK) then Err EACCES
                else
                  match inodes fs !! f with
                  | Some {| i_meta := _; i_body := Dir es' |} =>
                      if dir_is_empty es'
                      then Ok (put_dir fs d (touch fs m) (dir_remove name es))
                      else Err ENOTEMPTY
                  | _ => Err ENOTDIR
                  end
            end
        end
  end.

(** rename(2). Moving a directory below itself (EINVAL) is not modelled. *)
Definition fs_rename (fs : filesys) (src dst : string) : res filesys :=
  match lookup_parent fs src with
  | Err e => Err e
  | Ok (ds, ns) =>
      match lookup_parent fs dst with
      | Err e => Err e
      | Ok (dd, nd) =>
          if negb (fst ds =? fst dd) then Err EXDEV
          else
            match get_dir fs ds with
            | Err e => Err e
            | Ok (ms, es) =>
                match get_dir fs dd with
                | Err e => Err e
                | Ok (md, ed) =>
                    match dir_find ns es with
                    | None => Err ENOENT
                    | Some f =>
                        if is_dot ns || is_dot nd then Err EBUSY
                        else if (ends_with_slash src || ends_with_slash dst)
                                && negb (is_dir_inode fs f) then Err ENOTDIR
                        else if negb (may fs ms W_OK && may fs md W_OK) then Err EACCES
                        else
                          let clash :=
                            match dir_find nd ed with
                            | None => Ok false
                            | Some g =>
                                if bool_decide (g = f) then Ok true
                                else
                                  match inodes fs !! g with
                                  | Some {| i_meta := _; i_body := Dir eg |} =>
                                      if negb (is_dir_inode fs f) then Err EISDIR
                                      else if dir_is_empty eg then Ok false else Err ENOTEMPTY
                                  | _ => if is_dir_inode fs f then Err ENOTDIR else Ok false
                                  end
                            end in
                          match clash with
                          | Err e => Err e
                          | Ok true => Ok fs
                          | Ok false =>
                              let fs1 := put_dir fs ds (touch fs ms) (dir_remove ns es) in
                              let ed1 := if bool_decide (ds = dd) then dir_remove ns es else ed in
                              let md1 := if bool_decide (ds = dd) then touch fs ms else md in
                              let fs2 := put_dir fs1 dd (touch fs md1) (dir_set nd f ed1) in
                              match inodes fs2 !! f with
                              | Some {| i_meta := mf; i_body := Dir ef |} =>
                                  Ok (put_dir fs2 f mf (dir_set ".." dd ef))
                              | _ => Ok fs2
                              end
                          end
                    end
                end
            end
      end
  end.

(** The names in a directory, as opendir(3)/readdir(3) deliver them: the
    stream is the listing at the time of the [opendir]. *)
Definition fs_opendir (fs : filesys) (p : string) : res (list string) :=
  match lookup_path fs true p with
  | Err e => Err e
  | Ok f =>
      match inodes fs !! f with
      | Some {| i_meta := m; i_body := Dir es |} =>
          if may fs m R_OK then Ok (map fst es) else Err EACCES
      | Some _ => Err ENOTDIR
      | None => Err ENOENT
      end
  end.

End Posix.

(** ** The C library the utilities call *)

Module Libc.
Import Posix.

(** The state of the process and of the machine around it. An open file
    descriptor is an inode and an offset. *)
(** The calls that succeeded in changing the file system or in opening
    something, in the order they were made. *)
Inductive event : Type :=
  | Renamed (src dst : string)
  | Unlinked (path : string)
  | RemovedDir (path : string)
  | MadeDir (path : string)
  | Opened (path : string) (flags : Z) (fd : Z)
  | Wrote (fd : Z) (count : Z)
  | OpenedDir (path : string)
  | SetTimes (fd : Z)
  | Chowned (fd : Z).

Record world : Type := {
  w_fs : filesys;
  w_fds : gmap Z (fid * Z);
  w_errno : Z;
  w_stdin : string;
  w_stdout : list string;    (* one element per call that writes *)
  w_stderr : list string;
  w_trace : list event
}.

Definition set_fs (fs : filesys) (w : world) : world :=
  {| w_fs := fs; w_fds := w_fds w; w_errno := w_errno w; w_stdin := w_stdin w;
     w_stdout := w_stdout w; w_stderr := w_stderr w; w_trace := w_trace w |}.

Definition set_fds (fds : gmap Z (fid * Z)) (w : world) : world :=
  {| w_fs := w_fs w; w_fds := fds; w_errno := w_errno w; w_stdin := w_stdin w;
     w_stdout := w_stdout w; w_stderr := w_stderr w; w_trace := w_trace w |}.

Definition set_errno (e : Z) (w : world) : world :=
  {| w_fs := w_fs w; w_fds := w_fds w; w_errno := e; w_stdin := w_stdin w;
     w_stdout := w_stdout w; w_stderr := w_stderr w; w_trace := w_trace w |}.

Definition set_stdin (s : string) (w : world) : world :=
  {| w_fs := w_fs w; w_fds := w_fds w; w_errno := w_errno w; w_stdin := s;
     w_stdout := w_stdout w; w_stderr := w_stderr w; w_trace := w_trace w |}.

Definition record (e : event) (w : world) : world :=
  {| w_fs := w_fs w; w_fds := w_fds w; w_errno := w_errno w; w_stdin := w_stdin w;
     w_stdout := w_stdout w; w_stderr := w_stderr w; w_trace := w_trace w ++ [e] |}.

(** printf / fprintf(stderr, ...) with the formatted text. *)
Definition printf (s : string) (w : world) : world :=
  {| w_fs := w_fs w; w_fds := w_fds w; w_errno := w_errno w; w_stdin := w_stdin w;
     w_stdout := w_stdout w ++ [s]; w_stderr := w_stderr w; w_trace := w_trace w |}.

Definition eprintf (s : string) (w : world) : world :=
  {| w_fs := w_fs w; w_fds := w_fds w; w_errno := w_errno w; w_stdin := w_stdin w;
     w_stdout := w_stdout w; w_stderr := w_stderr w ++ [s]; w_trace := w_trace w |}.

Definition nl : string := String newline EmptyString.

Definition perror (s : string) (w : world) : world :=
  eprintf (s +:+ ": " +:+ strerror (w_errno w) +:+ nl) w.

(** A piece of code either runs to its end with a value, or leaves early
    with a status: a [return] out of the enclosing function from inside a
    loop, or an [exit]. *)
Inductive flow (A : Type) : Type :=
  | Return (a : A)
  | Exit (status : Z).
Arguments Return {A} a.
Arguments Exit {A} status.

(** How a run ends whose behaviour C may leave undefined. *)
Inductive behaviour (A : Type) : Type :=
  | Ends (a : A)
  | Undefined        (* a call was reached to which C gives no meaning *)
  | Unfinished.      (* the fuel did not suffice *)
Arguments Ends {A} a.
Arguments Undefined {A}.
Arguments Unfinished {A}.

Definition EXIT_SUCCESS : Z := 0.
Definition EXIT_FAILURE : Z := 1.
Definition EOF : Z := -1.

Definition O_RDONLY : Z := 0.
Definition O_WRONLY : Z := 1.
Definition O_CREAT : Z := 64.
Definition O_TRUNC : Z := 512.

(** Conversion of an [int] to [char] (signed, 8 bits). *)
Definition to_char (x : Z) : Z := (x + 128) mod 256 - 128.

Definition chr (c : ascii) : Z := Z.of_N (N_of_ascii c).

Definition q (s : string) : string := "'" +:+ s +:+ "'".

Definition stat (p : string) (w : world) : world * option stat_t :=
  match fs_stat (w_fs w) true p with
  | Err e => (set_errno e w, None)
  | Ok s => (w, Some s)
  end.

Definition lstat (p : string) (w : world) : world * option stat_t :=
  match fs_stat (w_fs w) false p with
  | Err e => (set_errno e w, None)
  | Ok s => (w, Some s)
  end.

Definition access (p : string) (mode : Z) (w : world) : world * Z :=
  match fs_access (w_fs w) p mode with
  | Err e => (set_errno e w, -1)
  | Ok _ => (w, 0)
  end.

(** Wraps an operation that only changes the file system. *)
Definition syscall (ev : event) (r : res filesys) (w : world) : world * Z :=
  match r with
  | Err e => (set_errno e w, -1)
  | Ok fs => (record ev (set_fs fs w), 0)
  end.

Definition rename (src dst : string) (w : world) : world * Z :=
  syscall (Renamed src dst) (fs_rename (w_fs w) src dst) w.

Definition unlink (p : string) (w : world) : world * Z :=
  syscall (Unlinked p) (fs_unlink (w_fs w) p) w.

Definition rmdir (p : string) (w : world) : world * Z :=
  syscall (RemovedDir p) (fs_rmdir (w_fs w) p) w.

Definition mkdir (p : string) (mode : Z) (w : world) : world * Z :=
  syscall (MadeDir p) (fs_mkdir (w_fs w) p mode) w.

(** remove(3): unlink, and rmdir if that fails because of a directory. *)
Definition remove (p : string) (w : world) : world * Z :=
  let (w1, r) := unlink p w in
  if r =? 0 then (w1, 0)
  else if w_errno w1 =? EISDIR then rmdir p w1
  else (w1, -1).

(** The lowest descriptor that is not open (0, 1 and 2 are the standard
    streams). *)
Definition fresh_fd (fds : gmap Z (fid * Z)) : Z :=
  match List.find (fun n => bool_decide (fds !! n = None))
                  (map (fun k => Z.of_nat k + 3) (seq 0 (S (size fds)))) with
  | Some n => n
  | None => 3 + Z.of_nat (size fds)
  end.

Definition open (p : string) (flags mode : Z) (w : world) : world * Z :=
  if flags =? O_RDONLY then
    match fs_open_read (w_fs w) p with
    | Err e => (set_errno e w, -1)
    | Ok f =>
        let fd := fresh_fd (w_fds w) in
        (record (Opened p flags fd) (set_fds (<[fd := (f, 0)]> (w_fds w)) w), fd)
    end
  else if flags =? Z.lor O_WRONLY (Z.lor O_CREAT O_TRUNC) then
    match fs_open_write (w_fs w) p mode with
    | Err e => (set_errno e w, -1)
    | Ok (fs, f) =>
        let fd := fresh_fd (w_fds w) in
        (record (Opened p flags fd) (set_fds (<[fd := (f, 0)]> (w_fds w)) (set_fs fs w)), fd)
    end
  else (set_errno EINVAL w, -1).

Definition close (fd : Z) (w : world) : world * Z :=
  match w_fds w !! fd with
  | Some _ => (set_fds (delete fd (w_fds w)) w, 0)
  | None => (set_errno EBADF w, -1)
  end.

(** read(2): the count and the bytes placed in the buffer. *)
Definition read (fd : Z) (count : Z) (w : world) : world * (Z * string) :=
  match w_fds w !! fd with
  | None => (set_errno EBADF w, (-1, ""))
  | Some (f, pos) =>
      match fs_read (w_fs w) f pos count with
      | Err e => (set_errno e w, (-1, ""))
      | Ok s => (set_fds (<[fd := (f, pos + strlen s)]> (w_fds w)) w, (strlen s, s))
      end
  end.

(** write(2) of the first [count] bytes of [buf]. *)
Definition write (fd : Z) (buf : string) (count : Z) (w : world) : world * Z :=
  match w_fds w !! fd with
  | None => (set_errno EBADF w, -1)
  | Some (f, pos) =>
      match fs_write (w_fs w) f pos (str_take count buf) with
      | Err e => (set_errno e w, -1)
      | Ok (fs, k) =>
          (record (Wrote fd k) (set_fds (<[fd := (f, pos + k)]> (w_fds w)) (set_fs fs w)), k)
      end
  end.

Definition futimens (fd : Z) (atime mtime : Z) (w : world) : world * Z :=
  match w_fds w !! fd with
  | None => (set_errno EBADF w, -1)
  | Some (f, _) => syscall (SetTimes fd) (fs_futimens (w_fs w) f atime mtime) w
  end.

Definition fchown (fd : Z) (uid gid : Z) (w : world) : world * Z :=
  match w_fds w !! fd with
  | None => (set_errno EBADF w, -1)
  | Some (f, _) => syscall (Chowned fd) (fs_fchown (w_fs w) f uid gid) w
  end.

(** opendir(3): the stream of names still to be returned by readdir(3),
    or NULL. *)
Definition opendir (p : string) (w : world) : world * option (list string) :=
  match fs_opendir (w_fs w) p with
  | Err e => (set_errno e w, None)
  | Ok names => (record (OpenedDir p) w, Some names)
  end.

(** closedir(3); the stream holds no descriptor in this model. *)
Definition closedir (dir : list string) (w : world) : world * Z := (w, 0).

Definition getchar (w : world) : world * Z :=
  match w_stdin w with
  | EmptyString => (w, EOF)
  | String c r => (set_stdin r w, chr c)
  end.

(** The bytes fgets(3) stores for a buffer with room for [n] characters,
    and the input left. *)
Fixpoint fgets_take (n : nat) (s : string) : string * string :=
  match n with
  | O => (EmptyString, s)
  | S n' =>
      match s with
      | EmptyString => (EmptyString, EmptyString)
      | String c r =>
          if Ascii.eqb c newline then (String c EmptyString, r)
          else let (t, r') := fgets_take n' r in (String c t, r')
      end
  end.

(** fgets(buf, size, stdin): the string read, or NULL at end of file. *)
Definition fgets (size : Z) (w : world) : world * option string :=
  let (t, r) := fgets_take (Z.to_nat (size - 1)) (w_stdin w) in
  if String.eqb t "" then (w, None) else (set_stdin r w, Some t).

(** basename(3) of <libgen.h>, the POSIX one: the string it returns. *)
Definition basename (p : string) : string :=
  match split_last (split_path p) with
  | Some (_, n) => n
  | None => if String.eqb p "" then "." else "/"
  end.

(** That basename may write into its argument: it cuts the trailing
    slashes off with a NUL, unless the path has nothing but slashes.
    [basename_arg p] is what the argument holds after the call. *)
Fixpoint cut_slashes (p : string) : string :=
  match p with
  | EmptyString => EmptyString
  | String c r =>
      match cut_slashes r with
      | EmptyString => if Ascii.eqb c slash then EmptyString else String c EmptyString
      | r' => String c r'
      end
  end.

Definition basename_arg (p : string) : string :=
  match cut_slashes p with
  | EmptyString => p
  | t => t
  end.

(** Where the result of basename points: into its argument, at the last
    component (for a path of slashes only, at the last slash), or to a
    static string (for the empty path). *)
Inductive pointer : Type :=
  | Within (offset : Z)
  | Static.

Definition basename_pointer (p : string) : pointer :=
  if String.eqb p "" then Static
  else Within (strlen (basename_arg p) - strlen (basename p)).

(** free(3) has a meaning only for a pointer that malloc (or strdup) has
    returned: the start of a block. *)
Definition may_free (p : pointer) : bool :=
  match p with
  | Within offset => offset =? 0
  | Static => false
  end.

(** The first character of a C string (NUL for the empty string). *)
Definition first_char (s : string) : Z :=
  match s with
  | EmptyString => 0
  | String c _ => to_char (chr c)
  end.

(** *** nftw(3) with FTW_DEPTH | FTW_PHYS

    The walk is post-order and does not follow symlinks; the callback is
    called for every object met, also for those that cannot be examined,
    and the first non-zero value it returns ends the walk. The callbacks
    of this repository ignore every argument but the path. *)

Definition nftw_join (dir name : string) : string :=
  if ends_with_slash dir then dir +:+ name else dir +:+ "/" +:+ name.

Section Nftw.
Variable fn : string -> world -> world * Z.

Section Children.
Variable visit : string -> world -> option (world * Z).

Fixpoint nftw_children (dir : string) (names : list string) (w : world)
    : option (world * Z) :=
  match names with
  | [] => Some (w, 0)
  | n :: rest =>
      if is_dot n then nftw_children dir rest w
      else
        match visit (nftw_join dir n) w with
        | None => None
        | Some (w', r) =>
            if r =? 0 then nftw_children dir rest w' else Some (w', r)
        end
  end.
End Children.

Fixpoint nftw_visit (fuel : nat) (path : string) (w : world) : option (world * Z) :=
  match fuel with
  | O => None
  | S fuel' =>
      let (w1, st) := lstat path w in
      match st with
      | None => Some (fn path w1)
      | Some s =>
          if S_ISDIR (st_mode s) then
            let (w2, d) := opendir path w1 in
            match d with
            | None => Some (fn path w2)
            | Some names =>
                match nftw_children (nftw_visit fuel') path names w2 with
                | None => None
                | Some (w3, r) => if r =? 0 then Some (fn path w3) else Some (w3, r)
                end
            end
          else Some (fn path w1)
      end
  end.

Definition nftw (fuel : nat) (path : string) (w : world) : option (world * Z) :=
  let (w1, st) := lstat path w in
  match st with
  | None => Some (w1, -1)
  | Some _ => nftw_visit fuel path w1
  end.
End Nftw.

End Libc.

(** ** getopt_long(3)

    The GNU scanner in its default mode: option elements may be mixed with
    operands, which are moved behind the options; "--" ends the options;
    a long option may be shortened to an unambiguous prefix. The model
    delivers the whole sequence of results of the successive calls, and the
    operands [argv[optind..]] left at the end. None of the options of mv
    and rm takes an argument; those of head do, and head is modelled from
    the results of the scanner on. *)

Module Getopt.
Import Posix Libc.

Record long_option : Type := {
  lo_name : string;
  lo_flag : option string;   (* the variable set, when the entry has one *)
  lo_val : Z
}.

Inductive result : Type :=
  | Opt (c : Z)                       (* the option character or value *)
  | Flag (var : string) (val : Z)     (* *flag = val was done; returns 0 *)
  | Bad (msg : string).               (* msg went to stderr; returns '?' *)

Fixpoint mem_char (c : ascii) (s : string) : bool :=
  match s with
  | EmptyString => false
  | String d r => Ascii.eqb c d || mem_char c r
  end.

Fixpoint short_results (prog shortopts cluster : string) : list result :=
  match cluster with
  | EmptyString => []
  | String c r =>
      (if mem_char c shortopts && negb (Ascii.eqb c ":")
       then Opt (chr c)
       else Bad (prog +:+ ": invalid option -- " +:+ q (String c EmptyString) +:+ nl))
      :: short_results prog shortopts r
  end.

(** The part of a long option element before an "=", and whether there is
    one. *)
Fixpoint before_eq (s : string) : string * bool :=
  match s with
  | EmptyString => (EmptyString, false)
  | String c r =>
      if Ascii.eqb c "=" then (EmptyString, true)
      else let (n, e) := before_eq r in (String c n, e)
  end.

Definition result_of (o : long_option) : result :=
  match lo_flag o with
  | Some var => Flag var (lo_val o)
  | None => Opt (lo_val o)
  end.

Definition same_target (o1 o2 : long_option) : bool :=
  bool_decide (lo_flag o1 = lo_flag o2) && (lo_val o1 =? lo_val o2).

Definition long_result (prog : string) (longopts : list long_option) (elem : string) : result :=
  let (name, has_arg) := before_eq (str_drop 2 elem) in
  let pick (o : long_option) :=
    if has_arg
    then Bad (prog +:+ ": option " +:+ q ("--" +:+ lo_name o) +:+ " doesn't allow an argument" +:+ nl)
    else result_of o in
  match List.find (fun o => String.eqb (lo_name o) name) longopts with
  | Some o => pick o
  | None =>
      match List.filter (fun o => String.prefix name (lo_name o)) longopts with
      | [] => Bad (prog +:+ ": unrecognized option " +:+ q ("--" +:+ name) +:+ nl)
      | o :: others =>
          if forallb (same_target o) others then pick o
          else Bad (prog +:+ ": option " +:+ q ("--" +:+ name) +:+ " is ambiguous" +:+ nl)
      end
  end.

Fixpoint scan (prog shortopts : string) (longopts : list long_option) (args : list string)
    : list result * list string :=
  match args with
  | [] => ([], [])
  | a :: rest =>
      if String.eqb a "--" then ([], rest)
      else
        let (rs, operands) := scan prog shortopts longopts rest in
        if String.prefix "--" a then (long_result prog longopts a :: rs, operands)
        else if String.prefix "-" a && negb (String.eqb a "-")
        then (short_results prog shortopts (str_drop 1 a) ++ rs, operands)
        else (rs, a :: operands)
  end.

(** The results of calling getopt_long until it returns -1, and the
    operands. *)
Definition getopt_long (argv : list string) (shortopts : string)
    (longopts : list long_option) : list result * list string :=
  match argv with
  | [] => ([], [])
  | prog :: args => scan prog shortopts longopts args
  end.

End Getopt.

(** ** mv (src/mv/main.c) *)

Module Mv.
Import Posix Libc Getopt.

Definition BUFFER_SIZE : Z := 8192.
Definition VERSION : string := "1.0.0".

(** The four static flag variables. *)
Record flags : Type := {
  force_flag : Z;
  interactive_flag : Z;
  verbose_flag : Z;
  no_clobber_flag : Z
}.

Definition initial_flags : flags :=
  {| force_flag := 0; interactive_flag := 0; verbose_flag := 0; no_clobber_flag := 0 |}.

Definition print_usage (program_name : string) (w : world) : world * Z :=
  let w := eprintf ("Usage: " +:+ program_name +:+ " [OPTION]... SOURCE DEST" +:+ nl) w in
  let w := eprintf ("   or: " +:+ program_name +:+ " [OPTION]... SOURCE... DIRECTORY" +:+ nl) w in
  let w := eprintf (nl +:+ "Options:" +:+ nl) w in
  let w := eprintf ("  -f, --force         force move, override destination if exists" +:+ nl) w in
  let w := eprintf ("  -i, --interactive   prompt before overwrite" +:+ nl) w in
  let w := eprintf ("  -n, --no-clobber    do not overwrite existing files" +:+ nl) w in
  let w := eprintf ("  -v, --verbose       explain what is being done" +:+ nl) w in
  let w := eprintf ("      --version       display version information" +:+ nl) w in
  let w := eprintf ("      --help          display this help" +:+ nl) w in
  (w, EXIT_FAILURE).

Definition print_version (w : world) : world * Z :=
  let w := printf ("ASD mv " +:+ VERSION +:+ " - part of ASD CoreUtils" +:+ nl) w in
  let w := printf ("Copyright (C) 2025 AnmiTaliDev" +:+ nl) w in
  let w := printf ("License: Apache 2.0" +:+ nl) w in
  (w, EXIT_SUCCESS).

Definition confirm_overwrite (dest : string) (w : world) : world * Z :=
  let w := printf ("mv: overwrite " +:+ q dest +:+ "? ") w in
  let (w, response) := fgets 10 w in
  match response with
  | Some r => (w, if (first_char r =? chr "y") || (first_char r =? chr "Y") then 1 else 0)
  | None => (w, 0)
  end.

Definition check_same_file (source dest : string) (w : world) : world * Z :=
  let (w, src_stat) := stat source w in
  match src_stat with
  | None => (w, 0)
  | Some s =>
      let (w, dst_stat) := stat dest w in
      match dst_stat with
      | None => (w, 0)
      | Some d =>
          (w, if (st_dev s =? st_dev d) && (st_ino s =? st_ino d) then 1 else 0)
      end
  end.

(** The copy loop of [move_file]: [Return tt] when [read] delivers nothing
    more (end of file or an error), [Exit (-1)] when it returns from
    [move_file] after a short write. *)
Fixpoint copy_data (fuel : nat) (dest : string) (source_fd dest_fd : Z) (w : world)
    : option (world * flow unit) :=
  match fuel with
  | O => None
  | S fuel' =>
      let '(w, (bytes_read, buffer)) := read source_fd BUFFER_SIZE w in
      if 0 <? bytes_read then
        let (w, bytes_written) := write dest_fd buffer bytes_read w in
        if negb (bytes_written =? bytes_read) then
          let (w, _) := close source_fd w in
          let (w, _) := close dest_fd w in
          let (w, _) := unlink dest w in
          let w := perror "mv: write error" w in
          Some (w, Exit (-1))
        else copy_data fuel' dest source_fd dest_fd w
      else Some (w, Return tt)
  end.

Definition move_file (fuel : nat) (fl : flags) (source dest : string) (w : world)
    : option (world * Z) :=
  (* Try simple rename first *)
  let (w, r) := rename source dest w in
  if r =? 0 then
    let w := if negb (verbose_flag fl =? 0)
             then printf (q source +:+ " -> " +:+ q dest +:+ nl) w else w in
    Some (w, 0)
  else if w_errno w =? EXDEV then
    let (w, source_stat) := stat source w in
    match source_stat with
    | None => Some (perror "mv: failed to stat source file" w, -1)
    | Some source_stat =>
        let (w, source_fd) := open source O_RDONLY 0 w in
        if source_fd =? -1 then Some (perror "mv: failed to open source file" w, -1)
        else
          let (w, dest_fd) :=
            open dest (Z.lor O_WRONLY (Z.lor O_CREAT O_TRUNC)) (st_mode source_stat) w in
          if dest_fd =? -1 then
            let (w, _) := close source_fd w in
            Some (perror "mv: failed to create destination file" w, -1)
          else
            match copy_data fuel dest source_fd dest_fd w with
            | None => None
            | Some (w, Exit r) => Some (w, r)
            | Some (w, Return _) =>
                let (w, _) := close source_fd w in
                let (w, _) := close dest_fd w in
                let (w, r) := unlink source w in
                if negb (r =? 0) then Some (perror "mv: failed to remove source file" w, -1)
                else
                  let w := if negb (verbose_flag fl =? 0)
                           then printf (q source +:+ " -> " +:+ q dest +:+ nl) w else w in
                  Some (w, 0)
            end
    end
  else Some (perror "mv: rename failed" w, -1).

Definition long_options : list long_option :=
  [ {| lo_name := "force"; lo_flag := None; lo_val := chr "f" |};
    {| lo_name := "interactive"; lo_flag := None; lo_val := chr "i" |};
    {| lo_name := "no-clobber"; lo_flag := None; lo_val := chr "n" |};
    {| lo_name := "verbose"; lo_flag := None; lo_val := chr "v" |};
    {| lo_name := "version"; lo_flag := None; lo_val := chr "V" |};
    {| lo_name := "help"; lo_flag := None; lo_val := chr "h" |} ].

(** The value getopt_long returned for a result. *)
Definition code_of (r : result) : Z :=
  match r with
  | Opt c => c
  | Flag _ _ => 0
  | Bad _ => chr "?"
  end.

(** One turn of the option loop: the [switch] on the value returned. *)
Definition option_case (program_name : string) (c : Z) (fl : flags) (w : world)
    : world * flow flags :=
  if c =? chr "f" then
    (w, Return {| force_flag := 1; interactive_flag := 0;
                  verbose_flag := verbose_flag fl; no_clobber_flag := 0 |})
  else if c =? chr "i" then
    (w, Return {| force_flag := 0; interactive_flag := 1;
                  verbose_flag := verbose_flag fl; no_clobber_flag := 0 |})
  else if c =? chr "n" then
    (w, Return {| force_flag := 0; interactive_flag := 0;
                  verbose_flag := verbose_flag fl; no_clobber_flag := 1 |})
  else if c =? chr "v" then
    (w, Return {| force_flag := force_flag fl; interactive_flag := interactive_flag fl;
                  verbose_flag := 1; no_clobber_flag := no_clobber_flag fl |})
  else if c =? chr "V" then
    let (w, s) := print_version w in (w, Exit s)
  else
    let (w, s) := print_usage program_name w in (w, Exit s).

Fixpoint parse_options (program_name : string) (rs : list result) (fl : flags) (w : world)
    : world * flow flags :=
  match rs with
  | [] => (w, Return fl)
  | r :: rest =>
      let w := match r with Bad msg => eprintf msg w | _ => w end in
      match option_case program_name (code_of r) fl w with
      | (w, Return fl') => parse_options program_name rest fl' w
      | (w, Exit s) => (w, Exit s)
      end
  end.

(** The body of the loop over the sources. With a directory as the
    target, the block of strdup(source) is handed to basename, and what
    basename returns is handed to free: that has a meaning only when the
    result points to the start of the block. *)
Definition process_source (fuel : nat) (fl : flags) (dest : string) (dest_is_dir : bool)
    (source : string) (w : world) : behaviour world :=
  let (w, a) := access source F_OK w in
  if negb (a =? 0) then
    Ends (eprintf ("mv: cannot stat " +:+ q source +:+ ": No such file or directory" +:+ nl) w)
  else
    let base := basename_pointer source in
    let final_dest := if dest_is_dir then dest +:+ "/" +:+ basename source else dest in
    (* free(base) *)
    if dest_is_dir && negb (may_free base) then Undefined
    else
    let (w, same) := check_same_file source final_dest w in
    if negb (same =? 0) then
      Ends (eprintf ("mv: " +:+ q source +:+ " and " +:+ q final_dest
                     +:+ " are the same file" +:+ nl) w)
    else
      let (w, e) := access final_dest F_OK w in
      let '(w, skip) :=
        if e =? 0 then
          if negb (no_clobber_flag fl =? 0) then
            ((if negb (verbose_flag fl =? 0)
              then printf ("mv: not overwriting " +:+ q final_dest +:+ nl) w else w), true)
          else
            let (w, declined) :=
              if negb (interactive_flag fl =? 0)
              then let (w, yes) := confirm_overwrite final_dest w in (w, yes =? 0)
              else (w, false) in
            if declined then (w, true)
            else if force_flag fl =? 0 then
              let (w, wr) := access final_dest W_OK w in
              if negb (wr =? 0)
              then (eprintf ("mv: cannot remove " +:+ q final_dest +:+ ": Permission denied" +:+ nl) w,
                    true)
              else (w, false)
            else (w, false)
        else (w, false) in
      if skip then Ends w
      else
        match move_file fuel fl source final_dest w with
        | None => Unfinished
        | Some (w, r) =>
            if negb (r =? 0)
            then Ends (eprintf ("mv: failed to move " +:+ q source +:+ " to "
                                +:+ q final_dest +:+ nl) w)
            else Ends w
        end.

Fixpoint process_sources (fuel : nat) (fl : flags) (dest : string) (dest_is_dir : bool)
    (sources : list string) (w : world) : behaviour world :=
  match sources with
  | [] => Ends w
  | source :: rest =>
      match process_source fuel fl dest dest_is_dir source w with
      | Ends w => process_sources fuel fl dest dest_is_dir rest w
      | Undefined => Undefined
      | Unfinished => Unfinished
      end
  end.

Definition main (fuel : nat) (argv : list string) (w : world) : behaviour (world * Z) :=
  let program_name := List.hd "" argv in
  let (rs, operands) := getopt_long argv "finv" long_options in
  match parse_options program_name rs initial_flags w with
  | (w, Exit s) => Ends (w, s)
  | (w, Return fl) =>
      (* argc - optind < 2 *)
      match split_last operands with
      | None | Some ([], _) => Ends (print_usage program_name w)
      | Some (sources, dest) =>
          let (w, dest_stat) := stat dest w in
          let dest_is_dir :=
            match dest_stat with
            | Some s => S_ISDIR (st_mode s)
            | None => false
            end in
          if (2 <? Z.of_nat (length operands)) && negb dest_is_dir then
            Ends (eprintf ("mv: target " +:+ q dest +:+ " is not a directory" +:+ nl) w,
                  EXIT_FAILURE)
          else
            match process_sources fuel fl dest dest_is_dir sources w with
            | Ends w => Ends (w, EXIT_SUCCESS)
            | Undefined => Undefined
            | Unfinished => Unfinished
            end
      end
  end.

End Mv.

(** ** cp *)

Module Cp.
Import Posix Libc Getopt.

Definition BUFFER_SIZE : Z := 1024 * 1024.
Definition PATH_MAX : Z := 4096.

Record CopyOptions : Type := {
  recursive : Z;
  force : Z;
  interactive : Z;
  preserve : Z;
  verbose : Z;
  no_target_dir : Z;
  update : Z
}.

(** snprintf(buf, PATH_MAX, "%s/%s", a, b): the result is cut to fit. *)
Definition snprintf_path (a b : string) : string :=
  str_take (PATH_MAX - 1) (a +:+ "/" +:+ b).

(** Helper function to check if source is newer than destination *)
Definition check_update_condition (src dst : string) (w : world) : world * Z :=
  let (w, src_stat) := stat src w in
  match src_stat with
  | None => (w, 1)
  | Some s =>
      let (w, dst_stat) := stat dst w in
      match dst_stat with
      | None => (w, 1)
      | Some d => (w, if st_mtime d <? st_mtime s then 1 else 0)
      end
  end.

(** while (getchar() != '\n'); *)
Fixpoint clear_input (fuel : nat) (w : world) : option world :=
  match fuel with
  | O => None
  | S fuel' =>
      let (w, c) := getchar w in
      if c =? chr newline then Some w else clear_input fuel' w
  end.

(** The copy loop of [copy_file]; [Exit (-1)] is its [return -1]. *)
Fixpoint copy_contents (fuel : nat) (dst : string) (src_fd dst_fd : Z) (w : world)
    : option (world * flow unit) :=
  match fuel with
  | O => None
  | S fuel' =>
      let '(w, (bytes_read, buffer)) := read src_fd BUFFER_SIZE w in
      if 0 <? bytes_read then
        let (w, bytes_written) := write dst_fd buffer bytes_read w in
        if negb (bytes_written =? bytes_read) then
          let w := eprintf ("Error: Write failed for " +:+ q dst +:+ ": "
                            +:+ strerror (w_errno w) +:+ nl) w in
          let (w, _) := close src_fd w in
          let (w, _) := close dst_fd w in
          Some (w, Exit (-1))
        else copy_contents fuel' dst src_fd dst_fd w
      else Some (w, Return tt)
  end.

(** The check of an existing destination: [Exit 0] is the [return 0] that
    skips the copy. *)
Definition check_destination (fuel : nat) (src dst : string) (options : CopyOptions)
    (w : world) : option (world * flow unit) :=
  let (w, e) := access dst F_OK w in
  if e =? 0 then
    if negb (interactive options =? 0) then
      let w := printf ("overwrite " +:+ q dst +:+ "? (y/n [n]) ") w in
      let (w, c) := getchar w in
      let response := to_char c in
      match clear_input fuel w with
      | None => None
      | Some w =>
          if negb (response =? chr "y") && negb (response =? chr "Y")
          then Some (w, Exit 0)
          else Some (w, Return tt)
      end
    else if force options =? 0 then
      if negb (update options =? 0) then
        let (w, newer) := check_update_condition src dst w in
        if newer =? 0 then Some (w, Exit 0) else Some (w, Return tt)
      else Some (w, Return tt)
    else Some (w, Return tt)
  else Some (w, Return tt).

Definition copy_file (fuel : nat) (src dst : string) (options : CopyOptions) (w : world)
    : option (world * Z) :=
  let (w, src_stat) := stat src w in
  match src_stat with
  | None =>
      Some (eprintf ("Error: Cannot stat source file " +:+ q src +:+ ": "
                     +:+ strerror (w_errno w) +:+ nl) w, -1)
  | Some src_stat =>
      match check_destination fuel src dst options w with
      | None => None
      | Some (w, Exit r) => Some (w, r)
      | Some (w, Return _) =>
          (* Open source file *)
          let (w, src_fd) := open src O_RDONLY 0 w in
          if src_fd =? -1 then
            Some (eprintf ("Error: Cannot open source file " +:+ q src +:+ ": "
                           +:+ strerror (w_errno w) +:+ nl) w, -1)
          else
            (* Create destination file *)
            let mode := if negb (preserve options =? 0) then st_mode src_stat else 438 in
            let (w, dst_fd) := open dst (Z.lor O_WRONLY (Z.lor O_CREAT O_TRUNC)) mode w in
            if dst_fd =? -1 then
              let w := eprintf ("Error: Cannot create destination file " +:+ q dst +:+ ": "
                                +:+ strerror (w_errno w) +:+ nl) w in
              let (w, _) := close src_fd w in
              Some (w, -1)
            else
              match copy_contents fuel dst src_fd dst_fd w with
              | None => None
              | Some (w, Exit r) => Some (w, r)
              | Some (w, Return _) =>
                  (* Preserve attributes if requested *)
                  let w :=
                    if negb (preserve options =? 0) then
                      let (w, t) := futimens dst_fd (st_atime src_stat) (st_mtime src_stat) w in
                      let w := if t =? -1
                               then eprintf ("Warning: Could not preserve timestamps for "
                                             +:+ q dst +:+ nl) w
                               else w in
                      let (w, o) := fchown dst_fd (st_uid src_stat) (st_gid src_stat) w in
                      if o =? -1
                      then eprintf ("Warning: Could not preserve ownership for "
                                    +:+ q dst +:+ nl) w
                      else w
                    else w in
                  let (w, _) := close src_fd w in
                  let (w, _) := close dst_fd w in
                  let w := if negb (verbose options =? 0)
                           then printf (q src +:+ " -> " +:+ q dst +:+ nl) w else w in
                  Some (w, 0)
              end
      end
  end.

Section CopyEntries.
Variable fuel : nat.
Variable options : CopyOptions.
(** The recursive call of [copy_directory]. *)
Variable recur : string -> string -> world -> option (world * Z).

(** The [readdir] loop of [copy_directory] over the names still in the
    stream [names] of [dir]; the value is what [copy_directory] returns. *)
Fixpoint copy_entries (dir : list string) (src dst : string) (names : list string)
    (w : world) : option (world * Z) :=
  match names with
  | [] => let (w, _) := closedir dir w in Some (w, 0)
  | d_name :: rest =>
      if String.eqb d_name "." || String.eqb d_name ".."
      then copy_entries dir src dst rest w
      else
        let src_path := snprintf_path src d_name in
        let dst_path := snprintf_path dst d_name in
        let (w, statbuf) := lstat src_path w in
        match statbuf with
        | None =>
            copy_entries dir src dst rest
              (eprintf ("Error: Cannot stat " +:+ q src_path +:+ ": "
                        +:+ strerror (w_errno w) +:+ nl) w)
        | Some statbuf =>
            if S_ISDIR (st_mode statbuf) then
              if negb (recursive options =? 0) then
                match recur src_path dst_path w with
                | None => None
                | Some (w, r) =>
                    if r =? -1 then let (w, _) := closedir dir w in Some (w, -1)
                    else copy_entries dir src dst rest w
                end
              else copy_entries dir src dst rest w
            else
              match copy_file fuel src_path dst_path options w with
              | None => None
              | Some (w, r) =>
                  if r =? -1 then let (w, _) := closedir dir w in Some (w, -1)
                  else copy_entries dir src dst rest w
              end
        end
  end.
End CopyEntries.

(** Directory copying implementation *)
Fixpoint copy_directory (fuel : nat) (src dst : string) (options : CopyOptions) (w : world)
    : option (world * Z) :=
  match fuel with
  | O => None
  | S fuel' =>
      (* Create destination directory if it doesn't exist *)
      let (w, m) := mkdir dst 511 w in
      if (m =? -1) && negb (w_errno w =? EEXIST) then
        Some (eprintf ("Error: Cannot create directory " +:+ q dst +:+ ": "
                       +:+ strerror (w_errno w) +:+ nl) w, -1)
      else
        let (w, dir) := opendir src w in
        match dir with
        | None =>
            Some (eprintf ("Error: Cannot open directory " +:+ q src +:+ ": "
                           +:+ strerror (w_errno w) +:+ nl) w, -1)
        | Some names =>
            copy_entries fuel' options
              (fun s d w => copy_directory fuel' s d options w) names src dst names w
        end
  end.

Definition print_usage (program_name : string) (w : world) : world :=
  let w := eprintf ("Usage: " +:+ program_name +:+ " [OPTION]... SOURCE DEST" +:+ nl) w in
  let w := eprintf ("  or:  " +:+ program_name +:+ " [OPTION]... SOURCE... DIRECTORY" +:+ nl) w in
  let w := eprintf (nl +:+ "Options:" +:+ nl) w in
  let w := eprintf ("  -f, --force         force overwrite of destination file" +:+ nl) w in
  let w := eprintf ("  -i, --interactive   prompt before overwrite" +:+ nl) w in
  let w := eprintf ("  -p, --preserve      preserve file attributes" +:+ nl) w in
  let w := eprintf ("  -r, -R, --recursive copy directories recursively" +:+ nl) w in
  let w := eprintf ("  -u, --update        copy only when source is newer" +:+ nl) w in
  let w := eprintf ("  -v, --verbose       explain what is being done" +:+ nl) w in
  let w := eprintf ("  -T, --no-target-directory  treat DEST as a normal file" +:+ nl) w in
  eprintf ("      --help          display this help and exit" +:+ nl) w.

Definition initial_options : CopyOptions :=
  {| recursive := 0; force := 0; interactive := 0; preserve := 0; verbose := 0;
     no_target_dir := 0; update := 0 |}.

(** The inner loop over the characters of an option argument after its
    first one, and the switch on each. *)
Fixpoint parse_letters (program_name : string) (opt : string) (o : CopyOptions) (w : world)
    : world * flow CopyOptions :=
  match opt with
  | EmptyString => (w, Return o)
  | String c rest =>
      let set (o' : CopyOptions) := parse_letters program_name rest o' w in
      if Ascii.eqb c "r" || Ascii.eqb c "R" then
        set {| recursive := 1; force := force o; interactive := interactive o;
               preserve := preserve o; verbose := verbose o;
               no_target_dir := no_target_dir o; update := update o |}
      else if Ascii.eqb c "f" then
        set {| recursive := recursive o; force := 1; interactive := interactive o;
               preserve := preserve o; verbose := verbose o;
               no_target_dir := no_target_dir o; update := update o |}
      else if Ascii.eqb c "i" then
        set {| recursive := recursive o; force := force o; interactive := 1;
               preserve := preserve o; verbose := verbose o;
               no_target_dir := no_target_dir o; update := update o |}
      else if Ascii.eqb c "p" then
        set {| recursive := recursive o; force := force o; interactive := interactive o;
               preserve := 1; verbose := verbose o;
               no_target_dir := no_target_dir o; update := update o |}
      else if Ascii.eqb c "v" then
        set {| recursive := recursive o; force := force o; interactive := interactive o;
               preserve := preserve o; verbose := 1;
               no_target_dir := no_target_dir o; update := update o |}
      else if Ascii.eqb c "T" then
        set {| recursive := recursive o; force := force o; interactive := interactive o;
               preserve := preserve o; verbose := verbose o;
               no_target_dir := 1; update := update o |}
      else if Ascii.eqb c "u" then
        set {| recursive := recursive o; force := force o; interactive := interactive o;
               preserve := preserve o; verbose := verbose o;
               no_target_dir := no_target_dir o; update := 1 |}
      else
        let w := eprintf ("Unknown option: -" +:+ String c EmptyString +:+ nl) w in
        (print_usage program_name w, Exit 1)
  end.

(** The option loop over [argv[1..]]: the options and the arguments
    [argv[i..]] left. *)
Fixpoint parse_arguments (program_name : string) (args : list string) (o : CopyOptions)
    (w : world) : world * flow (CopyOptions * list string) :=
  match args with
  | [] => (w, Return (o, []))
  | opt :: rest =>
      if String.prefix "-" opt then
        if String.eqb opt "--help" then (print_usage program_name w, Exit 0)
        else
          match parse_letters program_name (str_drop 1 opt) o w with
          | (w, Return o') => parse_arguments program_name rest o' w
          | (w, Exit s) => (w, Exit s)
          end
      else (w, Return (o, args))
  end.

(** One source of the multiple-source loop: [Exit 1] is [return 1]. *)
Definition copy_into (fuel : nat) (options : CopyOptions) (target source : string)
    (w : world) : option (world * flow unit) :=
  let basename_ptr := basename source in
  (* argv[i] after basename, which cuts its trailing slashes *)
  let source := basename_arg source in
  let dst_path := str_take (PATH_MAX - 1) (target +:+ "/" +:+ basename_ptr) in
  let (w, src_stat) := stat source w in
  match src_stat with
  | None => Some (w, Return tt)
  | Some src_stat =>
      if S_ISDIR (st_mode src_stat) then
        if negb (recursive options =? 0) then
          match copy_directory fuel source dst_path options w with
          | None => None
          | Some (w, r) => Some (w, if r =? -1 then Exit 1 else Return tt)
          end
        else
          Some (eprintf ("Error: Omitting directory " +:+ q source +:+ nl) w, Return tt)
      else
        match copy_file fuel source dst_path options w with
        | None => None
        | Some (w, r) => Some (w, if r =? -1 then Exit 1 else Return tt)
        end
  end.

Fixpoint copy_all (fuel : nat) (options : CopyOptions) (target : string)
    (sources : list string) (w : world) : option (world * flow unit) :=
  match sources with
  | [] => Some (w, Return tt)
  | source :: rest =>
      match copy_into fuel options target source w with
      | None => None
      | Some (w, Exit s) => Some (w, Exit s)
      | Some (w, Return _) => copy_all fuel options target rest w
      end
  end.

Definition main (fuel : nat) (argv : list string) (w : world) : option (world * Z) :=
  let program_name := List.hd "" argv in
  match parse_arguments program_name (List.tl argv) initial_options w with
  | (w, Exit s) => Some (w, s)
  | (w, Return (options, operands)) =>
      match split_last operands with
      | None | Some ([], _) =>
          let w := eprintf ("Error: Missing operand" +:+ nl) w in
          Some (print_usage program_name w, 1)
      | Some (sources, target) =>
          if 2 <? Z.of_nat (length operands) then
            (* Multiple source files case *)
            let (w, target_stat) :=
              if no_target_dir options =? 0 then stat target w else (w, None) in
            let is_dir :=
              match target_stat with
              | Some s => S_ISDIR (st_mode s)
              | None => false
              end in
            if is_dir then
              match copy_all fuel options target sources w with
              | None => None
              | Some (w, Exit s) => Some (w, s)
              | Some (w, Return _) => Some (w, 0)
              end
            else
              Some (eprintf ("Error: Target " +:+ q target +:+ " is not a directory" +:+ nl) w, 1)
          else
            (* Single source file case *)
            let source := List.hd "" sources in
            let (w, src_stat) := stat source w in
            match src_stat with
            | Some src_stat =>
                if S_ISDIR (st_mode src_stat) then
                  if negb (recursive options =? 0) then
                    match copy_directory fuel source target options w with
                    | None => None
                    | Some (w, r) => Some (w, if r =? -1 then 1 else 0)
                    end
                  else
                    Some (eprintf ("Error: Omitting directory " +:+ q source +:+ nl) w, 1)
                else
                  match copy_file fuel source target options w with
                  | None => None
                  | Some (w, r) => Some (w, if r =? -1 then 1 else 0)
                  end
            | None =>
                Some (eprintf ("Error: Cannot stat " +:+ q source +:+ ": "
                               +:+ strerror (w_errno w) +:+ nl) w, 1)
            end
      end
  end.

End Cp.

(** ** rm *)

Module Rm.
Import Posix Libc Getopt.

Definition PROGRAM_NAME : string := "rm".

(** Configuration structure *)
Record rm_options : Type := {
  recursive : Z;
  force : Z;
  verbose : Z;
  interactive : Z;
  preserve_root : Z;
  no_preserve_root : Z
}.

Definition initial_options : rm_options :=
  {| recursive := 0; force := 0; verbose := 0; interactive := 0;
     preserve_root := 1; no_preserve_root := 0 |}.

(** The callback of the tree walk. *)
Definition handle_remove (options : rm_options) (fpath : string) (w : world) : world * Z :=
  let (w, rv) := remove fpath w in
  if negb (rv =? 0) && (force options =? 0) then
    (eprintf (PROGRAM_NAME +:+ ": failed to remove " +:+ q fpath +:+ ": "
              +:+ strerror (w_errno w) +:+ nl) w, -1)
  else
    let w := if negb (verbose options =? 0)
             then printf ("removed " +:+ q fpath +:+ nl) w else w in
    (w, 0).

(** while (response != '\n' && response != EOF) response = getchar(); *)
Fixpoint skip_line (fuel : nat) (response : Z) (w : world) : option world :=
  match fuel with
  | O => None
  | S fuel' =>
      if negb (response =? chr newline) && negb (response =? EOF) then
        let (w, c) := getchar w in skip_line fuel' (to_char c) w
      else Some w
  end.

(** Remove a single file *)
Definition remove_file (fuel : nat) (options : rm_options) (path : string) (w : world)
    : option (world * Z) :=
  let asked :=
    if negb (interactive options =? 0) && (force options =? 0) then
      let w := printf ("rm: remove regular file " +:+ q path +:+ "? ") w in
      let (w, c) := getchar w in
      let response := to_char c in
      if negb (response =? chr "y") && negb (response =? chr "Y")
      then Some (w, Exit 0)
      else
        match skip_line fuel response w with
        | None => None
        | Some w => Some (w, Return tt)
        end
    else Some (w, Return tt) in
  match asked with
  | None => None
  | Some (w, Exit r) => Some (w, r)
  | Some (w, Return _) =>
      let (w, r) := remove path w in
      if negb (r =? 0) then
        if force options =? 0 then
          Some (eprintf (PROGRAM_NAME +:+ ": cannot remove " +:+ q path +:+ ": "
                         +:+ strerror (w_errno w) +:+ nl) w, 1)
        else Some (w, 0)
      else
        let w := if negb (verbose options =? 0)
                 then printf ("removed " +:+ q path +:+ nl) w else w in
        Some (w, 0)
  end.

(** Remove directory recursively using nftw *)
Definition remove_directory_recursive (fuel : nat) (options : rm_options) (path : string)
    (w : world) : option (world * Z) :=
  nftw (handle_remove options) fuel path w.

(** Print usage information; the status is the one the process exits with. *)
Definition usage (status : Z) (w : world) : world * Z :=
  if negb (status =? EXIT_SUCCESS) then
    (eprintf ("Try '" +:+ PROGRAM_NAME +:+ " --help' for more information." +:+ nl) w, status)
  else
    let w := printf ("Usage: " +:+ PROGRAM_NAME +:+ " [OPTION]... [FILE]..." +:+ nl) w in
    let w := printf ("Remove (unlink) the FILE(s)." +:+ nl +:+ nl) w in
    let w := printf ("  -f, --force           ignore nonexistent files and arguments, never prompt" +:+ nl) w in
    let w := printf ("  -i, --interactive     prompt before every removal" +:+ nl) w in
    let w := printf ("  -r, -R, --recursive   remove directories and their contents recursively" +:+ nl) w in
    let w := printf ("  -v, --verbose         explain what is being done" +:+ nl) w in
    let w := printf ("      --help            display this help and exit" +:+ nl) w in
    let w := printf ("      --preserve-root   do not remove '/' (default)" +:+ nl) w in
    let w := printf ("      --no-preserve-root  do not treat '/' specially" +:+ nl) w in
    let w := printf (nl +:+ "By default, rm does not remove directories. Use the --recursive (-r or -R)" +:+ nl) w in
    let w := printf ("option to remove each listed directory, too, along with all of its contents." +:+ nl +:+ nl) w in
    (w, status).

Definition long_options : list long_option :=
  [ {| lo_name := "force"; lo_flag := None; lo_val := chr "f" |};
    {| lo_name := "interactive"; lo_flag := None; lo_val := chr "i" |};
    {| lo_name := "recursive"; lo_flag := None; lo_val := chr "r" |};
    {| lo_name := "verbose"; lo_flag := None; lo_val := chr "v" |};
    {| lo_name := "help"; lo_flag := None; lo_val := chr "h" |};
    {| lo_name := "preserve-root"; lo_flag := Some "preserve_root"; lo_val := 1 |};
    {| lo_name := "no-preserve-root"; lo_flag := Some "no_preserve_root"; lo_val := 1 |} ].

(** The store getopt_long does through the flag pointer of an entry. *)
Definition store_flag (var : string) (val : Z) (o : rm_options) : rm_options :=
  if String.eqb var "preserve_root" then
    {| recursive := recursive o; force := force o; verbose := verbose o;
       interactive := interactive o; preserve_root := val;
       no_preserve_root := no_preserve_root o |}
  else if String.eqb var "no_preserve_root" then
    {| recursive := recursive o; force := force o; verbose := verbose o;
       interactive := interactive o; preserve_root := preserve_root o;
       no_preserve_root := val |}
  else o.

Definition code_of (r : result) : Z :=
  match r with
  | Opt c => c
  | Flag _ _ => 0
  | Bad _ => chr "?"
  end.

Definition option_case (c : Z) (o : rm_options) (w : world) : world * flow rm_options :=
  if c =? chr "f" then
    (w, Return {| recursive := recursive o; force := 1; verbose := verbose o;
                  interactive := 0; preserve_root := preserve_root o;
                  no_preserve_root := no_preserve_root o |})
  else if c =? chr "i" then
    (w, Return {| recursive := recursive o; force := 0; verbose := verbose o;
                  interactive := 1; preserve_root := preserve_root o;
                  no_preserve_root := no_preserve_root o |})
  else if (c =? chr "r") || (c =? chr "R") then
    (w, Return {| recursive := 1; force := force o; verbose := verbose o;
                  interactive := interactive o; preserve_root := preserve_root o;
                  no_preserve_root := no_preserve_root o |})
  else if c =? chr "v" then
    (w, Return {| recursive := recursive o; force := force o; verbose := 1;
                  interactive := interactive o; preserve_root := preserve_root o;
                  no_preserve_root := no_preserve_root o |})
  else if c =? chr "h" then
    let (w, s) := usage EXIT_SUCCESS w in (w, Exit s)
  else if c =? 0 then (w, Return o)
  else
    let (w, s) := usage EXIT_FAILURE w in (w, Exit s).

Fixpoint parse_options (rs : list result) (o : rm_options) (w : world)
    : world * flow rm_options :=
  match rs with
  | [] => (w, Return o)
  | r :: rest =>
      let w := match r with Bad msg => eprintf msg w | _ => w end in
      let o := match r with Flag var val => store_flag var val o | _ => o end in
      match option_case (code_of r) o w with
      | (w, Return o') => parse_options rest o' w
      | (w, Exit s) => (w, Exit s)
      end
  end.

(** The body of the loop over the file arguments: the world and the new
    value of [exit_status]. *)
Definition process_argument (fuel : nat) (options : rm_options) (path : string)
    (exit_status : Z) (w : world) : option (world * Z) :=
  let (w, st) := lstat path w in
  match st with
  | None =>
      (* Check if path exists *)
      if force options =? 0 then
        Some (eprintf (PROGRAM_NAME +:+ ": cannot remove " +:+ q path +:+ ": "
                       +:+ strerror (w_errno w) +:+ nl) w, EXIT_FAILURE)
      else Some (w, exit_status)
  | Some st =>
      (* Check for root directory protection *)
      if negb (preserve_root options =? 0) && (no_preserve_root options =? 0)
         && String.eqb path "/" then
        Some (eprintf (PROGRAM_NAME +:+ ": refusing to remove root directory '/'" +:+ nl) w,
              EXIT_FAILURE)
      else if S_ISDIR (st_mode st) then
        if recursive options =? 0 then
          Some (eprintf (PROGRAM_NAME +:+ ": cannot remove " +:+ q path
                         +:+ ": Is a directory" +:+ nl) w, EXIT_FAILURE)
        else
          match remove_directory_recursive fuel options path w with
          | None => None
          | Some (w, r) => Some (w, if negb (r =? 0) then EXIT_FAILURE else exit_status)
          end
      else
        match remove_file fuel options path w with
        | None => None
        | Some (w, r) => Some (w, if negb (r =? 0) then EXIT_FAILURE else exit_status)
        end
  end.

Fixpoint process_arguments (fuel : nat) (options : rm_options) (paths : list string)
    (exit_status : Z) (w : world) : option (world * Z) :=
  match paths with
  | [] => Some (w, exit_status)
  | path :: rest =>
      match process_argument fuel options path exit_status w with
      | None => None
      | Some (w, exit_status) => process_arguments fuel options rest exit_status w
      end
  end.

Definition main (fuel : nat) (argv : list string) (w : world) : option (world * Z) :=
  let exit_status := EXIT_SUCCESS in
  let (rs, operands) := getopt_long argv "firRv" long_options in
  match parse_options rs initial_options w with
  | (w, Exit s) => Some (w, s)
  | (w, Return options) =>
      if is_nil operands then
        let w := eprintf (PROGRAM_NAME +:+ ": missing operand" +:+ nl) w in
        Some (usage EXIT_FAILURE w)
      else process_arguments fuel options operands exit_status w
  end.

End Rm.

(** ** echo *)

Module Echo.
Import Posix Libc.

Record Options : Type := {
  interpret_escapes : bool;
  newline : bool;
  help : bool;
  version : bool
}.

Definition default_options : Options :=
  {| interpret_escapes := false; newline := true; help := false; version := false |}.

Definition chr_string (n : nat) : string := String (ascii_of_nat n) EmptyString.

Definition backslash : ascii := "\"%char.

Definition getEscapeSequence (escape_char : ascii) : option string :=
  if Ascii.eqb escape_char backslash then Some (String backslash EmptyString)
  else if Ascii.eqb escape_char "a" then Some (chr_string 7)    (* Alert (BEL) *)
  else if Ascii.eqb escape_char "b" then Some (chr_string 8)    (* Backspace *)
  else if Ascii.eqb escape_char "c" then Some EmptyString       (* Produce no further output *)
  else if Ascii.eqb escape_char "e" then Some (chr_string 27)   (* Escape *)
  else if Ascii.eqb escape_char "f" then Some (chr_string 12)   (* Form feed *)
  else if Ascii.eqb escape_char "n" then Some (chr_string 10)   (* Newline *)
  else if Ascii.eqb escape_char "r" then Some (chr_string 13)   (* Carriage return *)
  else if Ascii.eqb escape_char "t" then Some (chr_string 9)    (* Horizontal tab *)
  else if Ascii.eqb escape_char "v" then Some (chr_string 11)   (* Vertical tab *)
  else None.

(** The loop over the input by index [i]: the input from [i] on is the
    argument, the value is what is appended to [result] from there. *)
Fixpoint processEscapes (input : string) : string :=
  match input with
  | EmptyString => EmptyString
  | String c rest =>
      match rest with
      | String escape_char rest' =>
          if Ascii.eqb c backslash then
            match getEscapeSequence escape_char with
            | Some replacement =>
                (* Special case for \c which stops all output *)
                if Ascii.eqb escape_char "c" then replacement
                else replacement +:+ processEscapes rest'
            | None =>
                (* Unknown escape sequence, keep as is *)
                String backslash (String escape_char (processEscapes rest'))
            end
          else String c (processEscapes rest)
      | EmptyString => String c EmptyString
      end
  end.

(** The option loop: the options and the arguments from [arg_index] on. *)
Fixpoint parse_options (args : list string) (options : Options) : Options * list string :=
  match args with
  | [] => (options, [])
  | arg :: rest =>
      if negb (String.prefix "-" arg) then (options, args)
      else if String.eqb arg "-n" then
        parse_options rest {| interpret_escapes := interpret_escapes options; newline := false;
                              help := help options; version := version options |}
      else if String.eqb arg "-e" then
        parse_options rest {| interpret_escapes := true; newline := newline options;
                              help := help options; version := version options |}
      else if String.eqb arg "-E" then
        parse_options rest {| interpret_escapes := false; newline := newline options;
                              help := help options; version := version options |}
      else if String.eqb arg "--help" then
        parse_options rest {| interpret_escapes := interpret_escapes options;
                              newline := newline options;
                              help := true; version := version options |}
      else if String.eqb arg "--version" then
        parse_options rest {| interpret_escapes := interpret_escapes options;
                              newline := newline options;
                              help := help options; version := true |}
      else (options, args)
  end.

(** The loop that prints the arguments: what it writes to stdout. *)
Fixpoint print_arguments (options : Options) (first : bool) (args : list string) : string :=
  match args with
  | [] => EmptyString
  | arg :: rest =>
      (if negb first then " " else "")
      +:+ (if interpret_escapes options then processEscapes arg else arg)
      +:+ print_arguments options false rest
  end.

Definition printVersion : list string :=
  [ "ASD CoreUtils echo 1.0.0" +:+ nl;
    "Copyright (C) 2025 AnmiTaliDev" +:+ nl;
    "License: Apache 2.0" +:+ nl ].

Definition bs : string := String backslash EmptyString.

Definition printHelp : list string :=
  [ "Usage: echo [OPTION]... [STRING]..." +:+ nl;
    "Echo the STRING(s) to standard output." +:+ nl +:+ nl;
    "  -n             do not output the trailing newline" +:+ nl;
    "  -e             enable interpretation of backslash escapes" +:+ nl;
    "  -E             disable interpretation of backslash escapes (default)" +:+ nl;
    "  --help         display this help and exit" +:+ nl;
    "  --version      output version information and exit" +:+ nl +:+ nl;
    "If -e is in effect, the following sequences are recognized:" +:+ nl;
    "  " +:+ bs +:+ bs +:+ "      backslash" +:+ nl;
    "  " +:+ bs +:+ "a      alert (BEL)" +:+ nl;
    "  " +:+ bs +:+ "b      backspace" +:+ nl;
    "  " +:+ bs +:+ "c      produce no further output" +:+ nl;
    "  " +:+ bs +:+ "e      escape" +:+ nl;
    "  " +:+ bs +:+ "f      form feed" +:+ nl;
    "  " +:+ bs +:+ "n      new line" +:+ nl;
    "  " +:+ bs +:+ "r      carriage return" +:+ nl;
    "  " +:+ bs +:+ "t      horizontal tab" +:+ nl;
    "  " +:+ bs +:+ "v      vertical tab" +:+ nl ].

(** What [main] writes to stdout and (through std.debug.print) to stderr.
    Allocation and write errors are not modelled. *)
Definition main (args : list string) : string * list string :=
  let (options, operands) := parse_options (List.tl args) default_options in
  if help options then (EmptyString, printHelp)
  else if version options then (EmptyString, printVersion)
  else
    (print_arguments options true operands
       +:+ (if newline options then nl else EmptyString),
     []).

End Echo.

(** ** Concrete machines

    Small file systems on which the utilities are run in the examples.
    Device 0 holds the root directory (inode 2), which is also the working
    directory; the user is an ordinary one (uid 1000). *)

Module Scenarios.
Import Posix Libc.

Definition meta (mode : Z) : imeta :=
  {| i_mode := mode; i_uid := 1000; i_gid := 1000; i_atime := 0; i_mtime := 0 |}.

Definition file (mode : Z) (data : string) : inode :=
  {| i_meta := meta mode; i_body := Reg data |}.

Definition dir (mode : Z) (self parent : fid) (es : list (string * fid)) : inode :=
  {| i_meta := meta mode; i_body := Dir ((".", self) :: ("..", parent) :: es) |}.

Definition symlink (target : string) : inode :=
  {| i_meta := meta 511; i_body := Lnk target |}.

Definition mkfs (l : list (fid * inode)) (free : list (Z * Z)) : filesys :=
  {| inodes := list_to_map l; root := (0, 2); cwd := (0, 2); next_ino := 100;
     avail := list_to_map free; clock := 7; euid := 1000 |}.

Definition boot (fs : filesys) (input : string) : world :=
  {| w_fs := fs; w_fds := ∅; w_errno := 0; w_stdin := input;
     w_stdout := []; w_stderr := []; w_trace := [] |}.

(** The content of the regular file that [p] names, links followed. *)
Definition cat (w : world) (p : string) : option string :=
  match lookup_path (w_fs w) true p with
  | Ok f =>
      match inodes (w_fs w) !! f with
      | Some {| i_meta := _; i_body := Reg d |} => Some d
      | _ => None
      end
  | Err _ => None
  end.

(** Whether a name exists (a link is not followed). *)
Definition exists_path (w : world) (p : string) : bool :=
  match fs_stat (w_fs w) false p with
  | Ok _ => true
  | Err _ => false
  end.

(** The options of cp -r and of rm -r. *)
Definition cp_r : Cp.CopyOptions :=
  {| Cp.recursive := 1; Cp.force := 0; Cp.interactive := 0; Cp.preserve := 0;
     Cp.verbose := 0; Cp.no_target_dir := 0; Cp.update := 0 |}.


(** /f is a file, and /d/f a directory: [rename("f", "d/f")] fails. *)
Definition blocked_move : world :=
  boot (mkfs [ ((0, 2), dir 493 (0, 2) (0, 2) [("f", (0, 3)); ("d", (0, 4))]);
               ((0, 3), file 420 "hello");
               ((0, 4), dir 493 (0, 4) (0, 2) [("f", (0, 5))]);
               ((0, 5), dir 493 (0, 5) (0, 4) []) ] []) "".




(** /a holds the symlinks l to the file /t and ld to the directory /d. *)
Definition linked : world :=
  boot (mkfs [ ((0, 2), dir 493 (0, 2) (0, 2) [("a", (0, 3)); ("t", (0, 6)); ("d", (0, 7))]);
               ((0, 3), dir 493 (0, 3) (0, 2) [("l", (0, 4)); ("ld", (0, 5))]);
               ((0, 4), symlink "/t");
               ((0, 5), symlink "/d");
               ((0, 6), file 420 "secret");
               ((0, 7), dir 493 (0, 7) (0, 2) [("k", (0, 8))]);
               ((0, 8), file 420 "k") ] []) "".

(** /a holds the symlink l to /gone, which does not exist; /d is an empty
    directory. *)
Definition dangling : world :=
  boot (mkfs [ ((0, 2), dir 493 (0, 2) (0, 2) [("a", (0, 3)); ("d", (0, 5))]);
               ((0, 3), dir 493 (0, 3) (0, 2) [("l", (0, 4))]);
               ((0, 4), symlink "/gone");
               ((0, 5), dir 493 (0, 5) (0, 2) []) ] []) "".

(** /s is a directory that may be read but not searched (mode 0444) and
    holds a file q. *)
Definition unsearchable : world :=
  boot (mkfs [ ((0, 2), dir 493 (0, 2) (0, 2) [("s", (0, 3))]);
               ((0, 3), dir 292 (0, 3) (0, 2) [("q", (0, 4))]);
               ((0, 4), file 420 "q") ] []) "".

(** /a, /b and /c are files; /d is a directory. The input is given. *)
Definition plain (input : string) : world :=
  boot (mkfs [ ((0, 2), dir 493 (0, 2) (0, 2)
                  [("a", (0, 3)); ("b", (0, 4)); ("c", (0, 5)); ("d", (0, 6))]);
               ((0, 3), file 420 "aa");
               ((0, 4), file 420 "bb");
               ((0, 5), file 420 "cc");
               ((0, 6), dir 493 (0, 6) (0, 2) []) ] []) input.

End Scenarios.

(** ** Notions used to state the properties *)

Module Notions.
Import Posix Libc Getopt.

(** The last of the option values [f], [i] and [n] in a sequence of values
    returned by getopt_long, if any. *)
Fixpoint last_choice (cs : list Z) : option Z :=
  match cs with
  | [] => None
  | c :: rest =>
      match last_choice rest with
      | Some c' => Some c'
      | None =>
          if (c =? chr "f") || (c =? chr "i") || (c =? chr "n") then Some c else None
      end
  end.

(** The three exclusive flags of mv: force, interactive, no-clobber. *)
Definition choice (fl : Mv.flags) : Z * Z * Z :=
  (Mv.force_flag fl, Mv.interactive_flag fl, Mv.no_clobber_flag fl).

(** Whether the scan of [processEscapes] over [s] ends on a backslash that
    is the last character of [s] and not part of an escape: a "\c" put
    after such an [s] would not be read as an escape. *)
Fixpoint dangling (s : string) : bool :=
  match s with
  | EmptyString => false
  | String c rest =>
      match rest with
      | String e rest' =>
          if Ascii.eqb c Echo.backslash
          then (if Ascii.eqb e "c" then false else dangling rest')
          else dangling rest
      | EmptyString => Ascii.eqb c Echo.backslash
      end
  end.

(** The two characters of the escape that stops the output. *)
Definition escape_c : string := String Echo.backslash "c".

(** What the arguments after the first one add to the output of echo -e. *)
Fixpoint following (args : list string) : string :=
  match args with
  | [] => EmptyString
  | a :: rest => " " +:+ Echo.processEscapes a +:+ following rest
  end.

(** Whether [stat] finds a directory at [p]. *)
Definition existing_directory (w : world) (p : string) : bool :=
  match fs_stat (w_fs w) true p with
  | Ok s => S_ISDIR (st_mode s)
  | Err _ => false
  end.

(** The flags selected by one of the three option values. *)
Definition flags_for (c : Z) : Z * Z * Z :=
  if c =? chr "f" then (1, 0, 0)
  else if c =? chr "i" then (0, 1, 0)
  else (0, 0, 1).

Inductive utility : Type := CP | MV.

(** The world and the status a run of a utility ends with; there is
    none when the run does not end, or has no defined behaviour. *)
Definition run (u : utility) (fuel : nat) (argv : list string) (w : world)
    : option (world * Z) :=
  match u with
  | CP => Cp.main fuel argv w
  | MV =>
      match Mv.main fuel argv w with
      | Ends r => Some r
      | Undefined | Unfinished => None
      end
  end.

(** The operands the option loop of a utility leaves, when it runs to its
    end. *)
Definition operands_of (u : utility) (argv : list string) (w : world) : option (list string) :=
  match u with
  | CP =>
      match Cp.parse_arguments (List.hd "" argv) (List.tl argv) Cp.initial_options w with
      | (_, Return (_, operands)) => Some operands
      | (_, Exit _) => None
      end
  | MV =>
      let (rs, operands) := getopt_long argv "finv" Mv.long_options in
      match Mv.parse_options (List.hd "" argv) rs Mv.initial_flags w with
      | (_, Return _) => Some operands
      | (_, Exit _) => None
      end
  end.

Definition not_a_directory (u : utility) (dest : string) : string :=
  match u with
  | CP => "Error: Target " +:+ q dest +:+ " is not a directory" +:+ nl
  | MV => "mv: target " +:+ q dest +:+ " is not a directory" +:+ nl
  end.

(** Whether what mv hands to free, if anything, is the block strdup gave:
    nothing is freed when the target is no directory, and basename returns
    the start of the block when the source has no directory part. *)
Definition frees_its_block (dest_is_dir : bool) (source : string) : bool :=
  negb dest_is_dir || may_free (basename_pointer source).

(** The destination mv computes for a source. *)
Definition final_dest (dest : string) (dest_is_dir : bool) (source : string) : string :=
  if dest_is_dir then dest +:+ "/" +:+ basename source else dest.

Definition same_file (source dest : string) : string :=
  "mv: " +:+ q source +:+ " and " +:+ q dest +:+ " are the same file" +:+ nl.

(** Whether the root directory protection of rm applies to a path. *)
Definition root_guarded (options : Rm.rm_options) (path : string) : bool :=
  negb (Rm.preserve_root options =? 0) && (Rm.no_preserve_root options =? 0)
  && String.eqb path "/".

Definition is_a_directory (path : string) : string :=
  Rm.PROGRAM_NAME +:+ ": cannot remove " +:+ q path +:+ ": Is a directory" +:+ nl.



(** The events of calls on single files. *)
Definition file_event (e : event) : Prop :=
  match e with
  | Opened _ _ _ | Wrote _ _ | SetTimes _ | Chowned _ => True
  | _ => False
  end.

Definition is_link (fs : filesys) (f : fid) : Prop :=
  exists m t, inodes fs !! f = Some {| i_meta := m; i_body := Lnk t |}.

(** From [w] to [w'], only calls on single files were made, and every
    symlink there is in the end was there before. *)
Definition calm (w w' : world) : Prop :=
  (exists evs, w_trace w' = w_trace w ++ evs /\ Forall file_event evs) /\
  (forall f, is_link (w_fs w') f -> is_link (w_fs w) f).

End Notions.


(** ** What echo is expected to write *)

Module EchoTerms.
Import Posix Libc Getopt Notions.

(** The arguments echo takes as options. *)
Definition echo_option (a : string) : bool :=
  String.eqb a "-n" || String.eqb a "-e" || String.eqb a "-E"
  || String.eqb a "--help" || String.eqb a "--version".

(** Whether escapes are interpreted after a sequence of options: the last
    of -e and -E decides. *)
Fixpoint escapes_after (opts : list string) (start : bool) : bool :=
  match opts with
  | [] => start
  | a :: rest =>
      escapes_after rest
        (if String.eqb a "-e" then true else if String.eqb a "-E" then false else start)
  end.

(** What echo is to write for its operands. *)
Definition echo_text (escapes : bool) (operands : list string) : string :=
  String.concat " " (map (fun a => if escapes then Echo.processEscapes a else a) operands).

End EchoTerms.


(** ** Answers to prompts *)

Module Answers.
Import Posix Libc Getopt Notions.

(** An answer to a prompt of cp or rm is a yes when it is y or Y. *)
Definition is_yes (c : ascii) : bool :=
  (to_char (chr c) =? chr "y") || (to_char (chr c) =? chr "Y").

Definition cp_prompt (dst : string) : string := "overwrite " +:+ q dst +:+ "? (y/n [n]) ".

End Answers.


(** ** The options and the prompt of mv *)

Module MvTerms.
Import Posix Libc Getopt Notions.

(** The values of getopt_long after which the option loop of mv goes on. *)
Definition mv_flag_code (c : Z) : bool :=
  (c =? chr "f") || (c =? chr "i") || (c =? chr "n") || (c =? chr "v").

(** The first value returned by getopt_long that is none of them. *)
Fixpoint first_stop (rs : list result) : option Z :=
  match rs with
  | [] => None
  | r :: rest => if mv_flag_code (Mv.code_of r) then first_stop rest else Some (Mv.code_of r)
  end.

Definition mv_prompt (dest : string) : string := "mv: overwrite " +:+ q dest +:+ "? ".

Definition not_overwriting (dest : string) : string :=
  "mv: not overwriting " +:+ q dest +:+ nl.

End MvTerms.


(** ** The prompt of rm and the paths it is given *)

Module RmTerms.
Import Posix Libc Getopt Notions.


(** Whether [lstat] finds a directory at [p]. *)
Definition lstat_directory (w : world) (p : string) : bool :=
  match fs_stat (w_fs w) false p with
  | Ok s => S_ISDIR (st_mode s)
  | Err _ => false
  end.


End RmTerms.


(** ** The bytes of a file *)

Module CopyTerms.
Import Posix Libc.

(** The bytes of the regular file with inode [f]. *)
Definition data_of (fs : filesys) (f : fid) : option string :=
  match inodes fs !! f with
  | Some {| i_meta := _; i_body := Reg d |} => Some d
  | _ => None
  end.

(** The mode cp passes to [open] for the destination. *)
Definition cp_mode (options : Cp.CopyOptions) (s : stat_t) : Z :=
  if negb (Cp.preserve options =? 0) then st_mode s else 438.

(** cp neither asks nor compares dates before it overwrites. *)
Definition overwrites (options : Cp.CopyOptions) : Prop :=
  Cp.interactive options = 0 /\ (Cp.force options <> 0 \/ Cp.update options = 0).

(** Both descriptors of a copy stand at offset [pos], the destination
    holds the first [pos] bytes of the source's bytes [d], and its device
    has no limit on the room left. *)
Definition copying (sfd dfd : Z) (fsrc fdst : fid) (d : string) (pos : Z) (w : world) : Prop :=
  w_fds w !! sfd = Some (fsrc, pos) /\
  w_fds w !! dfd = Some (fdst, pos) /\
  data_of (w_fs w) fsrc = Some d /\
  data_of (w_fs w) fdst = Some (str_take pos d) /\
  avail (w_fs w) !! fst fdst = None /\
  0 <= pos <= strlen d.

(** /f is a file on one device, /m a directory on another one, which has
    no limit on the room left. *)
Definition two_devices : world :=
  Scenarios.boot
    (Scenarios.mkfs
       [ ((0, 2), Scenarios.dir 493 (0, 2) (0, 2) [("f", (0, 3)); ("m", (1, 2))]);
         ((0, 3), Scenarios.file 420 "hello");
         ((1, 2), Scenarios.dir 493 (1, 2) (0, 2) []) ] []) "".

End CopyTerms.


(** ** Failing copies *)

Module TraversalTerms.
Import Posix Libc Getopt.



End TraversalTerms.

(** ** Sources cp passes over, removals rm announces *)

Module SkipTerms.
Import Posix Libc Getopt Notions.

(** A source the loop over several sources of cp passes over when -r is
    not given: one that [stat] does not find, or a directory. The name
    [stat] is given is the argument as basename has left it, without its
    trailing slashes. *)
Definition passed_over (fs : filesys) (source : string) : bool :=
  match fs_stat fs true (basename_arg source) with
  | Err _ => true
  | Ok st => S_ISDIR (st_mode st)
  end.

(** What cp says about the sources it passes over: nothing about a
    missing one. *)
Definition omitting (fs : filesys) (sources : list string) : list string :=
  flat_map (fun source =>
              match fs_stat fs true (basename_arg source) with
              | Err _ => []
              | Ok _ => ["Error: Omitting directory " +:+ q (basename_arg source) +:+ nl]
              end) sources.

Definition removed (path : string) : string := "removed " +:+ q path +:+ nl.

End SkipTerms.


(** ** head (the C++ source)

    A stream of the C++ library is modelled by the bytes it has still to
    deliver: the rest of the standard input is [w_stdin], the rest of a
    file is a string local to [processFile]. A file stream that cannot be
    read (a directory was opened) delivers nothing. What one statement
    sends to a stream is one element of [w_stdout] or of [w_stderr].
    getopt_long is not modelled for options with arguments: [parseArgs]
    takes the sequence of values it returns, each with its [optarg], and
    the operands [argv[optind..]] it leaves. Memory for the buffer of -c
    is taken to suffice, and the text of the duration that -v reports is
    given. *)

Module Head.
Import Posix Libc.

Record ASDHead : Type := {
  numLines : Z;
  numBytes : Z;
  quietMode : bool;
  verboseMode : bool;
  showFilename : bool;
  filenames : list string
}.

(** Default settings *)
Definition default_settings : ASDHead :=
  {| numLines := 10; numBytes := -1; quietMode := false; verboseMode := false;
     showFilename := false; filenames := [] |}.

Definition printUsage (w : world) : world :=
  eprintf ("ASD Head: Display the beginning of files" +:+ nl
           +:+ "Usage: asd-head [OPTION]... [FILE]..." +:+ nl
           +:+ "Print the first 10 lines of each FILE to standard output." +:+ nl
           +:+ "With more than one FILE, prefix each with a header giving the file name."
           +:+ nl +:+ nl
           +:+ "Options:" +:+ nl
           +:+ "  -n, --lines=N         print the first N lines instead of the first 10" +:+ nl
           +:+ "  -c, --bytes=N         print the first N bytes" +:+ nl
           +:+ "  -q, --quiet           never print headers giving file names" +:+ nl
           +:+ "  -v, --verbose         always print headers giving file names" +:+ nl
           +:+ "  -h, --help            display this help and exit" +:+ nl
           +:+ "  -V, --version         output version information and exit" +:+ nl +:+ nl
           +:+ "If no FILE is specified, or when FILE is -, read standard input." +:+ nl +:+ nl
           +:+ "Part of ASD CoreUtils - https://github.com/ASD-Projects/coreutils" +:+ nl) w.

Definition printVersion (w : world) : world :=
  printf ("ASD Head 1.0.0" +:+ nl
          +:+ "Copyright (c) 2025 AnmiTaliDev" +:+ nl
          +:+ "License: Apache License 2.0" +:+ nl
          +:+ "Part of ASD CoreUtils" +:+ nl) w.

Definition reportPerformance (elapsed : string) (w : world) : world :=
  eprintf ("Processing completed in " +:+ elapsed +:+ " ms" +:+ nl) w.

(** The characters up to the first newline, and what follows it. *)
Fixpoint up_to_newline (s : string) : string * string :=
  match s with
  | EmptyString => (EmptyString, EmptyString)
  | String c r =>
      if Ascii.eqb c newline then (EmptyString, r)
      else let (l, r') := up_to_newline r in (String c l, r')
  end.

(** std::getline: the line, without its newline, and the rest of the
    input; it fails when nothing is left. *)
Definition getline (input : string) : option (string * string) :=
  match input with
  | EmptyString => None
  | _ => Some (up_to_newline input)
  end.

(** The loop that runs while lineCount < numLines and std::getline gives
    a line: the input left and the world. *)
Fixpoint print_lines (fuel : nat) (numLines lineCount : Z) (input : string) (w : world)
    : option (string * world) :=
  match fuel with
  | O => None
  | S fuel' =>
      if lineCount <? numLines then
        match getline input with
        | Some (line, rest) =>
            print_lines fuel' numLines (lineCount + 1) rest (printf (line +:+ nl) w)
        | None => Some (input, w)
        end
      else Some (input, w)
  end.

(** The bytes a stream opened on inode [f] delivers. *)
Definition bytes_of (fs : filesys) (f : fid) : string :=
  match inodes fs !! f with
  | Some {| i_meta := _; i_body := Reg d |} => d
  | _ => EmptyString
  end.

(** filenames.back() *)
Definition back (l : list string) : string := List.last l EmptyString.

Definition processFile (fuel : nat) (h : ASDHead) (filename : string) (w : world)
    : option world :=
  (* the stream: None for std::cin, the bytes of the file otherwise *)
  let opened : res (option string) :=
    if String.eqb filename "-" then Ok None
    else
      match fs_open_read (w_fs w) filename with
      | Err e => Err e
      | Ok f => Ok (Some (bytes_of (w_fs w) f))
      end in
  match opened with
  | Err _ =>
      Some (eprintf ("asd-head: cannot open '" +:+ filename
                     +:+ "' for reading: No such file or directory" +:+ nl) w)
  | Ok file =>
      let several := 1 <? Z.of_nat (length (filenames h)) in
      let wanted := showFilename h || (several && negb (quietMode h)) in
      (* Print header if needed *)
      let w :=
        if wanted && negb (String.eqb filename "-")
        then printf ("==> " +:+ filename +:+ " <==" +:+ nl) w
        else if wanted && String.eqb filename "-"
        then printf ("==> standard input <==" +:+ nl) w
        else w in
      let input := match file with Some bytes => bytes | None => w_stdin w end in
      let consumed (rest : string) (w : world) : world :=
        match file with Some _ => w | None => set_stdin rest w end in
      let separate (w : world) : world :=
        if several && negb (quietMode h) && negb (String.eqb filename (back (filenames h)))
        then printf nl w else w in
      if 0 <=? numBytes h then
        (* Process by bytes if specified *)
        let w := consumed (str_drop (numBytes h) input) w in
        let w := printf (str_take (numBytes h) input) w in
        Some (separate w)
      else
        (* Process by lines *)
        match print_lines fuel (numLines h) 0 input w with
        | None => None
        | Some (rest, w) => Some (separate (consumed rest w))
        end
  end.

Definition LLONG_MAX : Z := 9223372036854775807.
Definition LLONG_MIN : Z := -9223372036854775808.

Definition isspace (c : ascii) : bool :=
  let n := chr c in (n =? 32) || ((9 <=? n) && (n <=? 13)).

Definition is_digit (c : ascii) : bool := (48 <=? chr c) && (chr c <=? 57).

Fixpoint skip_spaces (s : string) : string :=
  match s with
  | String c r => if isspace c then skip_spaces r else s
  | EmptyString => EmptyString
  end.

(** The value of the digits [s] starts with, after those of value [acc]. *)
Fixpoint digits_value (acc : Z) (s : string) : Z :=
  match s with
  | String c r => if is_digit c then digits_value (10 * acc + (chr c - 48)) r else acc
  | EmptyString => acc
  end.

(** std::stoll: the number the string starts with; None when it throws
    (std::invalid_argument without a digit, std::out_of_range). *)
Definition stoll (str : string) : option Z :=
  let s := skip_spaces str in
  let '(negative, s) :=
    match s with
    | String c r =>
        if Ascii.eqb c "-" then (true, r)
        else if Ascii.eqb c "+" then (false, r)
        else (false, s)
    | EmptyString => (false, s)
    end in
  match s with
  | String c _ =>
      if is_digit c then
        let v := if negative then - digits_value 0 s else digits_value 0 s in
        if (LLONG_MIN <=? v) && (v <=? LLONG_MAX) then Some v else None
      else None
  | EmptyString => None
  end.

(** What a call of getopt_long gave: an option value with its [optarg],
    or '?' after the message it wrote itself. *)
Inductive scanned : Type :=
  | Given (opt : Z) (optarg : string)
  | Invalid (msg : string).

(** How a piece of code ends that may throw. *)
Inductive outcome (A : Type) : Type :=
  | Value (a : A)
  | Thrown.
Arguments Value {A} a.
Arguments Thrown {A}.

(** The option loop of [parseArgs]: [Value (Some h)] when the loop has run
    to its end, [Value None] for [return false]. *)
Fixpoint parse_loop (rs : list scanned) (h : ASDHead) (w : world)
    : world * outcome (option ASDHead) :=
  match rs with
  | [] => (w, Value (Some h))
  | Invalid msg :: _ => (printUsage (eprintf msg w), Value None)
  | Given opt optarg :: rest =>
      if opt =? chr "c" then
        match stoll optarg with
        | None => (w, Thrown)
        | Some v =>
            parse_loop rest
              {| numLines := -1; numBytes := v; quietMode := quietMode h;
                 verboseMode := verboseMode h; showFilename := showFilename h;
                 filenames := filenames h |} w
        end
      else if opt =? chr "n" then
        match stoll optarg with
        | None => (w, Thrown)
        | Some v =>
            parse_loop rest
              {| numLines := v; numBytes := -1; quietMode := quietMode h;
                 verboseMode := verboseMode h; showFilename := showFilename h;
                 filenames := filenames h |} w
        end
      else if opt =? chr "q" then
        parse_loop rest
          {| numLines := numLines h; numBytes := numBytes h; quietMode := true;
             verboseMode := false; showFilename := showFilename h;
             filenames := filenames h |} w
      else if opt =? chr "v" then
        parse_loop rest
          {| numLines := numLines h; numBytes := numBytes h; quietMode := false;
             verboseMode := true; showFilename := true;
             filenames := filenames h |} w
      else if opt =? chr "h" then (printUsage w, Value None)
      else if opt =? chr "V" then (printVersion w, Value None)
      else (printUsage w, Value None)
  end.

Definition parseArgs (rs : list scanned) (operands : list string) (h : ASDHead) (w : world)
    : world * outcome (option ASDHead) :=
  match parse_loop rs h w with
  | (w, Value (Some h)) =>
      (* Collect filenames *)
      let names := filenames h ++ operands in
      (* If no files specified, use stdin *)
      let names := if is_nil names then ["-"] else names in
      (w, Value (Some {| numLines := numLines h; numBytes := numBytes h;
                         quietMode := quietMode h; verboseMode := verboseMode h;
                         showFilename := showFilename h; filenames := names |}))
  | r => r
  end.

Fixpoint process_files (fuel : nat) (h : ASDHead) (names : list string) (w : world)
    : option world :=
  match names with
  | [] => Some w
  | filename :: rest =>
      match processFile fuel h filename w with
      | None => None
      | Some w => process_files fuel h rest w
      end
  end.

Definition execute (fuel : nat) (elapsed : string) (h : ASDHead) (w : world) : option world :=
  match process_files fuel h (filenames h) w with
  | None => None
  | Some w => Some (if verboseMode h then reportPerformance elapsed w else w)
  end.

(** How the process ends: with an exit status, or by std::terminate after
    an exception nothing catches. *)
Inductive ending : Type :=
  | Exited (status : Z)
  | Aborted.

Definition main (fuel : nat) (elapsed : string) (rs : list scanned) (operands : list string)
    (w : world) : option (world * ending) :=
  match parseArgs rs operands default_settings w with
  | (w, Thrown) => Some (w, Aborted)
  | (w, Value None) => Some (w, Exited 1)
  | (w, Value (Some head)) =>
      match execute fuel elapsed head w with
      | None => None
      | Some w => Some (w, Exited 0)
      end
  end.

End Head.

(** ** What head is expected to write *)

Module HeadTerms.
Import Posix Libc.

(** The number of newlines in a text. *)
Fixpoint newlines (s : string) : Z :=
  match s with
  | EmptyString => 0
  | String c r => (if Ascii.eqb c newline then 1 else 0) + newlines r
  end.

(** The number of lines std::getline finds in a text: a last line need
    not end with a newline. *)
Fixpoint lines_in (s : string) : Z :=
  match s with
  | EmptyString => 0
  | String c r =>
      if Ascii.eqb c newline then 1 + lines_in r
      else match r with
           | EmptyString => 1
           | _ => lines_in r
           end
  end.

Fixpoint ends_with_newline (s : string) : bool :=
  match s with
  | EmptyString => false
  | String c EmptyString => Ascii.eqb c newline
  | String _ r => ends_with_newline r
  end.

(** One line, with the newline head gives it. *)
Definition whole_line (o : string) : Prop :=
  exists l, o = l +:+ nl /\ newlines l = 0.

(** Everything written, as one text. *)
Definition text (out : list string) : string := String.concat "" out.

Definition header (filename : string) : string := "==> " +:+ filename +:+ " <==" +:+ nl.

Definition cannot_open (filename : string) : string :=
  "asd-head: cannot open '" +:+ filename +:+ "' for reading: No such file or directory" +:+ nl.

(** The world after the texts [outs] were written to the standard output,
    one after the other. *)
Definition wrote (outs : list string) (w : world) : world :=
  fold_left (fun w s => printf s w) outs w.

(** A file operand head cannot open. *)
Definition unreadable (fs : filesys) (name : string) : bool :=
  negb (String.eqb name "-")
  && match fs_open_read fs name with Err _ => true | Ok _ => false end.

Definition report (elapsed : string) : string :=
  "Processing completed in " +:+ elapsed +:+ " ms" +:+ nl.

Definition is_verbose (r : Head.scanned) : bool :=
  match r with
  | Head.Given opt _ => opt =? chr "v"
  | Head.Invalid _ => false
  end.

End HeadTerms.


(** * Properties *)

(** ** Strings, lists and the standard calls *)

Section Basics.
Import Posix Libc.

Lemma append_assoc (a b c : string) : (a +:+ b) +:+ c = a +:+ b +:+ c.
Proof.
  induction a as [| x a IH]; [reflexivity |].
  change (String x ((a +:+ b) +:+ c) = String x (a +:+ b +:+ c)).
  rewrite IH. reflexivity.
Qed.

Lemma split_last_none {A : Type} (l : list A) : split_last l = None -> l = [].
Proof.
  destruct l as [| y r]; [reflexivity |].
  cbn [split_last]. destruct (split_last r) as [[? ?] |]; discriminate.
Qed.

Lemma split_last_app {A : Type} (l : list A) :
  forall i x, split_last l = Some (i, x) -> l = i ++ [x].
Proof.
  induction l as [| y r IH]; intros i x H; [discriminate |].
  cbn [split_last] in H. destruct (split_last r) as [[i' x'] |] eqn:Hr.
  - injection H as <- <-. rewrite (IH i' x' eq_refl). reflexivity.
  - injection H as <- <-. apply split_last_none in Hr as ->. reflexivity.
Qed.

Lemma stat_ok w p s : fs_stat (w_fs w) true p = Ok s -> stat p w = (w, Some s).
Proof. unfold stat. intros ->. reflexivity. Qed.

Lemma access_exists w p s : fs_stat (w_fs w) true p = Ok s -> access p F_OK w = (w, 0).
Proof.
  unfold access, fs_access, fs_stat.
  destruct (lookup_path (w_fs w) true p) as [e | f]; [discriminate |].
  destruct (inodes (w_fs w) !! f); [| discriminate]. reflexivity.
Qed.

Lemma lstat_ok w p s : fs_stat (w_fs w) false p = Ok s -> lstat p w = (w, Some s).
Proof. unfold lstat. intros ->. reflexivity. Qed.

Lemma lstat_stderr p w : w_stderr (fst (lstat p w)) = w_stderr w.
Proof. unfold lstat. destruct (fs_stat (w_fs w) false p); reflexivity. Qed.

Lemma opendir_stderr p w : w_stderr (fst (opendir p w)) = w_stderr w.
Proof. unfold opendir. destruct (fs_opendir (w_fs w) p); reflexivity. Qed.

End Basics.

(** ** mv: the option loop *)

Section MvOptions.
Import Posix Libc Getopt Notions.

Lemma option_case_returns prog c fl w w' fl' :
  Mv.option_case prog c fl w = (w', Return fl') ->
  w' = w /\
  choice fl' =
    (if (c =? chr "f") || (c =? chr "i") || (c =? chr "n") then flags_for c else choice fl).
Proof.
  unfold Mv.option_case, flags_for, choice.
  destruct (c =? chr "f") eqn:Hf; [intros [= <- <-]; auto |].
  destruct (c =? chr "i") eqn:Hi; [intros [= <- <-]; auto |].
  destruct (c =? chr "n") eqn:Hn; [intros [= <- <-]; auto |].
  destruct (c =? chr "v"); [intros [= <- <-]; auto |].
  destruct (c =? chr "V"); simpl; discriminate.
Qed.

Lemma parse_options_choice prog rs :
  forall fl w w' fl',
    Mv.parse_options prog rs fl w = (w', Return fl') ->
    choice fl' =
      match last_choice (map Mv.code_of rs) with
      | Some c => flags_for c
      | None => choice fl
      end.
Proof.
  induction rs as [| r rest IH]; intros fl w w' fl' H.
  - simpl in H. injection H as <- <-. reflexivity.
  - cbn [Mv.parse_options] in H.
    destruct (Mv.option_case prog (Mv.code_of r) fl _) as [w1 [fl1 | s]] eqn:Hc;
      [| discriminate].
    apply option_case_returns in Hc as [_ Hc].
    apply IH in H. rewrite H. cbn [map last_choice].
    destruct (last_choice (map Mv.code_of rest)); [reflexivity |].
    rewrite Hc.
    destruct ((Mv.code_of r =? chr "f") || (Mv.code_of r =? chr "i")
              || (Mv.code_of r =? chr "n")); reflexivity.
Qed.

Lemma last_choice_is_one cs c :
  last_choice cs = Some c -> c = chr "f" \/ c = chr "i" \/ c = chr "n".
Proof.
  induction cs as [| x rest IH]; [discriminate |].
  cbn [last_choice]. destruct (last_choice rest) as [c' |].
  - intros [= <-]. auto.
  - destruct (x =? chr "f") eqn:Hf; [intros [= <-]; left; lia |].
    destruct (x =? chr "i") eqn:Hi; [intros [= <-]; right; left; lia |].
    destruct (x =? chr "n") eqn:Hn; [intros [= <-]; right; right; lia |].
    discriminate.
Qed.

(** C9. In mv, -f, -i and -n exclude each other: when the option loop has
    run to its end, at most one of [force_flag], [interactive_flag] and
    [no_clobber_flag] is set, and it is the one of the last of these
    options on the command line (none is set when none was given). *)
Theorem mv_exclusive_flags prog rs w w' fl :
  Mv.parse_options prog rs Mv.initial_flags w = (w', Return fl) ->
  (Mv.force_flag fl = 0 \/ Mv.force_flag fl = 1) /\
  (Mv.interactive_flag fl = 0 \/ Mv.interactive_flag fl = 1) /\
  (Mv.no_clobber_flag fl = 0 \/ Mv.no_clobber_flag fl = 1) /\
  Mv.force_flag fl + Mv.interactive_flag fl + Mv.no_clobber_flag fl <= 1 /\
  match last_choice (map Mv.code_of rs) with
  | Some c =>
      Mv.force_flag fl = (if c =? chr "f" then 1 else 0) /\
      Mv.interactive_flag fl = (if c =? chr "i" then 1 else 0) /\
      Mv.no_clobber_flag fl = (if c =? chr "n" then 1 else 0)
  | None =>
      Mv.force_flag fl = 0 /\ Mv.interactive_flag fl = 0 /\ Mv.no_clobber_flag fl = 0
  end.
Proof.
  intros H. apply parse_options_choice in H. unfold choice in H.
  destruct (last_choice (map Mv.code_of rs)) as [c |] eqn:Hl.
  - apply last_choice_is_one in Hl. unfold flags_for in H.
    destruct Hl as [-> | [-> | ->]];
      [ change (flags_for (chr "f")) with (1, 0, 0) in H
      | change (flags_for (chr "i")) with (0, 1, 0) in H
      | change (flags_for (chr "n")) with (0, 0, 1) in H ];
      injection H as H1 H2 H3; rewrite H1, H2, H3; vm_compute; intuition congruence.
  - change (Mv.force_flag Mv.initial_flags) with 0 in H.
    change (Mv.interactive_flag Mv.initial_flags) with 0 in H.
    change (Mv.no_clobber_flag Mv.initial_flags) with 0 in H.
    injection H as H1 H2 H3. rewrite H1, H2, H3. intuition lia.
Qed.

Lemma mv_exclusive_flags_witness :
  let rs := fst (getopt_long ["mv"; "-f"; "-iv"; "--no-clobber"; "a"; "--inter"; "b"]
                   "finv" Mv.long_options) in
  let fl := {| Mv.force_flag := 0; Mv.interactive_flag := 1; Mv.verbose_flag := 1;
               Mv.no_clobber_flag := 0 |} in
  Mv.parse_options "mv" rs Mv.initial_flags (Scenarios.plain "")
    = (Scenarios.plain "", Return fl) /\
  last_choice (map Mv.code_of rs) = Some (chr "i") /\
  Mv.force_flag fl + Mv.interactive_flag fl + Mv.no_clobber_flag fl <= 1.
Proof.
  intros rs fl.
  assert (H : Mv.parse_options "mv" rs Mv.initial_flags (Scenarios.plain "")
              = (Scenarios.plain "", Return fl)) by (vm_compute; reflexivity).
  split; [exact H |]. split; [vm_compute; reflexivity |].
  exact (proj1 (proj2 (proj2 (proj2 (mv_exclusive_flags "mv" rs _ _ fl H))))).
Defined.
End MvOptions.

(** ** echo: the escape that stops the output *)

Section EchoEscapes.
Import Posix Libc Notions.

Lemma processEscapes_at_c post :
  Echo.processEscapes (escape_c +:+ post) = EmptyString.
Proof. destruct post; reflexivity. Qed.

Lemma processEscapes_two c e rest :
  Echo.processEscapes (String c (String e rest)) =
    if Ascii.eqb c Echo.backslash then
      match Echo.getEscapeSequence e with
      | Some replacement =>
          if Ascii.eqb e "c" then replacement
          else replacement +:+ Echo.processEscapes rest
      | None => String Echo.backslash (String e (Echo.processEscapes rest))
      end
    else String c (Echo.processEscapes (String e rest)).
Proof. reflexivity. Qed.

Lemma processEscapes_stop_bounded (n : nat) :
  forall pre post,
    (String.length pre <= n)%nat ->
    dangling pre = false ->
    Echo.processEscapes (pre +:+ escape_c +:+ post) = Echo.processEscapes pre.
Proof.
  induction n as [| n IH]; intros pre post Hlen Hd.
  - destruct pre; [apply processEscapes_at_c | simpl in Hlen; lia].
  - destruct pre as [| c [| e rest]].
    + apply processEscapes_at_c.
    + cbn [dangling] in Hd.
      change (String c "" +:+ escape_c +:+ post)
        with (String c (String Echo.backslash (String "c" post))).
      rewrite processEscapes_two, Hd.
      change (String Echo.backslash (String "c" post)) with (escape_c +:+ post).
      rewrite processEscapes_at_c. reflexivity.
    + cbn [dangling] in Hd.
      change (String c (String e rest) +:+ escape_c +:+ post)
        with (String c (String e (rest +:+ escape_c +:+ post))).
      rewrite !processEscapes_two.
      destruct (Ascii.eqb c Echo.backslash).
      * destruct (Ascii.eqb_spec e "c") as [-> | Hne]; [reflexivity |].
        assert (Hrest : Echo.processEscapes (rest +:+ escape_c +:+ post)
                        = Echo.processEscapes rest)
          by (apply IH; [simpl in Hlen; lia | assumption]).
        rewrite Hrest. reflexivity.
      * change (String e (rest +:+ escape_c +:+ post))
          with (String e rest +:+ escape_c +:+ post).
        rewrite (IH (String e rest)); [reflexivity | simpl in *; lia | assumption].
Qed.

Lemma processEscapes_stop pre post :
  dangling pre = false ->
  Echo.processEscapes (pre +:+ escape_c +:+ post) = Echo.processEscapes pre.
Proof. apply (processEscapes_stop_bounded (String.length pre)). lia. Qed.

Lemma print_arguments_following options args :
  Echo.interpret_escapes options = true ->
  Echo.print_arguments options false args = following args.
Proof.
  intros He. induction args as [| a rest IH]; [reflexivity |].
  cbn [Echo.print_arguments following]. rewrite He, IH. reflexivity.
Qed.

Lemma print_arguments_app options first before arg after :
  Echo.interpret_escapes options = true ->
  Echo.print_arguments options first (before ++ arg :: after) =
  Echo.print_arguments options first before
    +:+ (if first && is_nil before then "" else " ")
    +:+ Echo.processEscapes arg +:+ following after.
Proof.
  intros He. revert first.
  induction before as [| b rest IH]; intros first.
  - cbn [app Echo.print_arguments is_nil]. rewrite He, print_arguments_following by assumption.
    destruct first; reflexivity.
  - cbn [app Echo.print_arguments]. rewrite IH.
    cbn [andb is_nil]. rewrite andb_false_r, !append_assoc. reflexivity.
Qed.

Lemma parse_options_consumed args :
  forall options options' operands,
    Echo.parse_options args options = (options', operands) ->
    exists opts,
      args = opts ++ operands /\
      Echo.newline options' = Echo.newline options && negb (existsb (String.eqb "-n") opts).
Proof.
  induction args as [| arg rest IH]; intros options options' operands H.
  - injection H as <- <-. exists []. rewrite andb_true_r. auto.
  - cbn [Echo.parse_options] in H.
    destruct (negb (String.prefix "-" arg)).
    { injection H as <- <-. exists []. rewrite andb_true_r. auto. }
    destruct (String.eqb arg "-n") eqn:Hn.
    { apply String.eqb_eq in Hn as ->. apply IH in H as (opts & -> & ->).
      exists ("-n" :: opts). split; [reflexivity |]. cbn. rewrite andb_false_r. reflexivity. }
    assert (Hn' : String.eqb "-n" arg = false) by (rewrite String.eqb_sym; exact Hn).
    destruct (String.eqb arg "-e").
    { apply IH in H as (opts & -> & ->). exists (arg :: opts).
      split; [reflexivity |]. cbn [existsb Echo.newline]. rewrite Hn'. reflexivity. }
    destruct (String.eqb arg "-E").
    { apply IH in H as (opts & -> & ->). exists (arg :: opts).
      split; [reflexivity |]. cbn [existsb Echo.newline]. rewrite Hn'. reflexivity. }
    destruct (String.eqb arg "--help").
    { apply IH in H as (opts & -> & ->). exists (arg :: opts).
      split; [reflexivity |]. cbn [existsb Echo.newline]. rewrite Hn'. reflexivity. }
    destruct (String.eqb arg "--version").
    { apply IH in H as (opts & -> & ->). exists (arg :: opts).
      split; [reflexivity |]. cbn [existsb Echo.newline]. rewrite Hn'. reflexivity. }
    injection H as <- <-. exists []. rewrite andb_true_r. auto.
Qed.

(** C10. In echo with -e, a \c escape in an argument cuts only what is
    left of that argument: the arguments after it are still written, each
    behind a space, and the newline is still written at the end unless -n
    was among the options. *)
Theorem echo_stop_escape args options before pre post after :
  Echo.parse_options (List.tl args) Echo.default_options
    = (options, before ++ (pre +:+ escape_c +:+ post) :: after) ->
  Echo.interpret_escapes options = true ->
  Echo.help options = false ->
  Echo.version options = false ->
  dangling pre = false ->
  fst (Echo.main args) =
    Echo.print_arguments options true before
      +:+ (if is_nil before then "" else " ")
      +:+ Echo.processEscapes pre
      +:+ following after
      +:+ (if Echo.newline options then nl else "")
  /\ exists opts,
       List.tl args = opts ++ before ++ (pre +:+ escape_c +:+ post) :: after /\
       Echo.newline options = negb (existsb (String.eqb "-n") opts).
Proof.
  intros Hp He Hh Hv Hd. split.
  - unfold Echo.main. rewrite Hp, Hh, Hv. cbn [fst].
    rewrite print_arguments_app by assumption.
    rewrite processEscapes_stop by assumption.
    cbn [andb]. rewrite !append_assoc. reflexivity.
  - apply parse_options_consumed in Hp as (opts & Ht & Hn).
    exists opts. split; [exact Ht |]. rewrite Hn. reflexivity.
Qed.

Lemma echo_stop_escape_witness :
  let args := ["echo"; "-e"; "one"; "tw" +:+ escape_c +:+ "o"; "three"] in
  let options := {| Echo.interpret_escapes := true; Echo.newline := true;
                    Echo.help := false; Echo.version := false |} in
  Echo.parse_options (List.tl args) Echo.default_options
    = (options, ["one"] ++ ("tw" +:+ escape_c +:+ "o") :: ["three"]) /\
  dangling "tw" = false /\
  fst (Echo.main args) = "one tw three" +:+ nl.
Proof.
  intros args options.
  split; [reflexivity |]. split; [reflexivity |].
  exact (proj1 (echo_stop_escape args options ["one"] "tw" "o" ["three"]
                  eq_refl eq_refl eq_refl eq_refl eq_refl)).
Defined.
End EchoEscapes.

(** ** cp and mv: several sources need a directory *)

Section Preconditions.
Import Posix Libc Getopt Notions.

Lemma mv_option_case_bad prog fl w :
  exists w' s, Mv.option_case prog (chr "?") fl w = (w', Exit s).
Proof. unfold Mv.option_case. cbn. eauto. Qed.

Lemma mv_option_case_world prog c fl w w' fl' :
  Mv.option_case prog c fl w = (w', Return fl') -> w' = w.
Proof.
  unfold Mv.option_case.
  repeat (match goal with |- context [if ?b then _ else _] => destruct b end;
          [intros [= <- _]; reflexivity |]).
  simpl. discriminate.
Qed.

Lemma mv_parse_options_world prog rs :
  forall fl w w' fl', Mv.parse_options prog rs fl w = (w', Return fl') -> w' = w.
Proof.
  induction rs as [| r rest IH]; intros fl w w' fl' H.
  - injection H as <- _. reflexivity.
  - cbn [Mv.parse_options] in H.
    destruct r as [c | var val | msg].
    + destruct (Mv.option_case prog _ fl w) as [w1 [fl1 | s]] eqn:Hc; [| discriminate].
      apply mv_option_case_world in Hc as ->. eauto.
    + destruct (Mv.option_case prog _ fl w) as [w1 [fl1 | s]] eqn:Hc; [| discriminate].
      apply mv_option_case_world in Hc as ->. eauto.
    + destruct (mv_option_case_bad prog fl (eprintf msg w)) as (w1 & s & Hc).
      cbn [Mv.code_of] in H. rewrite Hc in H. discriminate.
Qed.

Lemma cp_parse_letters_world prog opt :
  forall o w w' o', Cp.parse_letters prog opt o w = (w', Return o') -> w' = w.
Proof.
  induction opt as [| c rest IH]; intros o w w' o' H.
  - injection H as <- _. reflexivity.
  - cbn [Cp.parse_letters] in H.
    repeat (match type of H with
            | context [if ?b then _ else _] => destruct b; [eauto |]
            end).
    discriminate.
Qed.

Lemma cp_parse_arguments_world prog args :
  forall o w w' r, Cp.parse_arguments prog args o w = (w', Return r) -> w' = w.
Proof.
  induction args as [| a rest IH]; intros o w w' r H.
  - injection H as <- _. reflexivity.
  - cbn [Cp.parse_arguments] in H.
    destruct (String.prefix "-" a); [| injection H as <- _; reflexivity].
    destruct (String.eqb a "--help"); [discriminate |].
    destruct (Cp.parse_letters prog _ o w) as [w1 [o1 | s]] eqn:Hl; [| discriminate].
    apply cp_parse_letters_world in Hl as ->. eauto.
Qed.

Lemma stat_not_directory w dest :
  existing_directory w dest = false ->
  exists w1,
    w_fs w1 = w_fs w /\ w_trace w1 = w_trace w /\ w_stderr w1 = w_stderr w /\
    w_stdout w1 = w_stdout w /\
    ((exists s, stat dest w = (w1, Some s) /\ S_ISDIR (st_mode s) = false)
     \/ stat dest w = (w1, None)).
Proof.
  unfold existing_directory, stat. intros H.
  destruct (fs_stat (w_fs w) true dest) as [e | s].
  - exists (set_errno e w). repeat split; auto.
  - exists w. repeat split; eauto.
Qed.

(** C5. When cp or mv is given more than one source and the last operand
    is not an existing directory, the invocation ends with a failure
    status right after the diagnostic that the target is not a directory:
    no file system call that changes anything was made, and the file
    system is as it was. *)
Theorem many_sources_need_a_directory u fuel argv w operands sources dest :
  operands_of u argv w = Some operands ->
  split_last operands = Some (sources, dest) ->
  (1 < length sources)%nat ->
  existing_directory w dest = false ->
  exists w',
    run u fuel argv w = Some (w', EXIT_FAILURE) /\
    w_fs w' = w_fs w /\
    w_trace w' = w_trace w /\
    w_stdout w' = w_stdout w /\
    w_stderr w' = w_stderr w ++ [not_a_directory u dest].
Proof.
  intros Hops Hsl Hlen Hdir.
  assert (Hcount : (2 <? Z.of_nat (length operands)) = true).
  { apply Z.ltb_lt. rewrite (split_last_app _ _ _ Hsl), length_app. cbn [length]. lia. }
  destruct sources as [| s1 [| s2 ss]]; [simpl in Hlen; lia | simpl in Hlen; lia |].
  destruct (stat_not_directory w dest Hdir) as (w1 & Hfs & Htr & Herr & Hout & Hst).
  destruct u; cbn [run operands_of not_a_directory] in *.
  - unfold Cp.main.
    destruct (Cp.parse_arguments _ _ _ w) as [w0 [[o ops] | s]] eqn:Hp; [| discriminate].
    injection Hops as ->. apply cp_parse_arguments_world in Hp as ->.
    rewrite Hsl, Hcount.
    destruct (Cp.no_target_dir o =? 0).
    + destruct Hst as [(s & -> & Hs) | ->]; [rewrite Hs |];
        eexists; (split; [reflexivity |]); cbn; rewrite Hfs, Htr, Herr, Hout; auto.
    + eexists; split; [reflexivity |]; cbn; auto.
  - unfold Mv.main.
    destruct (getopt_long argv "finv" Mv.long_options) as [rs ops].
    destruct (Mv.parse_options _ rs _ w) as [w0 [fl | s]] eqn:Hp; [| discriminate].
    injection Hops as ->. apply mv_parse_options_world in Hp as ->.
    rewrite Hsl, Hcount.
    destruct Hst as [(s & -> & Hs) | ->]; [rewrite Hs |];
      eexists; (split; [reflexivity |]); cbn; rewrite Hfs, Htr, Herr, Hout; auto.
Qed.

Lemma many_sources_need_a_directory_witness :
  let w := Scenarios.plain "" in
  let argv := ["tool"; "-v"; "a"; "b"; "c"] in
  existing_directory w "c" = false /\
  (operands_of CP argv w = Some ["a"; "b"; "c"] /\
   exists w',
     Cp.main 5 argv w = Some (w', EXIT_FAILURE) /\
     w_fs w' = w_fs w /\
     w_trace w' = w_trace w /\
     w_stdout w' = w_stdout w /\
     w_stderr w' = w_stderr w ++ [not_a_directory CP "c"]) /\
  (operands_of MV argv w = Some ["a"; "b"; "c"] /\
   exists w',
     Mv.main 5 argv w = Ends (w', EXIT_FAILURE) /\
     w_fs w' = w_fs w /\
     w_trace w' = w_trace w /\
     w_stdout w' = w_stdout w /\
     w_stderr w' = w_stderr w ++ [not_a_directory MV "c"]).
Proof.
  intros w argv.
  assert (Hdir : existing_directory w "c" = false) by (vm_compute; reflexivity).
  assert (Hcp : operands_of CP argv w = Some ["a"; "b"; "c"]) by (vm_compute; reflexivity).
  assert (Hmv : operands_of MV argv w = Some ["a"; "b"; "c"]) by (vm_compute; reflexivity).
  split; [exact Hdir |]. split; (split; [assumption |]).
  - exact (many_sources_need_a_directory CP 5 argv w ["a"; "b"; "c"] ["a"; "b"] "c"
             Hcp eq_refl ltac:(simpl; lia) Hdir).
  - destruct (many_sources_need_a_directory MV 5 argv w ["a"; "b"; "c"] ["a"; "b"] "c"
                Hmv eq_refl ltac:(simpl; lia) Hdir) as (w' & Hrun & Hrest).
    exists w'. split; [| exact Hrest].
    cbn [run] in Hrun. destruct (Mv.main 5 argv w) as [r | |]; [| discriminate | discriminate].
    injection Hrun as ->. reflexivity.
Defined.
End Preconditions.

(** ** mv: a file is not moved onto itself *)

Section SameFile.
Import Posix Libc Getopt Notions.

(** C6 (the code departs from it). When the source and the destination mv
    computes for it name the same file (equal device and inode numbers of
    an existing source and an existing destination), and mv frees nothing
    or the block strdup gave it, mv writes the same-file diagnostic for
    the pair, changes nothing in the file system, and goes on with the
    next source. With a directory as the target and a source that has a
    directory part, mv hands to free a pointer into the middle of the
    block, before it compares the files: what it then does is undefined,
    for this source and for those that follow. *)
Theorem mv_refuses_same_file fuel fl dest dest_is_dir source rest w s d :
  fs_stat (w_fs w) true source = Ok s ->
  fs_stat (w_fs w) true (final_dest dest dest_is_dir source) = Ok d ->
  st_dev s = st_dev d ->
  st_ino s = st_ino d ->
  if frees_its_block dest_is_dir source then
    exists w',
      Mv.process_source fuel fl dest dest_is_dir source w = Ends w' /\
      w_fs w' = w_fs w /\
      w_trace w' = w_trace w /\
      w_stderr w' = w_stderr w ++ [same_file source (final_dest dest dest_is_dir source)] /\
      w_stdout w' = w_stdout w /\
      w_stdin w' = w_stdin w /\
      Mv.process_sources fuel fl dest dest_is_dir (source :: rest) w
        = Mv.process_sources fuel fl dest dest_is_dir rest w'
  else
    Mv.process_source fuel fl dest dest_is_dir source w = Undefined /\
    Mv.process_sources fuel fl dest dest_is_dir (source :: rest) w = Undefined.
Proof.
  intros Hs Hd Hdev Hino. unfold frees_its_block.
  destruct (negb dest_is_dir || may_free (basename_pointer source)) eqn:Hfree.
  - exists (eprintf (same_file source (final_dest dest dest_is_dir source)) w).
    assert (Hstep : Mv.process_source fuel fl dest dest_is_dir source w
                    = Ends (eprintf (same_file source (final_dest dest dest_is_dir source)) w)).
    { unfold Mv.process_source. rewrite (access_exists _ _ _ Hs). cbn [negb Z.eqb].
      fold (final_dest dest dest_is_dir source).
      assert (Hgo : dest_is_dir && negb (may_free (basename_pointer source)) = false)
        by (destruct dest_is_dir, (may_free (basename_pointer source)); auto).
      rewrite Hgo.
      unfold Mv.check_same_file. rewrite (stat_ok _ _ _ Hs), (stat_ok _ _ _ Hd).
      rewrite Hdev, Hino, !Z.eqb_refl. reflexivity. }
    repeat split; try reflexivity; try exact Hstep.
    cbn [Mv.process_sources]. rewrite Hstep. reflexivity.
  - assert (Hstep : Mv.process_source fuel fl dest dest_is_dir source w = Undefined).
    { unfold Mv.process_source. rewrite (access_exists _ _ _ Hs). cbn [negb Z.eqb].
      assert (Hgo : dest_is_dir && negb (may_free (basename_pointer source)) = true)
        by (destruct dest_is_dir, (may_free (basename_pointer source)); auto).
      rewrite Hgo. reflexivity. }
    split; [exact Hstep |]. cbn [Mv.process_sources]. rewrite Hstep. reflexivity.
Qed.

Lemma mv_refuses_same_file_witness :
  let w := Scenarios.plain "" in
  (exists s, fs_stat (w_fs w) true "a" = Ok s /\
             fs_stat (w_fs w) true (final_dest "./a" false "a") = Ok s) /\
  (exists w',
     Mv.process_source 5 Mv.initial_flags "./a" false "a" w = Ends w' /\
     w_fs w' = w_fs w /\
     w_stderr w' = [same_file "a" "./a"]) /\
  (exists s, fs_stat (w_fs w) true "./a" = Ok s /\
             fs_stat (w_fs w) true (final_dest "." true "./a") = Ok s) /\
  Mv.process_source 5 Mv.initial_flags "." true "./a" w = Undefined /\
  Mv.main 5 ["mv"; "./a"; "."] w = Undefined.
Proof.
  intros w.
  assert (Hs : fs_stat (w_fs w) true "a" = Ok (stat_of (0, 3) (Scenarios.file 420 "aa")))
    by (vm_compute; reflexivity).
  assert (Hd : fs_stat (w_fs w) true (final_dest "./a" false "a")
               = Ok (stat_of (0, 3) (Scenarios.file 420 "aa")))
    by (vm_compute; reflexivity).
  assert (Hs' : fs_stat (w_fs w) true "./a" = Ok (stat_of (0, 3) (Scenarios.file 420 "aa")))
    by (vm_compute; reflexivity).
  assert (Hd' : fs_stat (w_fs w) true (final_dest "." true "./a")
                = Ok (stat_of (0, 3) (Scenarios.file 420 "aa")))
    by (vm_compute; reflexivity).
  split; [eauto |]. split.
  - destruct (mv_refuses_same_file 5 Mv.initial_flags "./a" false "a" [] w _ _
                Hs Hd eq_refl eq_refl) as (w' & H1 & H2 & _ & H3 & _).
    exists w'. auto.
  - split; [eauto |]. split.
    + exact (proj1 (mv_refuses_same_file 5 Mv.initial_flags "." true "./a" [] w _ _
                      Hs' Hd' eq_refl eq_refl)).
    + vm_compute. reflexivity.
Defined.
End SameFile.

(** ** rm: a directory needs the recursive option *)

Section RmDirectory.
Import Posix Libc Getopt Notions.

Lemma process_argument_status fuel options path exit_status w w' s :
  Rm.process_argument fuel options path exit_status w = Some (w', s) ->
  s = EXIT_FAILURE \/ s = exit_status.
Proof.
  unfold Rm.process_argument.
  destruct (lstat path w) as [w1 [st |]].
  - destruct (_ && String.eqb path "/"); [intros [= _ <-]; auto |].
    destruct (S_ISDIR (st_mode st)).
    + destruct (Rm.recursive options =? 0); [intros [= _ <-]; auto |].
      destruct (Rm.remove_directory_recursive _ _ _ _) as [[w2 r] |]; [| discriminate].
      intros [= _ <-]. destruct (negb (r =? 0)); auto.
    + destruct (Rm.remove_file _ _ _ _) as [[w2 r] |]; [| discriminate].
      intros [= _ <-]. destruct (negb (r =? 0)); auto.
  - destruct (Rm.force options =? 0); intros [= _ <-]; auto.
Qed.

Lemma process_arguments_failed fuel options paths :
  forall w w' s,
    Rm.process_arguments fuel options paths EXIT_FAILURE w = Some (w', s) ->
    s = EXIT_FAILURE.
Proof.
  induction paths as [| p rest IH]; intros w w' s H.
  - injection H as _ <-. reflexivity.
  - cbn [Rm.process_arguments] in H.
    destruct (Rm.process_argument fuel options p EXIT_FAILURE w) as [[w1 s1] |] eqn:Hp;
      [| discriminate].
    apply process_argument_status in Hp as [-> | ->]; eauto.
Qed.

(** C7 (as amended). When rm is given a directory without the recursive
    option, and the path is not the root directory protected by
    --preserve-root, rm writes the Is-a-directory diagnostic, sets its exit
    status to failure, which it then keeps to the end, and leaves the file
    system as it was. *)
Theorem rm_directory_needs_recursive fuel options path rest exit_status w st :
  fs_stat (w_fs w) false path = Ok st ->
  S_ISDIR (st_mode st) = true ->
  Rm.recursive options = 0 ->
  root_guarded options path = false ->
  exists w',
    Rm.process_argument fuel options path exit_status w = Some (w', EXIT_FAILURE) /\
    w_fs w' = w_fs w /\
    w_trace w' = w_trace w /\
    w_stderr w' = w_stderr w ++ [is_a_directory path] /\
    Rm.process_arguments fuel options (path :: rest) exit_status w
      = Rm.process_arguments fuel options rest EXIT_FAILURE w' /\
    forall w'' s,
      Rm.process_arguments fuel options (path :: rest) exit_status w = Some (w'', s) ->
      s = EXIT_FAILURE.
Proof.
  intros Hst Hdir Hrec Hroot.
  exists (eprintf (is_a_directory path) w).
  assert (Hstep : Rm.process_argument fuel options path exit_status w
                  = Some (eprintf (is_a_directory path) w, EXIT_FAILURE)).
  { unfold Rm.process_argument. rewrite (lstat_ok _ _ _ Hst).
    fold (root_guarded options path). rewrite Hroot, Hdir, Hrec. reflexivity. }
  assert (Hgo : Rm.process_arguments fuel options (path :: rest) exit_status w
                = Rm.process_arguments fuel options rest EXIT_FAILURE
                    (eprintf (is_a_directory path) w)).
  { cbn [Rm.process_arguments]. rewrite Hstep. reflexivity. }
  repeat split; try reflexivity; try assumption.
  intros w'' s. rewrite Hgo. apply process_arguments_failed.
Qed.

Lemma rm_directory_needs_recursive_witness :
  let w := Scenarios.plain "" in
  (exists st, fs_stat (w_fs w) false "d" = Ok st /\ S_ISDIR (st_mode st) = true) /\
  root_guarded Rm.initial_options "d" = false /\
  exists w',
    Rm.process_argument 5 Rm.initial_options "d" EXIT_SUCCESS w = Some (w', EXIT_FAILURE) /\
    w_fs w' = w_fs w /\
    w_stderr w' = [is_a_directory "d"].
Proof.
  intros w.
  assert (Hst : fs_stat (w_fs w) false "d"
                = Ok (stat_of (0, 6) (Scenarios.dir 493 (0, 6) (0, 2) [])))
    by (vm_compute; reflexivity).
  split; [eexists; split; [exact Hst | reflexivity] |].
  split; [reflexivity |].
  destruct (rm_directory_needs_recursive 5 Rm.initial_options "d" [] EXIT_SUCCESS w _
              Hst eq_refl eq_refl eq_refl) as (w' & H1 & H2 & _ & H3 & _).
  exists w'. auto.
Defined.

(** C7, as stated, fails on the root directory: rm / (without -r, with the
    default root protection) is given a directory, yet the diagnostic is
    the refusal to remove the root directory, not Is a directory. *)
Lemma rm_root_is_refused_differently :
  let w := Scenarios.plain "" in
  (exists st, fs_stat (w_fs w) false "/" = Ok st /\ S_ISDIR (st_mode st) = true) /\
  Rm.recursive Rm.initial_options = 0 /\
  exists w',
    Rm.main 5 ["rm"; "/"] w = Some (w', EXIT_FAILURE) /\
    w_stderr w' = ["rm: refusing to remove root directory '/'" +:+ nl] /\
    ~ In (is_a_directory "/") (w_stderr w').
Proof.
  intros w. split; [eexists; split; vm_compute; reflexivity |].
  split; [reflexivity |].
  eexists. split; [vm_compute; reflexivity |].
  split; [reflexivity |].
  cbn [w_stderr]. intros [H | []]. vm_compute in H. discriminate.
Qed.
End RmDirectory.

(** ** mv: the exit status *)

Section ExitStatus.
Import Posix Libc Getopt Notions.

Lemma stat_existing_directory w dest :
  existing_directory w dest = true ->
  exists s, stat dest w = (w, Some s) /\ S_ISDIR (st_mode s) = true.
Proof.
  unfold existing_directory, stat.
  destruct (fs_stat (w_fs w) true dest) as [e | s]; [discriminate |]. eauto.
Qed.

(** C1 (the code departs from it). Once mv has its operands and starts on
    the sources, its exit status is EXIT_SUCCESS whatever happens to them:
    a source that cannot be moved gets its diagnostic, but the failure
    does not reach the exit status. *)
Theorem mv_exit_status_ignores_failures fuel argv w rs operands fl sources dest w' status :
  getopt_long argv "finv" Mv.long_options = (rs, operands) ->
  Mv.parse_options (List.hd "" argv) rs Mv.initial_flags w = (w, Return fl) ->
  split_last operands = Some (sources, dest) ->
  length sources = 1%nat \/ (sources <> [] /\ existing_directory w dest = true) ->
  Mv.main fuel argv w = Ends (w', status) ->
  status = EXIT_SUCCESS.
Proof.
  intros Hg Hp Hsl Hok. unfold Mv.main. rewrite Hg, Hp, Hsl.
  assert (Hlen : length operands = S (length sources)).
  { rewrite (split_last_app _ _ _ Hsl), length_app. cbn [length]. lia. }
  destruct sources as [| s1 ss]; [destruct Hok as [Hok | [Hok _]]; [discriminate | congruence] |].
  destruct (stat dest w) as [w1 st] eqn:Hst.
  set (dest_is_dir := match st with Some s => S_ISDIR (st_mode s) | None => false end).
  assert (Hgo : (2 <? Z.of_nat (length operands)) && negb dest_is_dir = false).
  { destruct Hok as [Hone | [_ Hdir]].
    - rewrite Hlen, Hone. reflexivity.
    - apply stat_existing_directory in Hdir as (s & Hs & Hd).
      rewrite Hs in Hst. injection Hst as <- <-. subst dest_is_dir. cbn. rewrite Hd.
      apply andb_false_r. }
  rewrite Hgo.
  destruct (Mv.process_sources fuel fl dest dest_is_dir (s1 :: ss) w1);
    [| discriminate | discriminate].
  intros [= _ <-]. reflexivity.
Qed.

Lemma mv_exit_status_ignores_failures_witness :
  let w := Scenarios.blocked_move in
  exists w' status,
    Mv.main 5 ["mv"; "f"; "d"] w = Ends (w', status) /\
    w_stderr w' = [ "mv: rename failed: Is a directory" +:+ nl;
                    "mv: failed to move 'f' to 'd/f'" +:+ nl ] /\
    Scenarios.cat w' "f" = Some "hello" /\
    Scenarios.exists_path w' "d/f/f" = false /\
    status = EXIT_SUCCESS.
Proof.
  intros w.
  destruct (Mv.main 5 ["mv"; "f"; "d"] w) as [[w' status] | |] eqn:Hm;
    [| vm_compute in Hm; discriminate | vm_compute in Hm; discriminate].
  exists w', status. split; [reflexivity |].
  assert (Hw : w_stderr w' = [ "mv: rename failed: Is a directory" +:+ nl;
                               "mv: failed to move 'f' to 'd/f'" +:+ nl ]
               /\ Scenarios.cat w' "f" = Some "hello"
               /\ Scenarios.exists_path w' "d/f/f" = false).
  { vm_compute in Hm. injection Hm as <- _. repeat split; vm_compute; reflexivity. }
  destruct Hw as (H1 & H2 & H3). repeat (split; [assumption |]).
  exact (mv_exit_status_ignores_failures 5 ["mv"; "f"; "d"] w [] ["f"; "d"]
           Mv.initial_flags ["f"] "d" w' status
           eq_refl eq_refl eq_refl (or_introl eq_refl) Hm).
Defined.
End ExitStatus.

(** ** cp: the overwrite prompt *)

Section Prompts.
Import Posix Libc Getopt Notions.

Lemma chr_newline c : chr c = chr newline -> c = newline.
Proof.
  unfold chr. intros H. apply N2Z.inj in H.
  rewrite <- (ascii_N_embedding c), H. reflexivity.
Qed.

Lemma getchar_keeps_no_newline w :
  mem_char newline (w_stdin w) = false ->
  mem_char newline (w_stdin (fst (getchar w))) = false /\
  (snd (getchar w) =? chr newline) = false.
Proof.
  unfold getchar. destruct (w_stdin w) as [| c r] eqn:Hin; cbn [mem_char].
  - intros _. cbn. rewrite Hin. auto.
  - intros H. apply orb_false_elim in H as [Hc Hr]. cbn. split; [exact Hr |].
    apply Z.eqb_neq. intros Heq. apply chr_newline in Heq. subst c.
    rewrite Ascii.eqb_refl in Hc. discriminate.
Qed.

Lemma clear_input_never_returns fuel :
  forall w, mem_char newline (w_stdin w) = false -> Cp.clear_input fuel w = None.
Proof.
  induction fuel as [| fuel IH]; intros w H; [reflexivity |].
  cbn [Cp.clear_input].
  destruct (getchar_keeps_no_newline w H) as [Hin Hc].
  destruct (getchar w) as [w1 c]. cbn [fst snd] in *. rewrite Hc. auto.
Qed.

Lemma check_destination_never_returns fuel src dst options w t :
  fs_stat (w_fs w) true dst = Ok t ->
  Cp.interactive options <> 0 ->
  mem_char newline (w_stdin w) = false ->
  Cp.check_destination fuel src dst options w = None.
Proof.
  intros Ht Hi Hin. unfold Cp.check_destination.
  rewrite (access_exists _ _ _ Ht). cbn [Z.eqb].
  apply Z.eqb_neq in Hi. rewrite Hi. cbn [negb].
  set (w0 := printf _ w).
  assert (H0 : mem_char newline (w_stdin w0) = false) by exact Hin.
  destruct (getchar_keeps_no_newline w0 H0) as [H1 _].
  destruct (getchar w0) as [w1 c]. cbn [fst] in H1.
  rewrite (clear_input_never_returns fuel w1 H1). reflexivity.
Qed.

(** C8 (the code departs from it). At the overwrite prompt of cp, an input
    that holds no newline - in particular an input at its end - does not
    decline the operation: cp stays in the loop that skips the rest of the
    line and never returns, whatever the fuel. *)
Theorem cp_prompt_never_returns_without_newline fuel argv w options source target s t :
  Cp.parse_arguments (List.hd "" argv) (List.tl argv) Cp.initial_options w
    = (w, Return (options, [source; target])) ->
  Cp.interactive options <> 0 ->
  fs_stat (w_fs w) true source = Ok s ->
  S_ISDIR (st_mode s) = false ->
  fs_stat (w_fs w) true target = Ok t ->
  mem_char newline (w_stdin w) = false ->
  Cp.main fuel argv w = None.
Proof.
  intros Hp Hi Hs Hd Ht Hin. unfold Cp.main. rewrite Hp.
  cbn [split_last length Z.of_nat Z.ltb Z.compare Pos.of_succ_nat Pos.succ Pos.compare
       Pos.compare_cont List.hd].
  rewrite (stat_ok _ _ _ Hs), Hd.
  unfold Cp.copy_file. rewrite (stat_ok _ _ _ Hs).
  rewrite (check_destination_never_returns fuel source target options w t Ht Hi Hin).
  reflexivity.
Qed.

Lemma cp_prompt_never_returns_without_newline_witness :
  let w := Scenarios.plain "" in
  let options := {| Cp.recursive := 0; Cp.force := 0; Cp.interactive := 1; Cp.preserve := 0;
                    Cp.verbose := 0; Cp.no_target_dir := 0; Cp.update := 0 |} in
  Cp.parse_arguments "cp" ["-i"; "a"; "b"] Cp.initial_options w
    = (w, Return (options, ["a"; "b"])) /\
  w_stdin w = "" /\
  Scenarios.cat w "b" = Some "bb" /\
  Cp.main 1000 ["cp"; "-i"; "a"; "b"] w = None.
Proof.
  intros w options.
  split; [reflexivity |]. split; [reflexivity |]. split; [vm_compute; reflexivity |].
  apply (cp_prompt_never_returns_without_newline 1000 ["cp"; "-i"; "a"; "b"] w options
           "a" "b" (stat_of (0, 3) (Scenarios.file 420 "aa"))
           (stat_of (0, 4) (Scenarios.file 420 "bb"))).
  - reflexivity.
  - discriminate.
  - vm_compute; reflexivity.
  - reflexivity.
  - vm_compute; reflexivity.
  - reflexivity.
Defined.
End Prompts.

(** ** Path resolution after unlink *)

Section Unlink.
Import Posix Libc.

Lemma walk_nil links fs follow cur : walk links fs follow cur [] = Ok cur.
Proof. destruct links; reflexivity. Qed.

Lemma walk_cons links fs follow cur c rest :
  walk links fs follow cur (c :: rest) =
    match inodes fs !! cur with
    | Some {| i_meta := m; i_body := Dir es |} =>
        if negb (may fs m X_OK) then Err EACCES
        else
          match dir_find c es with
          | None => Err ENOENT
          | Some child =>
              match inodes fs !! child with
              | None => Err ENOENT
              | Some {| i_meta := _; i_body := Lnk target |} =>
                  if is_nil rest && negb follow then Ok child
                  else
                    match links with
                    | O => Err ELOOP
                    | S links' =>
                        walk links' fs follow
                          (if starts_with_slash target then root fs else cur)
                          (split_path target ++ rest)
                    end
              | Some _ => walk links fs follow child rest
              end
          end
    | Some _ => Err ENOTDIR
    | None => Err ENOENT
    end.
Proof. destruct links; reflexivity. Qed.

Lemma dir_find_removed name es : dir_find name (dir_remove name es) = None.
Proof.
  induction es as [| [n f] es IH]; [reflexivity |].
  cbn [dir_remove]. destruct (String.eqb n name) eqn:Hn; [exact IH |].
  cbn [dir_find]. rewrite Hn. exact IH.
Qed.

Lemma dir_find_remove_other name c es :
  c <> name -> dir_find c (dir_remove name es) = dir_find c es.
Proof.
  intros Hc. induction es as [| [n f] es IH]; [reflexivity |].
  cbn [dir_remove dir_find]. destruct (String.eqb n name) eqn:Hn.
  - apply String.eqb_eq in Hn. subst n.
    destruct (String.eqb_spec name c); [congruence | exact IH].
  - cbn [dir_find]. rewrite IH. reflexivity.
Qed.

Lemma may_put_dir fs d m es i bit :
  may (put_dir fs d m es) i bit = may fs i bit.
Proof. reflexivity. Qed.

Lemma may_touch fs m bit : may fs (touch fs m) bit = may fs m bit.
Proof. reflexivity. Qed.

Section Removed.
Variables (fs : filesys) (d : fid) (m : imeta) (es : list (string * fid)) (name : string).
Hypothesis Hd : inodes fs !! d = Some {| i_meta := m; i_body := Dir es |}.
Hypothesis Hx : may fs m X_OK = true.

Let fs' := put_dir fs d (touch fs m) (dir_remove name es).

Lemma walk_removed_here links follow :
  walk links fs' follow d [name] = Err ENOENT.
Proof.
  rewrite walk_cons. unfold fs' at 1, put_dir. cbn [inodes set_inodes].
  rewrite lookup_insert_eq.
  change (may fs' (touch fs m) X_OK) with (may fs m X_OK).
  rewrite Hx. cbn [negb]. rewrite dir_find_removed. reflexivity.
Qed.

Lemma walk_removed_aux links :
  (forall l, links = S l ->
     forall follow cur init,
       walk l fs true cur init = Ok d ->
       walk l fs' follow cur (init ++ [name]) = Err ENOENT) ->
  forall follow cur init,
    walk links fs true cur init = Ok d ->
    walk links fs' follow cur (init ++ [name]) = Err ENOENT.
Proof.
  intros IHl follow cur init. revert cur.
  induction init as [| c rest IHi]; intros cur H.
  - rewrite walk_nil in H. injection H as ->. apply walk_removed_here.
  - rewrite walk_cons in H. cbn [app]. rewrite walk_cons.
    assert (Hlink : forall child tc,
               (if is_nil rest && negb true then Ok child
                else match links with
                     | O => Err ELOOP
                     | S l =>
                         walk l fs true (if starts_with_slash tc then root fs else cur)
                           (split_path tc ++ rest)
                     end) = Ok d ->
               (if is_nil (rest ++ [name]) && negb follow then Ok child
                else match links with
                     | O => Err ELOOP
                     | S l =>
                         walk l fs' follow (if starts_with_slash tc then root fs' else cur)
                           (split_path tc ++ rest ++ [name])
                     end) = Err ENOENT).
    { intros child tc Hw. rewrite andb_false_r in Hw.
      assert (Hn : is_nil (rest ++ [name]) = false) by (destruct rest; reflexivity).
      rewrite Hn. cbn [andb]. destruct links as [| l]; [discriminate |].
      rewrite app_assoc. apply (IHl l eq_refl). exact Hw. }
    assert (Hchild : forall child,
               match inodes fs !! child with
               | Some {| i_meta := _; i_body := Lnk tc |} =>
                   if is_nil rest && negb true then Ok child
                   else match links with
                        | O => Err ELOOP
                        | S l =>
                            walk l fs true (if starts_with_slash tc then root fs else cur)
                              (split_path tc ++ rest)
                        end
               | Some _ => walk links fs true child rest
               | None => Err ENOENT
               end = Ok d ->
               match inodes fs' !! child with
               | Some {| i_meta := _; i_body := Lnk tc |} =>
                   if is_nil (rest ++ [name]) && negb follow then Ok child
                   else match links with
                        | O => Err ELOOP
                        | S l =>
                            walk l fs' follow (if starts_with_slash tc then root fs' else cur)
                              (split_path tc ++ rest ++ [name])
                        end
               | Some _ => walk links fs' follow child (rest ++ [name])
               | None => Err ENOENT
               end = Err ENOENT).
    { intros child Hc. unfold fs' at 1, put_dir. cbn [inodes set_inodes].
      destruct (decide (d = child)) as [<- | Hch].
      - rewrite lookup_insert_eq. rewrite Hd in Hc. apply IHi. exact Hc.
      - rewrite lookup_insert_ne by assumption.
        destruct (inodes fs !! child) as [[mc [dc | ec | tc]] |]; try discriminate.
        + apply IHi. exact Hc.
        + apply IHi. exact Hc.
        + apply Hlink. exact Hc. }
    unfold fs' at 1, put_dir. cbn [inodes set_inodes].
    destruct (decide (d = cur)) as [<- | Hne].
    + rewrite lookup_insert_eq. rewrite Hd in H.
      change (may fs' (touch fs m) X_OK) with (may fs m X_OK).
      rewrite Hx in *. cbn [negb] in *.
      destruct (String.eqb_spec c name) as [-> | Hc]; [rewrite dir_find_removed; reflexivity |].
      rewrite dir_find_remove_other by assumption.
      destruct (dir_find c es) as [child |]; [| discriminate].
      apply Hchild. exact H.
    + rewrite lookup_insert_ne by assumption.
      destruct (inodes fs !! cur) as [[mc [dc | ec | tc]] |]; try discriminate.
      change (may fs' mc X_OK) with (may fs mc X_OK).
      destruct (negb (may fs mc X_OK)); [discriminate |].
      destruct (dir_find c ec) as [child |]; [| discriminate].
      apply Hchild. exact H.
Qed.

Lemma walk_removed links :
  forall follow cur init,
    walk links fs true cur init = Ok d ->
    walk links fs' follow cur (init ++ [name]) = Err ENOENT.
Proof.
  induction links as [| links IHl]; apply walk_removed_aux.
  - intros l Hl. discriminate.
  - intros l [= <-]. exact IHl.
Qed.
End Removed.

Lemma get_dir_ok fs d m es :
  get_dir fs d = Ok (m, es) ->
  inodes fs !! d = Some {| i_meta := m; i_body := Dir es |} /\ may fs m X_OK = true.
Proof.
  unfold get_dir. destruct (inodes fs !! d) as [[m' [? | es' | ?]] |]; try discriminate.
  destruct (may fs m' X_OK) eqn:Hm; [| discriminate]. intros [= <- <-]. auto.
Qed.

(** After a successful unlink the name is gone. *)
Lemma fs_unlink_gone fs p fs' :
  fs_unlink fs p = Ok fs' -> fs_stat fs' false p = Err ENOENT.
Proof.
  unfold fs_unlink, lookup_parent, fs_stat, lookup_path.
  destruct (String.eqb p "") eqn:Hp; [discriminate |].
  destruct (PATH_MAX <=? strlen p) eqn:Hl; [discriminate |].
  destruct (split_last (split_path p)) as [[init name] |] eqn:Hsl; [| discriminate].
  destruct (walk MAXSYMLINKS fs true (start_dir fs p) init) as [e | d] eqn:Hw;
    [destruct (e =? EBUSY); discriminate |].
  destruct (get_dir fs d) as [e | [m es]] eqn:Hg; [discriminate |].
  apply get_dir_ok in Hg as [Hd Hx].
  destruct (dir_find name es) as [f |]; [| discriminate].
  destruct (ends_with_slash p && negb (is_dir_inode fs f)); [discriminate |].
  destruct (negb (may fs m W_OK)); [discriminate |].
  destruct (is_dir_inode fs f); [discriminate |].
  intros [= <-].
  rewrite (split_last_app _ _ _ Hsl).
  change (start_dir (put_dir fs d (touch fs m) (dir_remove name es)) p) with (start_dir fs p).
  rewrite (walk_removed fs d m es name Hd Hx MAXSYMLINKS _ _ _ Hw). reflexivity.
Qed.
End Unlink.

(** ** mv: the copy across devices *)

Section CrossDevice.
Import Posix Libc Getopt Notions.




Lemma unlink_effect p w :
  w_stderr (fst (unlink p w)) = w_stderr w /\
  w_stdout (fst (unlink p w)) = w_stdout w /\
  ((snd (unlink p w) = 0 /\
    w_trace (fst (unlink p w)) = w_trace w ++ [Unlinked p] /\
    fs_stat (w_fs (fst (unlink p w))) false p = Err ENOENT)
   \/ (snd (unlink p w) = -1 /\
       w_trace (fst (unlink p w)) = w_trace w /\
       w_fs (fst (unlink p w)) = w_fs w)).
Proof.
  unfold unlink, syscall. destruct (fs_unlink (w_fs w) p) as [e | fs] eqn:Hu; cbn.
  - auto 10.
  - apply fs_unlink_gone in Hu. auto 10.
Qed.












End CrossDevice.

(** ** cp: symlinks in a traversed directory *)

Section Symlinks.
Import Posix Libc Getopt Notions.

Lemma calm_refl w : calm w w.
Proof. split; [exists []; rewrite app_nil_r; auto | auto]. Qed.

Lemma calm_trans w1 w2 w3 : calm w1 w2 -> calm w2 w3 -> calm w1 w3.
Proof.
  intros [(e1 & T1 & F1) L1] [(e2 & T2 & F2) L2]. split.
  - exists (e1 ++ e2). rewrite T2, T1, app_assoc. split; [reflexivity |].
    apply Forall_app; auto.
  - auto.
Qed.

(** A step that leaves the trace and the file system as they are. *)
Lemma calm_same w w' : w_trace w' = w_trace w -> w_fs w' = w_fs w -> calm w w'.
Proof.
  intros Ht Hf. split.
  - exists []. rewrite app_nil_r. auto.
  - rewrite Hf. auto.
Qed.

Lemma calm_event w w' e :
  file_event e ->
  w_trace w' = w_trace w ++ [e] ->
  (forall f, is_link (w_fs w') f -> is_link (w_fs w) f) ->
  calm w w'.
Proof. intros He Ht Hl. split; [exists [e]; auto | exact Hl]. Qed.

Lemma release_inodes dev n fs : inodes (release dev n fs) = inodes fs.
Proof. unfold release. destruct (avail fs !! dev); reflexivity. Qed.

(** Storing an inode that is no symlink, or that has the body it had,
    adds no symlink. *)
Lemma link_after_insert (fs : filesys) (im : gmap fid inode) g i f :
  im = <[g := i]> (inodes fs) ->
  (forall t, i_body i = Lnk t -> exists i0, inodes fs !! g = Some i0 /\ i_body i0 = Lnk t) ->
  (exists m t, im !! f = Some {| i_meta := m; i_body := Lnk t |}) ->
  is_link fs f.
Proof.
  intros -> Hi (m & t & H).
  destruct (decide (g = f)) as [-> | Hne].
  - rewrite lookup_insert_eq in H. injection H as ->.
    destruct (Hi t eq_refl) as ([m0 b0] & H0 & Hb). cbn in Hb. subst b0.
    exists m0, t. exact H0.
  - rewrite lookup_insert_ne in H by assumption. exists m, t. exact H.
Qed.

Lemma fs_open_write_links fs p mode fs' g :
  fs_open_write fs p mode = Ok (fs', g) -> forall f, is_link fs' f -> is_link fs f.
Proof.
  unfold fs_open_write. intros H f Hl.
  destruct (lookup_path fs true p) as [e | f0].
  - destruct (negb (e =? ENOENT)); [discriminate |].
    destruct (lookup_parent fs p) as [? | [d name]]; [discriminate |].
    destruct (get_dir fs d) as [? | [m es]]; [discriminate |].
    destruct (dir_find name es); [discriminate |].
    destruct (ends_with_slash p); [discriminate |].
    destruct (negb (may fs m W_OK)); [discriminate |].
    destruct (is_Some_b _); [discriminate |].
    injection H as <- <-. unfold is_link in Hl.
    cbn [inodes bump_ino set_inodes put_dir] in Hl.
    assert (H1 : is_link (put_dir fs d (touch fs m) (es ++ [(name, (d.1, next_ino fs))])) f)
      by (eapply link_after_insert; [ | | exact Hl]; [reflexivity | intros ? Hb; cbn in Hb; discriminate Hb]).
    destruct H1 as (m' & t & H1). cbn [inodes set_inodes put_dir] in H1.
    eapply link_after_insert; [ | | exists m', t; exact H1]; [reflexivity | intros ? Hb; cbn in Hb; discriminate Hb].
  - destruct (inodes fs !! f0) as [[m [d | es | t]] |]; try discriminate.
    destruct (may fs m W_OK); [| discriminate].
    injection H as <- <-. unfold is_link in Hl. rewrite release_inodes in Hl.
    eapply link_after_insert; [ | | exact Hl]; [reflexivity | intros ? Hb; cbn in Hb; discriminate Hb].
Qed.

Lemma fs_write_links fs g pos buf fs' k :
  fs_write fs g pos buf = Ok (fs', k) -> forall f, is_link fs' f -> is_link fs f.
Proof.
  unfold fs_write. intros H f Hl.
  destruct (inodes fs !! g) as [[m [d | es | t]] |]; try discriminate.
  destruct (_ && _); [discriminate |].
  injection H as <- <-. unfold is_link in Hl. rewrite release_inodes in Hl.
  eapply link_after_insert; [ | | exact Hl]; [reflexivity | intros ? Hb; cbn in Hb; discriminate Hb].
Qed.

Lemma fs_futimens_links fs g a b fs' :
  fs_futimens fs g a b = Ok fs' -> forall f, is_link fs' f -> is_link fs f.
Proof.
  unfold fs_futimens. destruct (inodes fs !! g) as [i |] eqn:Hg; [| discriminate].
  intros [= <-] f Hl. eapply link_after_insert; [ | | exact Hl]; [reflexivity |].
  cbn. eauto.
Qed.

Lemma fs_fchown_links fs g a b fs' :
  fs_fchown fs g a b = Ok fs' -> forall f, is_link fs' f -> is_link fs f.
Proof.
  unfold fs_fchown. destruct (inodes fs !! g) as [i |] eqn:Hg; [| discriminate].
  destruct (_ || _); [| discriminate].
  intros [= <-] f Hl. eapply link_after_insert; [ | | exact Hl]; [reflexivity |].
  cbn. eauto.
Qed.

Lemma stat_calm p w : calm w (fst (stat p w)).
Proof. unfold stat. destruct (fs_stat _ _ _); apply calm_same; reflexivity. Qed.

Lemma access_calm p mode w : calm w (fst (access p mode w)).
Proof. unfold access. destruct (fs_access _ _ _); apply calm_same; reflexivity. Qed.

Lemma getchar_calm w : calm w (fst (getchar w)).
Proof. unfold getchar. destruct (w_stdin w); apply calm_same; reflexivity. Qed.

Lemma printf_calm s w : calm w (printf s w).
Proof. apply calm_same; reflexivity. Qed.

Lemma eprintf_calm s w : calm w (eprintf s w).
Proof. apply calm_same; reflexivity. Qed.

Lemma close_calm fd w : calm w (fst (close fd w)).
Proof. unfold close. destruct (w_fds w !! fd); apply calm_same; reflexivity. Qed.

Lemma read_calm fd n w : calm w (fst (read fd n w)).
Proof.
  unfold read. destruct (w_fds w !! fd) as [[f pos] |]; [| apply calm_same; reflexivity].
  destruct (fs_read _ _ _ _); apply calm_same; reflexivity.
Qed.

Lemma open_calm p flags mode w : calm w (fst (open p flags mode w)).
Proof.
  unfold open. destruct (flags =? O_RDONLY).
  - destruct (fs_open_read _ _); [apply calm_same; reflexivity |].
    eapply calm_event; [| reflexivity | auto]. exact I.
  - destruct (flags =? _); [| apply calm_same; reflexivity].
    destruct (fs_open_write (w_fs w) p mode) as [e | [fs f]] eqn:Ho;
      [apply calm_same; reflexivity |].
    eapply calm_event; [| reflexivity |]; [exact I |].
    cbn. eapply fs_open_write_links. exact Ho.
Qed.

Lemma write_calm fd buf n w : calm w (fst (write fd buf n w)).
Proof.
  unfold write. destruct (w_fds w !! fd) as [[f pos] |]; [| apply calm_same; reflexivity].
  destruct (fs_write (w_fs w) f pos _) as [e | [fs k]] eqn:Hw;
    [apply calm_same; reflexivity |].
  eapply calm_event; [| reflexivity |]; [exact I |].
  cbn. eapply fs_write_links. exact Hw.
Qed.

Lemma futimens_calm fd a b w : calm w (fst (futimens fd a b w)).
Proof.
  unfold futimens, syscall.
  destruct (w_fds w !! fd) as [[f pos] |]; [| apply calm_same; reflexivity].
  destruct (fs_futimens (w_fs w) f a b) as [e | fs] eqn:Hf;
    [apply calm_same; reflexivity |].
  eapply calm_event; [| reflexivity |]; [exact I |].
  cbn. eapply fs_futimens_links. exact Hf.
Qed.

Lemma fchown_calm fd a b w : calm w (fst (fchown fd a b w)).
Proof.
  unfold fchown, syscall.
  destruct (w_fds w !! fd) as [[f pos] |]; [| apply calm_same; reflexivity].
  destruct (fs_fchown (w_fs w) f a b) as [e | fs] eqn:Hf;
    [apply calm_same; reflexivity |].
  eapply calm_event; [| reflexivity |]; [exact I |].
  cbn. eapply fs_fchown_links. exact Hf.
Qed.

Lemma clear_input_calm fuel : forall w w', Cp.clear_input fuel w = Some w' -> calm w w'.
Proof.
  induction fuel as [| fuel IH]; intros w w' H; [discriminate |].
  cbn [Cp.clear_input] in H.
  pose proof (getchar_calm w) as Hg. destruct (getchar w) as [w1 c]. cbn [fst] in Hg.
  destruct (c =? chr newline).
  - injection H as <-. exact Hg.
  - eapply calm_trans; [exact Hg | eauto].
Qed.

Lemma check_update_condition_calm src dst w :
  calm w (fst (Cp.check_update_condition src dst w)).
Proof.
  unfold Cp.check_update_condition.
  pose proof (stat_calm src w) as H1. destruct (stat src w) as [w1 [s |]]; [| exact H1].
  pose proof (stat_calm dst w1) as H2. destruct (stat dst w1) as [w2 [d |]];
    cbn [fst] in *; eapply calm_trans; eassumption.
Qed.

Lemma check_destination_calm fuel src dst options w w' f :
  Cp.check_destination fuel src dst options w = Some (w', f) -> calm w w'.
Proof.
  unfold Cp.check_destination.
  pose proof (access_calm dst F_OK w) as Ha.
  destruct (access dst F_OK w) as [w1 e]. cbn [fst] in Ha.
  destruct (e =? 0); [| intros [= <- _]; exact Ha].
  destruct (negb (Cp.interactive options =? 0)).
  - pose proof (getchar_calm (printf ("overwrite " +:+ q dst +:+ "? (y/n [n]) ") w1)) as Hg.
    destruct (getchar _) as [w2 c]. cbn [fst] in Hg.
    destruct (Cp.clear_input fuel w2) as [w3 |] eqn:Hc; [| discriminate].
    apply clear_input_calm in Hc.
    assert (calm w w3).
    { eapply calm_trans; [exact Ha |]. eapply calm_trans; [apply printf_calm |].
      eapply calm_trans; eassumption. }
    destruct (_ && _); intros [= <- _]; assumption.
  - destruct (Cp.force options =? 0); [| intros [= <- _]; exact Ha].
    destruct (negb (Cp.update options =? 0)); [| intros [= <- _]; exact Ha].
    pose proof (check_update_condition_calm src dst w1) as Hu.
    destruct (Cp.check_update_condition src dst w1) as [w2 newer]. cbn [fst] in Hu.
    destruct (newer =? 0); intros [= <- _]; eapply calm_trans; eassumption.
Qed.

Lemma copy_contents_calm fuel dst src_fd dst_fd :
  forall w w' f, Cp.copy_contents fuel dst src_fd dst_fd w = Some (w', f) -> calm w w'.
Proof.
  induction fuel as [| fuel IH]; intros w w' f H; [discriminate |].
  cbn [Cp.copy_contents] in H.
  pose proof (read_calm src_fd Cp.BUFFER_SIZE w) as Hr.
  destruct (read src_fd Cp.BUFFER_SIZE w) as [w1 [bytes_read buffer]]. cbn [fst] in Hr.
  destruct (0 <? bytes_read); [| injection H as <- _; exact Hr].
  pose proof (write_calm dst_fd buffer bytes_read w1) as Hw.
  destruct (write dst_fd buffer bytes_read w1) as [w2 bytes_written]. cbn [fst] in Hw.
  destruct (negb (bytes_written =? bytes_read)).
  - set (w3 := eprintf _ w2) in H.
    pose proof (close_calm src_fd w3) as H1. destruct (close src_fd w3) as [w4 ?].
    pose proof (close_calm dst_fd w4) as H2. destruct (close dst_fd w4) as [w5 ?].
    cbn [fst] in *. injection H as <- _.
    eapply calm_trans; [exact Hr |]. eapply calm_trans; [exact Hw |].
    eapply calm_trans; [apply eprintf_calm |]. eapply calm_trans; eassumption.
  - eapply calm_trans; [exact Hr |]. eapply calm_trans; [exact Hw |]. eauto.
Qed.

Lemma copy_file_calm fuel src dst options w w' r :
  Cp.copy_file fuel src dst options w = Some (w', r) -> calm w w'.
Proof.
  unfold Cp.copy_file.
  pose proof (stat_calm src w) as Hs. destruct (stat src w) as [w1 [src_stat |]];
    cbn [fst] in Hs.
  2: { intros [= <- _]. eapply calm_trans; [exact Hs | apply eprintf_calm]. }
  destruct (Cp.check_destination fuel src dst options w1) as [[w2 f] |] eqn:Hc;
    [| discriminate].
  apply check_destination_calm in Hc.
  assert (H2 : calm w w2) by (eapply calm_trans; eassumption).
  destruct f as [[] | r0]; [| intros [= <- _]; exact H2].
  pose proof (open_calm src O_RDONLY 0 w2) as Ho.
  destruct (open src O_RDONLY 0 w2) as [w3 src_fd]. cbn [fst] in Ho.
  assert (H3 : calm w w3) by (eapply calm_trans; eassumption).
  destruct (src_fd =? -1).
  { intros [= <- _]. eapply calm_trans; [exact H3 | apply eprintf_calm]. }
  match goal with
  | |- context [open dst ?fl ?md w3] =>
      pose proof (open_calm dst fl md w3) as Hd;
      destruct (open dst fl md w3) as [w4 dst_fd]
  end.
  cbn [fst] in Hd.
  assert (H4 : calm w w4) by (eapply calm_trans; eassumption).
  destruct (dst_fd =? -1).
  { set (w5 := eprintf _ w4).
    pose proof (close_calm src_fd w5) as Hcl. destruct (close src_fd w5) as [w6 ?].
    cbn [fst] in Hcl. intros [= <- _].
    eapply calm_trans; [exact H4 |]. eapply calm_trans; [apply eprintf_calm | exact Hcl]. }
  destruct (Cp.copy_contents fuel dst src_fd dst_fd w4) as [[w5 f] |] eqn:Hcc;
    [| discriminate].
  apply copy_contents_calm in Hcc.
  assert (H5 : calm w w5) by (eapply calm_trans; eassumption).
  destruct f as [[] | r0]; [| intros [= <- _]; exact H5].
  match goal with
  | |- context [let (w, _) := close src_fd ?x in _] => set (w6 := x)
  end.
  assert (H6 : calm w5 w6).
  { subst w6. destruct (negb (Cp.preserve options =? 0)); [| apply calm_refl].
    pose proof (futimens_calm dst_fd (st_atime src_stat) (st_mtime src_stat) w5) as Hf.
    destruct (futimens dst_fd _ _ w5) as [w7 t]. cbn [fst] in Hf.
    set (w8 := if t =? -1 then _ else _).
    assert (H8 : calm w7 w8) by (subst w8; destruct (t =? -1);
                                 [apply eprintf_calm | apply calm_refl]).
    pose proof (fchown_calm dst_fd (st_uid src_stat) (st_gid src_stat) w8) as Hc2.
    destruct (fchown dst_fd _ _ w8) as [w9 o]. cbn [fst] in Hc2.
    eapply calm_trans; [exact Hf |]. eapply calm_trans; [exact H8 |].
    eapply calm_trans; [exact Hc2 |].
    destruct (o =? -1); [apply eprintf_calm | apply calm_refl]. }
  pose proof (close_calm src_fd w6) as Hc1. destruct (close src_fd w6) as [w7 ?].
  pose proof (close_calm dst_fd w7) as Hc2. destruct (close dst_fd w7) as [w8 ?].
  cbn [fst] in *. intros [= <- _].
  eapply calm_trans; [exact H5 |]. eapply calm_trans; [exact H6 |].
  eapply calm_trans; [exact Hc1 |]. eapply calm_trans; [exact Hc2 |].
  destruct (negb (Cp.verbose options =? 0)); [apply printf_calm | apply calm_refl].
Qed.

Lemma link_is_not_directory m : S_ISLNK m = true -> S_ISDIR m = false.
Proof.
  unfold S_ISLNK, S_ISDIR. intros H. apply Z.eqb_eq in H. rewrite H. reflexivity.
Qed.

(** C4, as stated, fails: cp -r a b, where a/l is a symlink to the file
    /t, does not make b/l a link: b/l is a regular file with the bytes of
    /t. (The link a/ld to a directory is not descended into: b/ld is an
    empty regular file.) And a source given on the command line that is a
    symlink to a directory is followed: cp -r a/ld b descends into /d and
    copies its file k. *)
Lemma cp_copies_the_target_of_a_symlink :
  let w := Scenarios.linked in
  (exists st, fs_stat (w_fs w) false "a/l" = Ok st /\ S_ISLNK (st_mode st) = true) /\
  (exists st, fs_stat (w_fs w) false "a/ld" = Ok st /\ S_ISLNK (st_mode st) = true) /\
  (exists w',
     Cp.main 10 ["cp"; "-r"; "a"; "b"] w = Some (w', 0) /\
     (exists st, fs_stat (w_fs w') false "b/l" = Ok st /\
                 S_ISLNK (st_mode st) = false /\ S_ISREG (st_mode st) = true) /\
     Scenarios.cat w' "b/l" = Some "secret" /\
     Scenarios.cat w' "b/ld" = Some "" /\
     Scenarios.exists_path w' "b/ld/k" = false) /\
  (exists w',
     Cp.main 10 ["cp"; "-r"; "a/ld"; "b"] w = Some (w', 0) /\
     In (OpenedDir "a/ld") (w_trace w') /\
     Scenarios.cat w' "b/k" = Some "k").
Proof.
  intros w. split; [eexists; split; vm_compute; reflexivity |].
  split; [eexists; split; vm_compute; reflexivity |].
  split.
  - eexists. split; [vm_compute; reflexivity |].
    split; [eexists; repeat split; vm_compute; reflexivity |].
    repeat split; vm_compute; reflexivity.
  - eexists. split; [vm_compute; reflexivity |].
    split; [cbn; auto | vm_compute; reflexivity].
Qed.
End Symlinks.

(** ** cp and rm: traversals and failures *)

Section Traversals.
Import Posix Libc Getopt Notions TraversalTerms.




Lemma process_arguments_app fuel options pre :
  forall rest exit_status w w1 s,
    Rm.process_arguments fuel options pre exit_status w = Some (w1, s) ->
    Rm.process_arguments fuel options (pre ++ rest) exit_status w =
      Rm.process_arguments fuel options rest s w1.
Proof.
  induction pre as [| p pre IH]; intros rest exit_status w w1 s H.
  - cbn in H. injection H as <- <-. reflexivity.
  - cbn [app Rm.process_arguments] in *.
    destruct (Rm.process_argument _ _ _ _ w) as [[w2 s2] |]; [auto | discriminate].
Qed.




















End Traversals.


(** ** echo: the text written and the options taken *)

Section EchoMore.
Import Posix Libc Getopt Notions EchoTerms.

Lemma length_append (a b : string) :
  String.length (a +:+ b) = (String.length a + String.length b)%nat.
Proof.
  induction a as [| x a IH]; [reflexivity |].
  change (String x a +:+ b) with (String x (a +:+ b)). cbn [String.length]. rewrite IH.
  reflexivity.
Qed.

Lemma getEscapeSequence_short e r :
  Echo.getEscapeSequence e = Some r -> (String.length r <= 1)%nat.
Proof.
  unfold Echo.getEscapeSequence.
  repeat (match goal with |- context [if ?b then _ else _] => destruct b end;
          [intros [= <-]; cbn; lia |]).
  discriminate.
Qed.

Lemma processEscapes_length_bounded (n : nat) :
  forall s, (String.length s <= n)%nat ->
            (String.length (Echo.processEscapes s) <= String.length s)%nat.
Proof.
  induction n as [| n IH]; intros s Hn.
  - destruct s; [cbn; lia | cbn in Hn; lia].
  - destruct s as [| c [| e rest]]; [cbn; lia | cbn; lia |].
    rewrite processEscapes_two. cbn [String.length] in Hn.
    destruct (Ascii.eqb c Echo.backslash).
    + pose proof (IH rest ltac:(lia)) as Hr.
      destruct (Echo.getEscapeSequence e) as [r |] eqn:He.
      * apply getEscapeSequence_short in He.
        destruct (Ascii.eqb e "c"); [cbn [String.length]; lia |].
        rewrite length_append. cbn [String.length]. lia.
      * cbn [String.length]. lia.
    + pose proof (IH (String e rest) ltac:(cbn [String.length]; lia)) as Hr.
      cbn [String.length] in *. lia.
Qed.

(** X1. echo -e never makes an argument longer: what processEscapes gives
    has at most the length of its input. *)
Theorem processEscapes_never_longer s :
  (String.length (Echo.processEscapes s) <= String.length s)%nat.
Proof.
  apply (processEscapes_length_bounded (String.length s)). lia.
Qed.

Lemma processEscapes_plain_bounded (n : nat) :
  forall s, (String.length s <= n)%nat ->
            mem_char Echo.backslash s = false -> Echo.processEscapes s = s.
Proof.
  induction n as [| n IH]; intros s Hn Hm.
  - destruct s; [reflexivity | cbn in Hn; lia].
  - destruct s as [| c [| e rest]]; [reflexivity | reflexivity |].
    rewrite processEscapes_two. cbn [mem_char] in Hm.
    apply orb_false_elim in Hm as [Hc Hm].
    rewrite Ascii.eqb_sym in Hc. rewrite Hc.
    rewrite (IH (String e rest)); [reflexivity | cbn [String.length] in *; lia |].
    exact Hm.
Qed.

(** X2. An argument without a backslash is written by echo -e as it is. *)
Theorem processEscapes_without_backslash s :
  mem_char Echo.backslash s = false -> Echo.processEscapes s = s.
Proof.
  apply (processEscapes_plain_bounded (String.length s)). lia.
Qed.

Lemma processEscapes_without_backslash_witness :
  mem_char Echo.backslash "hello, world" = false /\
  Echo.processEscapes "hello, world" = "hello, world".
Proof.
  split; [reflexivity |]. exact (processEscapes_without_backslash "hello, world" eq_refl).
Defined.

Lemma append_empty (s : string) : s +:+ "" = s.
Proof.
  induction s as [| x s IH]; [reflexivity |].
  change (String x s +:+ "") with (String x (s +:+ "")). rewrite IH. reflexivity.
Qed.

Lemma print_arguments_concat options :
  forall a rest,
    (if Echo.interpret_escapes options then Echo.processEscapes a else a)
      +:+ Echo.print_arguments options false rest
    = echo_text (Echo.interpret_escapes options) (a :: rest).
Proof.
  unfold echo_text. intros a rest. revert a.
  induction rest as [| b rest IH]; intros a.
  - cbn [Echo.print_arguments map String.concat]. apply append_empty.
  - cbn [Echo.print_arguments map String.concat negb].
    rewrite IH. reflexivity.
Qed.

(** X3. What echo writes to its standard output, when neither --help nor
    --version is among its options, is its operands - each with its
    escapes processed if the options end up with -e in effect - separated
    by single spaces, and a newline unless -n was given; nothing goes to
    stderr. *)
Theorem echo_writes_its_operands args options operands :
  Echo.parse_options (List.tl args) Echo.default_options = (options, operands) ->
  Echo.help options = false ->
  Echo.version options = false ->
  Echo.main args =
    (echo_text (Echo.interpret_escapes options) operands
       +:+ (if Echo.newline options then nl else ""),
     []).
Proof.
  intros Hp Hh Hv. unfold Echo.main. rewrite Hp, Hh, Hv.
  destruct operands as [| a rest]; [reflexivity |].
  cbn [Echo.print_arguments negb].
  change ("" +:+ ?x) with x.
  rewrite print_arguments_concat. reflexivity.
Qed.

Lemma echo_writes_its_operands_witness :
  let args := ["echo"; "-n"; "-E"; "a\tb"; "-e"; ""; "c"] in
  let options := {| Echo.interpret_escapes := false; Echo.newline := false;
                    Echo.help := false; Echo.version := false |} in
  Echo.parse_options (List.tl args) Echo.default_options
    = (options, ["a\tb"; "-e"; ""; "c"]) /\
  Echo.main args = ("a\tb -e  c", []).
Proof.
  intros args options. split; [reflexivity |].
  exact (echo_writes_its_operands args options ["a\tb"; "-e"; ""; "c"]
           eq_refl eq_refl eq_refl).
Defined.

Lemma not_dash_not_option a : String.prefix "-" a = false -> echo_option a = false.
Proof.
  unfold echo_option. intros H.
  repeat match goal with
         | |- context [String.eqb a ?o] =>
             destruct (String.eqb_spec a o) as [-> | _]; [discriminate H |]
         end.
  reflexivity.
Qed.

Ltac option_step H IH a :=
  let opts := fresh "opts" in
  apply IH in H as (opts & -> & Hf & Hop & Hnl & He & Hh & Hv);
  exists (a :: opts);
  cbn [Echo.newline Echo.interpret_escapes Echo.help Echo.version] in Hnl, He, Hh, Hv;
  rewrite Hnl, He, Hh, Hv;
  cbn; rewrite ?andb_false_r, ?orb_true_r;
  repeat split; assumption.

Lemma parse_options_grammar args :
  forall o o' operands,
    Echo.parse_options args o = (o', operands) ->
    exists opts,
      args = opts ++ operands /\
      forallb echo_option opts = true /\
      match operands with
      | a :: _ => echo_option a = false
      | [] => True
      end /\
      Echo.newline o' = Echo.newline o && negb (existsb (String.eqb "-n") opts) /\
      Echo.interpret_escapes o' = escapes_after opts (Echo.interpret_escapes o) /\
      Echo.help o' = Echo.help o || existsb (String.eqb "--help") opts /\
      Echo.version o' = Echo.version o || existsb (String.eqb "--version") opts.
Proof.
  induction args as [| arg rest IH]; intros o o' operands H.
  - injection H as <- <-. exists []. cbn. rewrite andb_true_r, !orb_false_r. auto 10.
  - cbn [Echo.parse_options] in H.
    destruct (String.prefix "-" arg) eqn:Hp; cbn [negb] in H.
    2: { injection H as <- <-. exists []. cbn [app forallb existsb escapes_after negb].
         rewrite andb_true_r, !orb_false_r.
         repeat split; try reflexivity. apply not_dash_not_option. exact Hp. }
    destruct (String.eqb_spec arg "-n") as [-> | Hn]; [option_step H IH "-n" |].
    destruct (String.eqb_spec arg "-e") as [-> | He']; [option_step H IH "-e" |].
    destruct (String.eqb_spec arg "-E") as [-> | HE']; [option_step H IH "-E" |].
    destruct (String.eqb_spec arg "--help") as [-> | Hh']; [option_step H IH "--help" |].
    destruct (String.eqb_spec arg "--version") as [-> | Hv'];
      [option_step H IH "--version" |].
    injection H as <- <-. exists []. cbn [app forallb existsb escapes_after negb].
    rewrite andb_true_r, !orb_false_r. repeat split; try reflexivity.
    unfold echo_option.
    rewrite (proj2 (String.eqb_neq _ _) Hn), (proj2 (String.eqb_neq _ _) He'),
      (proj2 (String.eqb_neq _ _) HE'), (proj2 (String.eqb_neq _ _) Hh'),
      (proj2 (String.eqb_neq _ _) Hv'). reflexivity.
Qed.

(** X4. echo takes as options only the leading arguments that are exactly
    -n, -e, -E, --help or --version: the first other argument, and all
    that follow it, are operands, also when they look like options. Of -e
    and -E the last one given decides; -n anywhere among the options
    suppresses the newline. *)
Theorem echo_options_are_a_prefix args options operands :
  Echo.parse_options (List.tl args) Echo.default_options = (options, operands) ->
  exists opts,
    List.tl args = opts ++ operands /\
    forallb echo_option opts = true /\
    match operands with
    | a :: _ => echo_option a = false
    | [] => True
    end /\
    Echo.newline options = negb (existsb (String.eqb "-n") opts) /\
    Echo.interpret_escapes options = escapes_after opts false /\
    Echo.help options = existsb (String.eqb "--help") opts /\
    Echo.version options = existsb (String.eqb "--version") opts.
Proof.
  intros H. apply parse_options_grammar in H as (opts & Ht & Hf & Hop & Hn & He & Hh & Hv).
  exists opts. repeat split; assumption.
Qed.

Lemma echo_options_are_a_prefix_witness :
  let args := ["echo"; "-e"; "-E"; "-n"; "-x"; "-n"; "-e"] in
  exists options opts,
    Echo.parse_options (List.tl args) Echo.default_options = (options, ["-x"; "-n"; "-e"]) /\
    List.tl args = opts ++ ["-x"; "-n"; "-e"] /\
    forallb echo_option opts = true /\
    echo_option "-x" = false /\
    fst (Echo.main args) = "-x -n -e".
Proof.
  intros args.
  destruct (echo_options_are_a_prefix args _ ["-x"; "-n"; "-e"] eq_refl)
    as (opts & Ht & Hf & Hx & _).
  eexists. exists opts. split; [reflexivity |]. repeat split; assumption || reflexivity.
Defined.
End EchoMore.


(** ** cp: options it refuses, destinations it keeps *)

Section CpMore.
Import Posix Libc Getopt Notions Answers.

Lemma print_usage_quiet prog w :
  w_fs (Cp.print_usage prog w) = w_fs w /\
  w_trace (Cp.print_usage prog w) = w_trace w /\
  w_stdout (Cp.print_usage prog w) = w_stdout w /\
  w_stdin (Cp.print_usage prog w) = w_stdin w.
Proof. repeat split. Qed.

Lemma prefix_cons a s t :
  String.prefix (String a s) t = true ->
  exists t', t = String a t' /\ String.prefix s t' = true.
Proof.
  destruct t as [| b t']; [discriminate |]. cbn [String.prefix].
  destruct (ascii_dec a b) as [<- |]; [| discriminate].
  intros H. exists t'. split; [reflexivity | exact H].
Qed.

(** X5. cp knows no long option but --help, although its usage text lists
    --force, --recursive and others: an argument that starts with "--",
    "--" itself included, met while cp reads its options, is refused as the
    unknown option "-", and cp ends with status 1 before doing anything. *)
Theorem cp_refuses_long_options fuel prog arg rest w :
  String.prefix "--" arg = true ->
  arg <> "--help" ->
  exists w',
    Cp.main fuel (prog :: arg :: rest) w = Some (w', 1) /\
    w_fs w' = w_fs w /\
    w_trace w' = w_trace w /\
    w_stdout w' = w_stdout w /\
    exists usage, w_stderr w' = w_stderr w ++ ("Unknown option: --" +:+ nl) :: usage.
Proof.
  intros Hp Hh.
  apply prefix_cons in Hp as (arg' & -> & Hp).
  apply prefix_cons in Hp as (tail & -> & _).
  unfold Cp.main. cbn [List.hd List.tl Cp.parse_arguments].
  change (String.prefix "-" (String "-" (String "-" tail))) with true. cbn iota.
  apply String.eqb_neq in Hh. rewrite Hh.
  change (str_drop 1 (String "-" (String "-" tail))) with (String "-" tail).
  cbn [Cp.parse_letters].
  change (Ascii.eqb "-" "r") with false. change (Ascii.eqb "-" "R") with false.
  change (Ascii.eqb "-" "f") with false. change (Ascii.eqb "-" "i") with false.
  change (Ascii.eqb "-" "p") with false. change (Ascii.eqb "-" "v") with false.
  change (Ascii.eqb "-" "T") with false. change (Ascii.eqb "-" "u") with false.
  cbn [orb]. cbv iota.
  eexists. split; [reflexivity |]. repeat split.
  eexists. cbn. rewrite <- !app_assoc. reflexivity.
Qed.

Lemma cp_refuses_long_options_witness :
  String.prefix "--" "--force" = true /\
  exists w',
    Cp.main 5 ["cp"; "--force"; "a"; "b"] (Scenarios.plain "") = Some (w', 1) /\
    w_fs w' = w_fs (Scenarios.plain "").
Proof.
  split; [reflexivity |].
  destruct (cp_refuses_long_options 5 "cp" "--force" ["a"; "b"] (Scenarios.plain "")
              eq_refl ltac:(discriminate)) as (w' & H1 & H2 & _).
  exists w'. auto.
Defined.

(** X6. With -u, and without -f and -i, cp leaves alone a destination that
    is not older than the source: copy_file returns 0 and nothing is
    opened, written or changed. With -f (and no -i) the dates are not
    looked at: the check lets the copy go on. *)
Theorem cp_update_keeps_newer_destination fuel src dst options w s d :
  Cp.interactive options = 0 ->
  Cp.update options <> 0 ->
  fs_stat (w_fs w) true src = Ok s ->
  fs_stat (w_fs w) true dst = Ok d ->
  (Cp.force options = 0 -> st_mtime s <= st_mtime d ->
   Cp.copy_file fuel src dst options w = Some (w, 0)) /\
  (Cp.force options <> 0 ->
   Cp.check_destination fuel src dst options w = Some (w, Return tt)).
Proof.
  intros Hi Hu Hs Hd. split.
  - intros Hf Hle. unfold Cp.copy_file, Cp.check_destination, Cp.check_update_condition.
    rewrite (stat_ok _ _ _ Hs), (access_exists _ _ _ Hd), Hi, Hf.
    apply Z.eqb_neq in Hu. rewrite Hu. cbn [Z.eqb negb].
    rewrite (stat_ok _ _ _ Hs), (stat_ok _ _ _ Hd).
    apply Z.ltb_ge in Hle. rewrite Hle. reflexivity.
  - intros Hf. unfold Cp.check_destination.
    rewrite (access_exists _ _ _ Hd), Hi. apply Z.eqb_neq in Hf. rewrite Hf. reflexivity.
Qed.

Lemma clear_input_line fuel :
  forall line rest w,
    w_stdin w = line +:+ nl +:+ rest ->
    mem_char newline line = false ->
    (String.length line < fuel)%nat ->
    Cp.clear_input fuel w = Some (set_stdin rest w).
Proof.
  induction fuel as [| fuel IH]; intros line rest w Hin Hm Hl; [lia |].
  cbn [Cp.clear_input]. unfold getchar. rewrite Hin.
  destruct line as [| c line].
  - change ("" +:+ nl +:+ rest) with (String newline rest). cbv iota beta.
    rewrite Z.eqb_refl. reflexivity.
  - change (String c line +:+ nl +:+ rest) with (String c (line +:+ nl +:+ rest)).
    cbn [mem_char] in Hm. apply orb_false_elim in Hm as [Hc Hm].
    assert (Hne : (chr c =? chr newline) = false).
    { apply Z.eqb_neq. intros Heq. apply chr_newline in Heq. subst c.
      rewrite Ascii.eqb_refl in Hc. discriminate. }
    cbv iota beta. rewrite Hne.
    rewrite (IH line rest (set_stdin (line +:+ nl +:+ rest) w) eq_refl Hm
               ltac:(cbn [String.length] in Hl; lia)).
    reflexivity.
Qed.

(** X7. At the overwrite prompt of cp the first character read is the
    answer, and the input is then skipped up to and including the next
    newline (so an answer that is just a newline also consumes the line
    after it). Any answer but y or Y makes copy_file return 0 with nothing
    opened and nothing changed. *)
Theorem cp_prompt_answer fuel src dst options w s d c line rest :
  Cp.interactive options <> 0 ->
  fs_stat (w_fs w) true src = Ok s ->
  fs_stat (w_fs w) true dst = Ok d ->
  w_stdin w = String c (line +:+ nl +:+ rest) ->
  mem_char newline line = false ->
  (String.length line < fuel)%nat ->
  Cp.check_destination fuel src dst options w =
    Some (set_stdin rest (printf (cp_prompt dst) w),
          if is_yes c then Return tt else Exit 0) /\
  (is_yes c = false ->
   Cp.copy_file fuel src dst options w = Some (set_stdin rest (printf (cp_prompt dst) w), 0)).
Proof.
  intros Hi Hs Hd Hin Hm Hl.
  assert (Hc : Cp.check_destination fuel src dst options w =
               Some (set_stdin rest (printf (cp_prompt dst) w),
                     if is_yes c then Return tt else Exit 0)).
  { unfold Cp.check_destination. rewrite (access_exists _ _ _ Hd).
    apply Z.eqb_neq in Hi. rewrite Hi. cbn [Z.eqb negb].
    fold (cp_prompt dst). unfold getchar. cbn [w_stdin printf]. rewrite Hin.
    cbv iota beta.
    rewrite (clear_input_line fuel line rest
               (set_stdin (line +:+ nl +:+ rest) (printf (cp_prompt dst) w)) eq_refl Hm Hl).
    unfold is_yes. destruct (to_char (chr c) =? chr "y"), (to_char (chr c) =? chr "Y");
      reflexivity. }
  split; [exact Hc |].
  intros Hno. unfold Cp.copy_file. rewrite (stat_ok _ _ _ Hs), Hc, Hno. reflexivity.
Qed.

Lemma cp_prompt_answer_witness :
  let w := Scenarios.plain ("no" +:+ nl +:+ "y") in
  let options := {| Cp.recursive := 0; Cp.force := 0; Cp.interactive := 1; Cp.preserve := 0;
                    Cp.verbose := 0; Cp.no_target_dir := 0; Cp.update := 0 |} in
  w_stdin w = String "n" ("o" +:+ nl +:+ "y") /\
  is_yes "n" = false /\
  Cp.copy_file 5 "a" "b" options w = Some (set_stdin "y" (printf (cp_prompt "b") w), 0).
Proof.
  intros w options. split; [reflexivity |]. split; [reflexivity |].
  refine (proj2 (cp_prompt_answer 5 "a" "b" options w
                   (stat_of (0, 3) (Scenarios.file 420 "aa"))
                   (stat_of (0, 4) (Scenarios.file 420 "bb")) "n" "o" "y"
                   _ _ _ eq_refl eq_refl _) eq_refl).
  - discriminate.
  - vm_compute; reflexivity.
  - vm_compute; reflexivity.
  - cbn; lia.
Defined.

Lemma cp_update_keeps_newer_destination_witness :
  let w := Scenarios.plain "" in
  let options := {| Cp.recursive := 0; Cp.force := 0; Cp.interactive := 0; Cp.preserve := 0;
                    Cp.verbose := 0; Cp.no_target_dir := 0; Cp.update := 1 |} in
  (exists s d, fs_stat (w_fs w) true "a" = Ok s /\ fs_stat (w_fs w) true "b" = Ok d /\
               st_mtime s <= st_mtime d) /\
  Cp.copy_file 5 "a" "b" options w = Some (w, 0).
Proof.
  intros w options.
  assert (Hs : fs_stat (w_fs w) true "a" = Ok (stat_of (0, 3) (Scenarios.file 420 "aa")))
    by (vm_compute; reflexivity).
  assert (Hd : fs_stat (w_fs w) true "b" = Ok (stat_of (0, 4) (Scenarios.file 420 "bb")))
    by (vm_compute; reflexivity).
  split; [eexists; eexists; split; [exact Hs | split; [exact Hd | cbn; lia]] |].
  refine (proj1 (cp_update_keeps_newer_destination 5 "a" "b" options w _ _
                   eq_refl _ Hs Hd) eq_refl _).
  - discriminate.
  - cbn; lia.
Defined.
End CpMore.


(** ** mv: options that end it, destinations it keeps, the prompt *)

Section MvMore.
Import Posix Libc Getopt Notions Answers MvTerms.

Lemma mv_parse_options_stop prog rs :
  forall fl w c,
    first_stop rs = Some c ->
    exists w',
      Mv.parse_options prog rs fl w
        = (w', Exit (if c =? chr "V" then EXIT_SUCCESS else EXIT_FAILURE)) /\
      w_fs w' = w_fs w /\ w_trace w' = w_trace w /\ w_stdin w' = w_stdin w /\
      ((c =? chr "V") = false -> w_stdout w' = w_stdout w).
Proof.
  induction rs as [| r rest IH]; intros fl w c H; [discriminate H |].
  cbn [first_stop] in H. cbn [Mv.parse_options].
  set (w1 := match r with Bad msg => eprintf msg w | _ => w end).
  assert (Hw1 : w_fs w1 = w_fs w /\ w_trace w1 = w_trace w /\ w_stdin w1 = w_stdin w /\
                w_stdout w1 = w_stdout w) by (destruct r; repeat split).
  destruct Hw1 as (Hfs & Htr & Hin & Hout).
  unfold mv_flag_code in H. unfold Mv.option_case.
  destruct (Mv.code_of r =? chr "f"); cbn [orb] in H.
  { destruct (IH {| Mv.force_flag := 1; Mv.interactive_flag := 0;
                    Mv.verbose_flag := Mv.verbose_flag fl; Mv.no_clobber_flag := 0 |} w1 c H)
      as (w' & -> & ? & ? & ? & ?).
    exists w'. repeat split; try congruence. intros Hv. rewrite <- Hout. auto. }
  destruct (Mv.code_of r =? chr "i"); cbn [orb] in H.
  { destruct (IH {| Mv.force_flag := 0; Mv.interactive_flag := 1;
                    Mv.verbose_flag := Mv.verbose_flag fl; Mv.no_clobber_flag := 0 |} w1 c H)
      as (w' & -> & ? & ? & ? & ?).
    exists w'. repeat split; try congruence. intros Hv. rewrite <- Hout. auto. }
  destruct (Mv.code_of r =? chr "n"); cbn [orb] in H.
  { destruct (IH {| Mv.force_flag := 0; Mv.interactive_flag := 0;
                    Mv.verbose_flag := Mv.verbose_flag fl; Mv.no_clobber_flag := 1 |} w1 c H)
      as (w' & -> & ? & ? & ? & ?).
    exists w'. repeat split; try congruence. intros Hv. rewrite <- Hout. auto. }
  destruct (Mv.code_of r =? chr "v"); cbn [orb] in H.
  { destruct (IH {| Mv.force_flag := Mv.force_flag fl;
                    Mv.interactive_flag := Mv.interactive_flag fl;
                    Mv.verbose_flag := 1; Mv.no_clobber_flag := Mv.no_clobber_flag fl |} w1 c H)
      as (w' & -> & ? & ? & ? & ?).
    exists w'. repeat split; try congruence. intros Hv. rewrite <- Hout. auto. }
  injection H as <-.
  destruct (Mv.code_of r =? chr "V").
  - eexists. split; [reflexivity |]. repeat split; try assumption. discriminate.
  - eexists. split; [reflexivity |]. repeat split; try assumption. intros _. assumption.
Qed.

(** X8. An option that is not one of mv's four flags ends mv before it
    looks at any operand: --version ends it with EXIT_SUCCESS, while
    --help, like an option mv does not know, ends it with EXIT_FAILURE and
    writes nothing to the standard output. Nothing is moved. *)
Theorem mv_stops_at_other_options fuel argv w c :
  first_stop (fst (getopt_long argv "finv" Mv.long_options)) = Some c ->
  exists w',
    Mv.main fuel argv w = Ends (w', if c =? chr "V" then EXIT_SUCCESS else EXIT_FAILURE) /\
    w_fs w' = w_fs w /\
    w_trace w' = w_trace w /\
    ((c =? chr "V") = false -> w_stdout w' = w_stdout w).
Proof.
  intros H. unfold Mv.main.
  destruct (getopt_long argv "finv" Mv.long_options) as [rs operands]. cbn [fst] in H.
  destruct (mv_parse_options_stop (List.hd "" argv) rs Mv.initial_flags w c H)
    as (w' & -> & Hfs & Htr & _ & Hout).
  exists w'. repeat split; assumption.
Qed.

Lemma mv_stops_at_other_options_witness :
  first_stop (fst (getopt_long ["mv"; "-v"; "--help"; "a"; "b"] "finv" Mv.long_options))
    = Some (chr "h") /\
  exists w',
    Mv.main 5 ["mv"; "-v"; "--help"; "a"; "b"] (Scenarios.plain "") = Ends (w', EXIT_FAILURE) /\
    w_fs w' = w_fs (Scenarios.plain "").
Proof.
  split; [reflexivity |].
  destruct (mv_stops_at_other_options 5 ["mv"; "-v"; "--help"; "a"; "b"]
              (Scenarios.plain "") (chr "h") eq_refl) as (w' & H1 & H2 & _).
  exists w'. split; [exact H1 | exact H2].
Defined.

Lemma check_same_file_differ w source dest s d :
  fs_stat (w_fs w) true source = Ok s ->
  fs_stat (w_fs w) true dest = Ok d ->
  (st_dev s, st_ino s) <> (st_dev d, st_ino d) ->
  Mv.check_same_file source dest w = (w, 0).
Proof.
  intros Hs Hd Hne. unfold Mv.check_same_file.
  rewrite (stat_ok _ _ _ Hs), (stat_ok _ _ _ Hd).
  destruct (Z.eqb_spec (st_dev s) (st_dev d)) as [E1 |]; [| reflexivity].
  destruct (Z.eqb_spec (st_ino s) (st_ino d)) as [E2 |]; [| reflexivity].
  exfalso. apply Hne. congruence.
Qed.

Lemma frees_its_block_goes_on dest_is_dir source :
  frees_its_block dest_is_dir source = true ->
  dest_is_dir && negb (may_free (basename_pointer source)) = false.
Proof.
  unfold frees_its_block. destruct dest_is_dir, (may_free (basename_pointer source)); auto.
Qed.

(** X9. With -n in force, a source whose destination exists (and is another
    file) is left where it is: mv makes no call that changes anything, and
    says so only with -v. (With a directory as the target this is said of
    the sources without a directory part, for which the call of free has a
    meaning.) *)
Theorem mv_no_clobber_keeps_both fuel fl dest dest_is_dir source w s d :
  frees_its_block dest_is_dir source = true ->
  Mv.no_clobber_flag fl <> 0 ->
  fs_stat (w_fs w) true source = Ok s ->
  fs_stat (w_fs w) true (final_dest dest dest_is_dir source) = Ok d ->
  (st_dev s, st_ino s) <> (st_dev d, st_ino d) ->
  Mv.process_source fuel fl dest dest_is_dir source w =
    Ends (if Mv.verbose_flag fl =? 0 then w
          else printf (not_overwriting (final_dest dest dest_is_dir source)) w).
Proof.
  intros Hfree Hn Hs Hd Hne. unfold Mv.process_source.
  rewrite (access_exists _ _ _ Hs). cbn [Z.eqb negb].
  fold (final_dest dest dest_is_dir source).
  rewrite (frees_its_block_goes_on _ _ Hfree).
  rewrite (check_same_file_differ _ _ _ _ _ Hs Hd Hne). cbn [Z.eqb negb].
  rewrite (access_exists _ _ _ Hd). cbn [Z.eqb].
  apply Z.eqb_neq in Hn. rewrite Hn. cbn [negb].
  unfold not_overwriting. destruct (Mv.verbose_flag fl =? 0); reflexivity.
Qed.

Lemma mv_no_clobber_keeps_both_witness :
  let w := Scenarios.blocked_move in
  let fl := {| Mv.force_flag := 0; Mv.interactive_flag := 0; Mv.verbose_flag := 0;
               Mv.no_clobber_flag := 1 |} in
  frees_its_block true "f" = true /\
  final_dest "d" true "f" = "d/f" /\
  Mv.process_source 5 fl "d" true "f" w = Ends w.
Proof.
  intros w fl. split; [reflexivity |]. split; [reflexivity |].
  refine (mv_no_clobber_keeps_both 5 fl "d" true "f" w
            (stat_of (0, 3) (Scenarios.file 420 "hello"))
            (stat_of (0, 5) (Scenarios.dir 493 (0, 5) (0, 4) [])) _ _ _ _ _).
  - reflexivity.
  - discriminate.
  - vm_compute; reflexivity.
  - vm_compute; reflexivity.
  - discriminate.
Defined.

Lemma length_app_string (a b : string) :
  String.length (a +:+ b) = (String.length a + String.length b)%nat.
Proof.
  induction a as [| x a IH]; [reflexivity |].
  change (String x a +:+ b) with (String x (a +:+ b)). cbn [String.length]. rewrite IH.
  reflexivity.
Qed.

Lemma fgets_take_first n c rest :
  exists t, fst (fgets_take (S n) (String c rest)) = String c t.
Proof.
  cbn [fgets_take]. destruct (Ascii.eqb c newline); [eexists; reflexivity |].
  destruct (fgets_take n rest). eexists; reflexivity.
Qed.

Lemma fgets_take_spec n :
  forall s t r,
    fgets_take n s = (t, r) ->
    s = t +:+ r /\
    (String.length t <= n)%nat /\
    (mem_char newline t = true ->
     exists t0, t = t0 +:+ nl /\ mem_char newline t0 = false) /\
    (mem_char newline t = false -> String.length t = n \/ r = "").
Proof.
  induction n as [| n IH]; intros s t r H.
  - injection H as <- <-.
    split; [reflexivity |]. split; [cbn; lia |]. split; [discriminate | auto].
  - cbn [fgets_take] in H. destruct s as [| c s'].
    + injection H as <- <-.
      split; [reflexivity |]. split; [cbn; lia |]. split; [discriminate | auto].
    + destruct (Ascii.eqb_spec c newline) as [-> | Hc].
      * injection H as <- <-.
        split; [reflexivity |]. split; [cbn; lia |]. split.
        -- intros _. exists "". split; reflexivity.
        -- cbn [mem_char]. rewrite Ascii.eqb_refl. discriminate.
      * destruct (fgets_take n s') as [t' r'] eqn:Ht. injection H as <- <-.
        destruct (IH s' t' r' Ht) as (Hs & Hl & Hnl & Hno).
        assert (Hcn : Ascii.eqb newline c = false).
        { apply Ascii.eqb_neq. congruence. }
        split; [| split; [| split]].
        -- change (String c t' +:+ r') with (String c (t' +:+ r')). rewrite <- Hs. reflexivity.
        -- cbn [String.length]. lia.
        -- cbn [mem_char]. rewrite Hcn. cbn [orb]. intros Hm.
           destruct (Hnl Hm) as (t0 & -> & Ht0). exists (String c t0).
           split; [reflexivity |]. cbn [mem_char]. rewrite Hcn. exact Ht0.
        -- cbn [mem_char]. rewrite Hcn. cbn [orb]. intros Hm.
           destruct (Hno Hm) as [Hlen | Hr]; [left | right; exact Hr].
           cbn [String.length]. lia.
Qed.

(** X10. The prompt of mv takes its answer from one call of fgets on a
    buffer of 10 bytes: the answer is yes exactly when the first character
    read is y or Y, and at most nine characters are consumed, up to and
    including the first newline among them. What is left of a longer line
    stays in the input for the next prompt. At the end of the input the
    answer is no. *)
Theorem mv_prompt_reads_nine_characters dest w :
  match w_stdin w with
  | EmptyString => Mv.confirm_overwrite dest w = (printf (mv_prompt dest) w, 0)
  | String c _ =>
      exists t r,
        w_stdin w = t +:+ r /\
        (1 <= String.length t <= 9)%nat /\
        (mem_char newline t = true ->
         exists t0, t = t0 +:+ nl /\ mem_char newline t0 = false) /\
        (mem_char newline t = false -> String.length t = 9%nat \/ r = "") /\
        Mv.confirm_overwrite dest w =
          (set_stdin r (printf (mv_prompt dest) w), if is_yes c then 1 else 0)
  end.
Proof.
  unfold Mv.confirm_overwrite, fgets. fold (mv_prompt dest).
  change (Z.to_nat (10 - 1)) with 9%nat.
  change (w_stdin (printf (mv_prompt dest) w)) with (w_stdin w).
  destruct (w_stdin w) as [| c rest] eqn:Hin; [reflexivity |].
  destruct (fgets_take 9 (String c rest)) as [t r] eqn:Ht.
  destruct (fgets_take_first 8 c rest) as (t' & Hf). rewrite Ht in Hf. cbn [fst] in Hf.
  subst t.
  destruct (fgets_take_spec 9 _ _ _ Ht) as (Hs & Hl & Hnl & Hno).
  exists (String c t'), r. split; [exact Hs |].
  split; [cbn [String.length] in *; lia |].
  split; [exact Hnl |]. split; [exact Hno |].
  change (String.eqb (String c t') "") with false. cbv iota.
  unfold is_yes, first_char. reflexivity.
Qed.

Lemma confirm_overwrite_no dest w :
  match w_stdin w with
  | EmptyString => True
  | String c _ => is_yes c = false
  end ->
  exists w',
    Mv.confirm_overwrite dest w = (w', 0) /\
    w_fs w' = w_fs w /\ w_trace w' = w_trace w /\ w_stderr w' = w_stderr w /\
    w_stdout w' = w_stdout w ++ [mv_prompt dest].
Proof.
  unfold Mv.confirm_overwrite, fgets. fold (mv_prompt dest).
  change (Z.to_nat (10 - 1)) with 9%nat.
  change (w_stdin (printf (mv_prompt dest) w)) with (w_stdin w).
  destruct (w_stdin w) as [| c rest] eqn:Hin; intros Hans.
  - eexists. split; [reflexivity |]. repeat split.
  - destruct (fgets_take 9 (String c rest)) as [t r] eqn:Ht.
    destruct (fgets_take_first 8 c rest) as (t' & Hf). rewrite Ht in Hf. cbn [fst] in Hf.
    subst t. change (String.eqb (String c t') "") with false. cbv iota.
    unfold is_yes in Hans. unfold first_char. rewrite Hans.
    eexists. split; [reflexivity |]. repeat split.
Qed.

(** X11. With -i in force (and so neither -f nor -n), an answer that does not
    start with y or Y, or no answer at all, leaves source and destination
    as they are: after the prompt mv makes no call that changes
    anything. (With a directory as the target this is said of the sources
    without a directory part, for which the call of free has a
    meaning.) *)
Theorem mv_declined_prompt_keeps_both fuel fl dest dest_is_dir source w s d :
  frees_its_block dest_is_dir source = true ->
  Mv.no_clobber_flag fl = 0 ->
  Mv.interactive_flag fl <> 0 ->
  fs_stat (w_fs w) true source = Ok s ->
  fs_stat (w_fs w) true (final_dest dest dest_is_dir source) = Ok d ->
  (st_dev s, st_ino s) <> (st_dev d, st_ino d) ->
  match w_stdin w with
  | EmptyString => True
  | String c _ => is_yes c = false
  end ->
  exists w',
    Mv.process_source fuel fl dest dest_is_dir source w = Ends w' /\
    w_fs w' = w_fs w /\
    w_trace w' = w_trace w /\
    w_stderr w' = w_stderr w /\
    w_stdout w' = w_stdout w ++ [mv_prompt (final_dest dest dest_is_dir source)].
Proof.
  intros Hfree Hn Hi Hs Hd Hne Hans. unfold Mv.process_source.
  rewrite (access_exists _ _ _ Hs). cbn [Z.eqb negb].
  fold (final_dest dest dest_is_dir source).
  rewrite (frees_its_block_goes_on _ _ Hfree).
  rewrite (check_same_file_differ _ _ _ _ _ Hs Hd Hne). cbn [Z.eqb negb].
  rewrite (access_exists _ _ _ Hd). cbn [Z.eqb].
  rewrite Hn. cbn [Z.eqb negb]. apply Z.eqb_neq in Hi. rewrite Hi. cbn [negb].
  destruct (confirm_overwrite_no (final_dest dest dest_is_dir source) w Hans)
    as (w' & -> & Hfs & Htr & Herr & Hout).
  cbn [Z.eqb]. exists w'. repeat split; assumption.
Qed.

Lemma mv_declined_prompt_keeps_both_witness :
  let w := set_stdin ("never" +:+ nl) Scenarios.blocked_move in
  let fl := {| Mv.force_flag := 0; Mv.interactive_flag := 1; Mv.verbose_flag := 0;
               Mv.no_clobber_flag := 0 |} in
  frees_its_block true "f" = true /\
  exists w',
    Mv.process_source 5 fl "d" true "f" w = Ends w' /\ w_fs w' = w_fs w.
Proof.
  intros w fl. split; [reflexivity |].
  destruct (mv_declined_prompt_keeps_both 5 fl "d" true "f" w
              (stat_of (0, 3) (Scenarios.file 420 "hello"))
              (stat_of (0, 5) (Scenarios.dir 493 (0, 5) (0, 4) [])))
    as (w' & H1 & H2 & _).
  - reflexivity.
  - reflexivity.
  - discriminate.
  - vm_compute; reflexivity.
  - vm_compute; reflexivity.
  - discriminate.
  - reflexivity.
  - exists w'. split; [exact H1 | exact H2].
Defined.
End MvMore.


(** ** rm: what a removal leaves, what -f hides, what a prompt reads *)

Section RmMore.
Import Posix Libc Getopt Notions Answers RmTerms.

(** After a successful rmdir the name is gone. *)
Lemma fs_rmdir_gone fs p fs' :
  fs_rmdir fs p = Ok fs' -> fs_stat fs' false p = Err ENOENT.
Proof.
  unfold fs_rmdir, lookup_parent, fs_stat, lookup_path.
  destruct (String.eqb p "") eqn:Hp; [discriminate |].
  destruct (PATH_MAX <=? strlen p) eqn:Hl; [discriminate |].
  destruct (split_last (split_path p)) as [[init name] |] eqn:Hsl; [| discriminate].
  destruct (walk MAXSYMLINKS fs true (start_dir fs p) init) as [e | d] eqn:Hw;
    [discriminate |].
  destruct (String.eqb name "."); [discriminate |].
  destruct (String.eqb name ".."); [discriminate |].
  destruct (get_dir fs d) as [e | [m es]] eqn:Hg; [discriminate |].
  apply get_dir_ok in Hg as [Hd Hx].
  destruct (dir_find name es) as [f |]; [| discriminate].
  destruct (negb (may fs m W_OK)); [discriminate |].
  destruct (inodes fs !! f) as [[mf [df | ef | tf]] |]; try discriminate.
  destruct (dir_is_empty ef); [| discriminate].
  intros [= <-].
  rewrite (split_last_app _ _ _ Hsl).
  change (start_dir (put_dir fs d (touch fs m) (dir_remove name es)) p) with (start_dir fs p).
  rewrite (walk_removed fs d m es name Hd Hx MAXSYMLINKS _ _ _ Hw). reflexivity.
Qed.

(** remove(3) either takes the name away or changes nothing; it writes
    nothing and reads nothing. *)
Lemma remove_outcome p w :
  exists w' r,
    remove p w = (w', r) /\
    w_stderr w' = w_stderr w /\ w_stdout w' = w_stdout w /\ w_stdin w' = w_stdin w /\
    ((r = 0 /\ fs_stat (w_fs w') false p = Err ENOENT)
     \/ (r = -1 /\ w_fs w' = w_fs w /\ w_trace w' = w_trace w)).
Proof.
  unfold remove, unlink, rmdir, syscall.
  destruct (fs_unlink (w_fs w) p) as [e | fs1] eqn:Hu.
  - cbn [Z.eqb w_errno set_errno]. destruct (e =? EISDIR).
    + destruct (fs_rmdir (w_fs (set_errno e w)) p) as [e2 | fs2] eqn:Hr.
      * eexists _, _. split; [reflexivity |]. repeat split. right. repeat split.
      * eexists _, _. split; [reflexivity |]. repeat split. left.
        split; [reflexivity |]. exact (fs_rmdir_gone _ _ _ Hr).
    + eexists _, _. split; [reflexivity |]. repeat split. right. repeat split.
  - cbn [Z.eqb]. eexists _, _. split; [reflexivity |]. repeat split. left.
    split; [reflexivity |]. exact (fs_unlink_gone _ _ _ Hu).
Qed.

(** X12. When remove_file does not prompt (no -i, or -f), it always returns,
    and its result tells what happened, unless -f hides it: without -f, 0
    means that the name is gone and 1 means that nothing was changed and
    one diagnostic was written; with -f the result is 0 in both cases and
    nothing is written to the standard error. *)
Theorem rm_remove_file_outcome fuel options path w :
  Rm.interactive options = 0 \/ Rm.force options <> 0 ->
  exists w' r,
    Rm.remove_file fuel options path w = Some (w', r) /\
    ((r = 0 /\ w_stderr w' = w_stderr w /\
      (fs_stat (w_fs w') false path = Err ENOENT
       \/ (Rm.force options <> 0 /\ w_fs w' = w_fs w /\ w_trace w' = w_trace w)))
     \/ (r = 1 /\ Rm.force options = 0 /\ w_fs w' = w_fs w /\ w_trace w' = w_trace w /\
         exists msg, w_stderr w' = w_stderr w ++ [msg])).
Proof.
  intros Hno. unfold Rm.remove_file.
  assert (Hask : negb (Rm.interactive options =? 0) && (Rm.force options =? 0) = false).
  { destruct Hno as [-> | Hf]; [reflexivity |].
    apply Z.eqb_neq in Hf. rewrite Hf. apply andb_false_r. }
  rewrite Hask.
  destruct (remove_outcome path w) as (w1 & r & -> & Herr & Hout & Hin & Hr).
  destruct Hr as [[-> Hgone] | (-> & Hfs & Htr)].
  - cbn [Z.eqb negb]. eexists _, _. split; [reflexivity |]. left.
    split; [reflexivity |].
    split; [destruct (negb (Rm.verbose options =? 0)); exact Herr |].
    left. destruct (negb (Rm.verbose options =? 0)); exact Hgone.
  - cbn [Z.eqb negb]. destruct (Z.eqb_spec (Rm.force options) 0) as [Hf | Hf].
    + eexists _, _. split; [reflexivity |]. right.
      split; [reflexivity |]. split; [exact Hf |]. split; [exact Hfs |].
      split; [exact Htr |]. eexists. cbn [w_stderr eprintf]. rewrite Herr. reflexivity.
    + eexists _, _. split; [reflexivity |]. left.
      split; [reflexivity |]. split; [exact Herr |]. right. auto.
Qed.

Lemma rm_remove_file_outcome_witness :
  exists w',
    Rm.remove_file 5 Rm.initial_options "d/x" (Scenarios.plain "") = Some (w', 1) /\
    w_fs w' = w_fs (Scenarios.plain "").
Proof.
  destruct (rm_remove_file_outcome 5 Rm.initial_options "d/x" (Scenarios.plain "")
              (or_introl eq_refl)) as (w' & r & H & Hr).
  assert (r = 1) as -> by (vm_compute in H; injection H as _ <-; reflexivity).
  exists w'. split; [exact H |].
  destruct Hr as [(Hz & _) | (_ & _ & Hfs & _)]; [discriminate Hz | exact Hfs].
Defined.

Lemma remove_stderr p w : w_stderr (fst (remove p w)) = w_stderr w.
Proof.
  destruct (remove_outcome p w) as (w' & r & -> & H & _). exact H.
Qed.

Lemma handle_remove_forced options path w :
  Rm.force options <> 0 ->
  snd (Rm.handle_remove options path w) = 0 /\
  w_stderr (fst (Rm.handle_remove options path w)) = w_stderr w.
Proof.
  intros Hf. unfold Rm.handle_remove.
  pose proof (remove_stderr path w) as Herr.
  destruct (remove path w) as [w1 rv]. cbn [fst] in Herr.
  apply Z.eqb_neq in Hf. rewrite Hf, andb_false_r.
  destruct (negb (Rm.verbose options =? 0)); split; try reflexivity; exact Herr.
Qed.

Section Quiet.
Variable fn : string -> world -> world * Z.
Hypothesis fn_quiet : forall p w, snd (fn p w) = 0 /\ w_stderr (fst (fn p w)) = w_stderr w.

Lemma nftw_children_quiet (visit : string -> world -> option (world * Z)) dir :
  (forall p w w' r, visit p w = Some (w', r) -> r = 0 /\ w_stderr w' = w_stderr w) ->
  forall names w w' r,
    nftw_children visit dir names w = Some (w', r) ->
    r = 0 /\ w_stderr w' = w_stderr w.
Proof.
  intros Hv. induction names as [| n rest IH]; intros w w' r H.
  - injection H as <- <-. auto.
  - cbn [nftw_children] in H. destruct (is_dot n); [eauto |].
    destruct (visit (nftw_join dir n) w) as [[w1 r1] |] eqn:Hvis; [| discriminate].
    apply Hv in Hvis as [-> Herr]. cbn [Z.eqb] in H.
    apply IH in H as [-> H]. split; [reflexivity | congruence].
Qed.

Lemma fn_result p w w' r : Some (fn p w) = Some (w', r) -> r = 0 /\ w_stderr w' = w_stderr w.
Proof.
  intros [= H]. destruct (fn_quiet p w) as [H1 H2]. rewrite H in H1, H2. auto.
Qed.

Lemma nftw_visit_quiet fuel :
  forall path w w' r,
    nftw_visit fn fuel path w = Some (w', r) -> r = 0 /\ w_stderr w' = w_stderr w.
Proof.
  induction fuel as [| fuel IH]; intros path w w' r H; [discriminate |].
  cbn [nftw_visit] in H.
  pose proof (lstat_stderr path w) as Hl.
  destruct (lstat path w) as [w1 st]. cbn [fst] in Hl.
  destruct st as [s |].
  - destruct (S_ISDIR (st_mode s)).
    + pose proof (opendir_stderr path w1) as Ho.
      destruct (opendir path w1) as [w2 d]. cbn [fst] in Ho.
      destruct d as [names |].
      * destruct (nftw_children (nftw_visit fn fuel) path names w2) as [[w3 r3] |] eqn:Hc;
          [| discriminate].
        apply (nftw_children_quiet _ _ IH) in Hc as [-> Hc]. cbn [Z.eqb] in H.
        apply fn_result in H as [-> H]. split; [reflexivity | congruence].
      * apply fn_result in H as [-> H]. split; [reflexivity | congruence].
    + apply fn_result in H as [-> H]. split; [reflexivity | congruence].
  - apply fn_result in H as [-> H]. split; [reflexivity | congruence].
Qed.
End Quiet.

Lemma rm_remove_file_quiet fuel options path w :
  Rm.force options <> 0 ->
  exists w', Rm.remove_file fuel options path w = Some (w', 0) /\ w_stderr w' = w_stderr w.
Proof.
  intros Hf. unfold Rm.remove_file.
  pose proof Hf as Hf'. apply Z.eqb_neq in Hf'. rewrite Hf', andb_false_r.
  pose proof (remove_stderr path w) as Herr.
  destruct (remove path w) as [w1 r]. cbn [fst] in Herr.
  destruct (negb (r =? 0)).
  - eexists. split; [reflexivity | exact Herr].
  - eexists. split; [reflexivity |].
    destruct (negb (Rm.verbose options =? 0)); exact Herr.
Qed.

(** X13. With -f, rm reports nothing about an operand it is willing to work
    on (one that is not the guarded root and, without -r, not a
    directory): whether the operand is missing, was removed, or could not
    be removed, wholly or in part, nothing is written to the standard error
    and the exit status stays what it was. *)
Theorem rm_force_reports_nothing fuel options path status w w' status' :
  Rm.force options <> 0 ->
  root_guarded options path = false ->
  Rm.recursive options <> 0 \/ lstat_directory w path = false ->
  Rm.process_argument fuel options path status w = Some (w', status') ->
  status' = status /\ w_stderr w' = w_stderr w.
Proof.
  intros Hf Hg Hd H. unfold Rm.process_argument in H.
  unfold lstat_directory in Hd. unfold lstat in H.
  destruct (fs_stat (w_fs w) false path) as [e | s] eqn:Hs.
  - pose proof Hf as Hf'. apply Z.eqb_neq in Hf'. rewrite Hf' in H.
    injection H as <- <-. auto.
  - unfold root_guarded in Hg. rewrite Hg in H.
    assert (Hfile : forall w1 r,
               Rm.remove_file fuel options path w = Some (w1, r) ->
               r = 0 /\ w_stderr w1 = w_stderr w).
    { intros w1 r Hr.
      destruct (rm_remove_file_quiet fuel options path w Hf) as (w2 & Hr2 & Herr).
      rewrite Hr in Hr2. injection Hr2 as <- ->. auto. }
    destruct (S_ISDIR (st_mode s)) eqn:Hdir.
    + destruct Hd as [Hrec | Hd]; [| discriminate Hd].
      apply Z.eqb_neq in Hrec. rewrite Hrec in H.
      destruct (Rm.remove_directory_recursive fuel options path w) as [[w1 r] |] eqn:Hn;
        [| discriminate].
      unfold Rm.remove_directory_recursive, nftw, lstat in Hn. rewrite Hs in Hn.
      apply (nftw_visit_quiet _ (fun p w => handle_remove_forced options p w Hf)) in Hn
        as [-> Hn].
      injection H as <- <-. auto.
    + destruct (Rm.remove_file fuel options path w) as [[w1 r] |] eqn:Hr; [| discriminate].
      destruct (Hfile w1 r eq_refl) as [-> Hq]. injection H as <- <-. auto.
Qed.

Lemma rm_force_reports_nothing_witness :
  let options := {| Rm.recursive := 1; Rm.force := 1; Rm.verbose := 0; Rm.interactive := 0;
                    Rm.preserve_root := 1; Rm.no_preserve_root := 0 |} in
  exists w',
    Rm.process_argument 5 options "s" EXIT_SUCCESS Scenarios.unsearchable
      = Some (w', EXIT_SUCCESS) /\
    w_stderr w' = [] /\
    Scenarios.exists_path w' "s" = true.
Proof.
  intros options.
  destruct (Rm.process_argument 5 options "s" EXIT_SUCCESS Scenarios.unsearchable)
    as [[w' status'] |] eqn:H; [| vm_compute in H; discriminate].
  assert (Hs : Scenarios.exists_path w' "s" = true)
    by (vm_compute in H; injection H as <- _; vm_compute; reflexivity).
  destruct (rm_force_reports_nothing 5 options "s" EXIT_SUCCESS Scenarios.unsearchable
              w' status') as [-> Herr].
  - discriminate.
  - reflexivity.
  - left. discriminate.
  - exact H.
  - exists w'. split; [reflexivity |]. split; [exact Herr | exact Hs].
Defined.






End RmMore.


(** ** The copy loops of cp and mv *)

Section CopyLoops.
Import Posix Libc Getopt Notions CopyTerms.

Lemma strlen_nonneg s : 0 <= strlen s.
Proof. unfold strlen. lia. Qed.

Lemma strlen_cons c s : strlen (String c s) = 1 + strlen s.
Proof. unfold strlen. cbn [String.length]. lia. Qed.

Lemma str_take_all s : forall n, strlen s <= n -> str_take n s = s.
Proof.
  induction s as [| c s IH]; intros n H; [reflexivity |].
  rewrite strlen_cons in H. pose proof (strlen_nonneg s).
  cbn [str_take]. destruct (Z.leb_spec n 0); [lia |]. f_equal. apply IH. lia.
Qed.

Lemma str_drop_all s : forall n, strlen s <= n -> str_drop n s = "".
Proof.
  induction s as [| c s IH]; intros n H; [reflexivity |].
  rewrite strlen_cons in H. pose proof (strlen_nonneg s).
  cbn [str_drop]. destruct (Z.leb_spec n 0); [lia |]. apply IH. lia.
Qed.

Lemma strlen_take s : forall n, 0 <= n <= strlen s -> strlen (str_take n s) = n.
Proof.
  induction s as [| c s IH]; intros n H.
  - change (strlen "") with 0 in *. cbn. change (strlen "") with 0. lia.
  - rewrite strlen_cons in H. cbn [str_take]. destruct (Z.leb_spec n 0).
    + change (strlen "") with 0. lia.
    + rewrite strlen_cons, IH; lia.
Qed.

Lemma strlen_take_le s : forall n, strlen (str_take n s) <= strlen s.
Proof.
  induction s as [| c s IH]; intros n; [cbn; lia |].
  cbn [str_take]. destruct (n <=? 0).
  - pose proof (strlen_nonneg (String c s)). change (strlen "") with 0. lia.
  - rewrite !strlen_cons. specialize (IH (n - 1)). lia.
Qed.

Lemma strlen_drop s : forall n, 0 <= n <= strlen s -> strlen (str_drop n s) = strlen s - n.
Proof.
  induction s as [| c s IH]; intros n H.
  - change (strlen "") with 0 in *. cbn. change (strlen "") with 0. lia.
  - rewrite strlen_cons in H. cbn [str_drop]. destruct (Z.leb_spec n 0).
    + rewrite strlen_cons. lia.
    + rewrite strlen_cons, IH; lia.
Qed.

Lemma str_take_strlen s : forall n, str_take (strlen (str_take n s)) s = str_take n s.
Proof.
  induction s as [| c s IH]; intros n; [reflexivity |].
  cbn [str_take]. destruct (n <=? 0) eqn:Hn.
  - reflexivity.
  - rewrite strlen_cons. pose proof (strlen_nonneg (str_take (n - 1) s)).
    cbn [str_take]. destruct (Z.leb_spec (1 + strlen (str_take (n - 1) s)) 0); [lia |].
    f_equal. replace (1 + strlen (str_take (n - 1) s) - 1) with (strlen (str_take (n - 1) s))
      by lia. apply IH.
Qed.

(** What one turn of a copy loop adds to the destination. *)
Lemma str_take_extend s :
  forall pos n,
    0 <= pos ->
    str_take (pos + strlen (str_take n (str_drop pos s))) s
      = str_take pos s +:+ str_take n (str_drop pos s).
Proof.
  induction s as [| c s IH]; intros pos n Hpos; [reflexivity |].
  cbn [str_drop]. destruct (Z.leb_spec pos 0).
  - assert (pos = 0) as -> by lia. rewrite Z.add_0_l, str_take_strlen.
    reflexivity.
  - pose proof (strlen_nonneg (str_take n (str_drop (pos - 1) s))).
    cbn [str_take]. destruct (Z.leb_spec (pos + strlen (str_take n (str_drop (pos - 1) s))) 0);
      [lia |].
    destruct (Z.leb_spec pos 0); [lia |].
    change (String c (str_take (pos - 1) s) +:+ str_take n (str_drop (pos - 1) s))
      with (String c (str_take (pos - 1) s +:+ str_take n (str_drop (pos - 1) s))).
    f_equal. rewrite <- IH by lia. f_equal. lia.
Qed.

Lemma str_take_empty n s : 0 < n -> str_take n s = "" -> s = "".
Proof.
  destruct s as [| c s]; [reflexivity |]. cbn [str_take].
  destruct (Z.leb_spec n 0); [lia | discriminate].
Qed.

Lemma strlen_empty s : strlen s = 0 -> s = "".
Proof. destruct s; [reflexivity |]. rewrite strlen_cons. pose proof (strlen_nonneg s). lia. Qed.

(** The descriptor [open] hands out is not in use, and is not one of the
    standard streams. *)
Lemma fresh_fd_free (fds : gmap Z (fid * Z)) : fds !! fresh_fd fds = None.
Proof.
  unfold fresh_fd.
  destruct (List.find _ _) as [n |] eqn:Hf.
  - apply find_some in Hf as [_ Hn]. apply bool_decide_eq_true in Hn. exact Hn.
  - exfalso.
    set (l := map (fun k => Z.of_nat k + 3) (seq 0 (S (size fds)))) in *.
    assert (Hall : forall x, x ∈ l -> x ∈ dom fds).
    { intros x Hx. apply list_elem_of_In in Hx.
      pose proof (find_none _ _ Hf x Hx) as Hb. cbn beta in Hb.
      apply bool_decide_eq_false in Hb. apply elem_of_dom.
      destruct (fds !! x); [eauto | congruence]. }
    assert (Hnd : NoDup l).
    { assert (Hinj : Inj eq eq (fun k : nat => Z.of_nat k + 3)) by (intros a b; lia).
      apply (NoDup_fmap_2 (fun k : nat => Z.of_nat k + 3)). apply NoDup_seq. }
    assert (Hsz : size (list_to_set l : gset Z) = length l) by (apply size_list_to_set; exact Hnd).
    assert (Hsub : (list_to_set l : gset Z) ⊆ dom fds).
    { intros x Hx. apply elem_of_list_to_set in Hx. auto. }
    apply subseteq_size in Hsub. rewrite Hsz, size_dom in Hsub.
    unfold l in Hsub. rewrite length_map, length_seq in Hsub. lia.
Qed.

Lemma fresh_fd_ge (fds : gmap Z (fid * Z)) : 3 <= fresh_fd fds.
Proof.
  unfold fresh_fd.
  destruct (List.find _ _) as [n |] eqn:Hf; [| lia].
  apply find_some in Hf as [Hin _]. apply in_map_iff in Hin as (k & <- & _). lia.
Qed.

Lemma data_of_Some fs f d :
  data_of fs f = Some d ->
  exists m, inodes fs !! f = Some {| i_meta := m; i_body := Reg d |}.
Proof.
  unfold data_of. destruct (inodes fs !! f) as [[m [d' | ? | ?]] |]; try discriminate.
  intros [= ->]. eauto.
Qed.

Lemma data_of_insert fs f m d :
  data_of (set_inodes (<[f := {| i_meta := m; i_body := Reg d |}]> (inodes fs)) fs) f = Some d.
Proof. unfold data_of. cbn [inodes set_inodes]. rewrite lookup_insert_eq. reflexivity. Qed.

Lemma data_of_insert_ne fs f i g :
  f <> g -> data_of (set_inodes (<[f := i]> (inodes fs)) fs) g = data_of fs g.
Proof.
  intros H. unfold data_of. cbn [inodes set_inodes]. rewrite lookup_insert_ne by exact H.
  reflexivity.
Qed.

(** Storing new attributes for an inode leaves every file's bytes. *)
Lemma data_of_same_body fs f i m g :
  inodes fs !! f = Some i ->
  data_of (set_inodes (<[f := {| i_meta := m; i_body := i_body i |}]> (inodes fs)) fs) g
    = data_of fs g.
Proof.
  intros H. destruct (decide (f = g)) as [<- | Hne]; [| apply data_of_insert_ne; exact Hne].
  unfold data_of. cbn [inodes set_inodes]. rewrite lookup_insert_eq, H.
  destruct i as [mi b]. reflexivity.
Qed.

(** A write at the end of the file, on a device with room, appends. *)
Lemma fs_write_append fs f m pos d buf :
  inodes fs !! f = Some {| i_meta := m; i_body := Reg (str_take pos d) |} ->
  avail fs !! fst f = None ->
  0 <= pos <= strlen d ->
  0 < strlen buf ->
  fs_write fs f pos buf =
    Ok (set_inodes (<[f := {| i_meta := touch fs m;
                              i_body := Reg (str_take pos d +:+ buf) |}]> (inodes fs)) fs,
        strlen buf).
Proof.
  intros Hi Hav Hpos Hbuf. unfold fs_write. rewrite Hi, Hav. cbv zeta.
  destruct (Z.leb_spec (strlen buf) 0) as [Hle | _]; [lia |]. rewrite andb_false_r.
  pose proof (strlen_take d pos Hpos) as Hlen.
  rewrite (str_take_all (str_take pos d) pos) by lia.
  rewrite (str_take_all buf (strlen buf)) by lia.
  rewrite (str_drop_all (str_take pos d) (pos + strlen buf)) by lia.
  rewrite append_empty.
  unfold release. cbn [avail set_inodes]. rewrite Hav. reflexivity.
Qed.

Section Transfer.
Variables (B : Z) (sfd dfd : Z) (fsrc fdst : fid) (d : string).
Hypothesis HB : 0 < B.
Hypothesis Hfd : sfd <> dfd.
Hypothesis Hf : fsrc <> fdst.

(** One turn of a copy loop with a buffer of [B] bytes: at the end of the
    source nothing is read; before it, what is read is written in full,
    and both offsets move on by as much. *)
Lemma transfer_step pos w :
  copying sfd dfd fsrc fdst d pos w ->
  exists w0 buf,
    read sfd B w = (w0, (strlen buf, buf)) /\
    ((buf = "" /\ copying sfd dfd fsrc fdst d (strlen d) w0 /\ w_stderr w0 = w_stderr w)
     \/ (0 < strlen buf /\
         exists w1,
           write dfd buf (strlen buf) w0 = (w1, strlen buf) /\
           copying sfd dfd fsrc fdst d (pos + strlen buf) w1 /\
           w_stderr w1 = w_stderr w)).
Proof.
  intros (Hs & Hd & Hds & Hdd & Hav & Hpos).
  destruct (data_of_Some _ _ _ Hds) as (ms & Hims).
  destruct (data_of_Some _ _ _ Hdd) as (md & Himd).
  unfold read. rewrite Hs. unfold fs_read. rewrite Hims.
  set (buf := str_take B (str_drop pos d)).
  assert (Hle : pos + strlen buf <= strlen d).
  { pose proof (strlen_take_le (str_drop pos d) B). fold buf in H.
    rewrite strlen_drop in H by exact Hpos. lia. }
  exists (set_fds (<[sfd := (fsrc, pos + strlen buf)]> (w_fds w)) w), buf.
  split; [reflexivity |].
  destruct (Z.eq_dec (strlen buf) 0) as [Hz | Hnz].
  - left. pose proof (strlen_empty _ Hz) as Hb.
    assert (Hend : pos = strlen d).
    { unfold buf in Hb. apply (str_take_empty _ _ HB) in Hb.
      pose proof (strlen_drop d pos Hpos) as Hl. rewrite Hb in Hl.
      change (strlen "") with 0 in Hl. lia. }
    split; [exact Hb |]. split; [| reflexivity].
    unfold copying. cbn [w_fds set_fds w_fs].
    rewrite lookup_insert_eq, lookup_insert_ne by exact Hfd.
    rewrite Hz, Z.add_0_r. rewrite <- Hend. repeat split; try assumption; lia.
  - right. pose proof (strlen_nonneg buf). split; [lia |].
    unfold write. cbn [w_fds set_fds w_fs]. rewrite lookup_insert_ne by exact Hfd.
    rewrite Hd. rewrite (str_take_all buf (strlen buf)) by lia.
    rewrite (fs_write_append _ _ _ _ _ _ Himd Hav Hpos) by lia.
    eexists. split; [reflexivity |]. split; [| reflexivity].
    unfold copying. cbn [w_fds set_fds w_fs record set_fs].
    rewrite lookup_insert_eq.
    rewrite lookup_insert_ne by (intros E; apply Hfd; symmetry; exact E).
    rewrite lookup_insert_eq.
    rewrite data_of_insert_ne by (intros E; apply Hf; symmetry; exact E).
    rewrite data_of_insert. unfold buf. rewrite <- str_take_extend by lia. fold buf.
    repeat split; try assumption; lia.
Qed.
End Transfer.

Lemma copying_done sfd dfd fsrc fdst d w :
  copying sfd dfd fsrc fdst d (strlen d) w ->
  data_of (w_fs w) fdst = Some d /\ data_of (w_fs w) fsrc = Some d /\
  (exists p, w_fds w !! sfd = Some (fsrc, p)) /\ (exists p, w_fds w !! dfd = Some (fdst, p)).
Proof.
  intros (Hs & Hd & Hds & Hdd & _ & _).
  rewrite str_take_all in Hdd by lia. eauto 10.
Qed.

Lemma copy_contents_copies sfd dfd fsrc fdst d dst fuel :
  sfd <> dfd -> fsrc <> fdst ->
  forall pos w,
    copying sfd dfd fsrc fdst d pos w ->
    (Z.to_nat (strlen d - pos) < fuel)%nat ->
    exists w',
      Cp.copy_contents fuel dst sfd dfd w = Some (w', Return tt) /\
      copying sfd dfd fsrc fdst d (strlen d) w' /\
      w_stderr w' = w_stderr w.
Proof.
  intros Hfd Hf. induction fuel as [| fuel IH]; intros pos w Hc Hfuel; [lia |].
  cbn [Cp.copy_contents].
  destruct (transfer_step Cp.BUFFER_SIZE sfd dfd fsrc fdst d eq_refl Hfd Hf pos w Hc)
    as (w0 & buf & -> & [(-> & Hc0 & He) | (Hpos & w1 & -> & Hc1 & He)]).
  - change (0 <? strlen "") with false. cbv iota. eauto.
  - rewrite (proj2 (Z.ltb_lt _ _) Hpos), Z.eqb_refl. cbn [negb].
    pose proof Hc1 as (_ & _ & _ & _ & _ & Hb).
    destruct (IH (pos + strlen buf) w1 Hc1 ltac:(lia)) as (w' & -> & Hc' & He').
    exists w'. split; [reflexivity |]. split; [exact Hc' | congruence].
Qed.

Lemma copy_data_copies sfd dfd fsrc fdst d dest fuel :
  sfd <> dfd -> fsrc <> fdst ->
  forall pos w,
    copying sfd dfd fsrc fdst d pos w ->
    (Z.to_nat (strlen d - pos) < fuel)%nat ->
    exists w',
      Mv.copy_data fuel dest sfd dfd w = Some (w', Return tt) /\
      copying sfd dfd fsrc fdst d (strlen d) w' /\
      w_stderr w' = w_stderr w.
Proof.
  intros Hfd Hf. induction fuel as [| fuel IH]; intros pos w Hc Hfuel; [lia |].
  cbn [Mv.copy_data].
  destruct (transfer_step Mv.BUFFER_SIZE sfd dfd fsrc fdst d eq_refl Hfd Hf pos w Hc)
    as (w0 & buf & -> & [(-> & Hc0 & He) | (Hpos & w1 & -> & Hc1 & He)]).
  - change (0 <? strlen "") with false. cbv iota. eauto.
  - rewrite (proj2 (Z.ltb_lt _ _) Hpos), Z.eqb_refl. cbn [negb].
    pose proof Hc1 as (_ & _ & _ & _ & _ & Hb).
    destruct (IH (pos + strlen buf) w1 Hc1 ltac:(lia)) as (w' & -> & Hc' & He').
    exists w'. split; [reflexivity |]. split; [exact Hc' | congruence].
Qed.

Lemma copying_start sfd dfd fsrc fdst d w :
  w_fds w !! sfd = Some (fsrc, 0) ->
  w_fds w !! dfd = Some (fdst, 0) ->
  data_of (w_fs w) fsrc = Some d ->
  data_of (w_fs w) fdst = Some "" ->
  avail (w_fs w) !! fst fdst = None ->
  copying sfd dfd fsrc fdst d 0 w.
Proof.
  intros. unfold copying. pose proof (strlen_nonneg d).
  assert (str_take 0 d = "") as -> by (destruct d; reflexivity).
  repeat split; try assumption; lia.
Qed.

(** X15. The copy loops of cp and of mv copy every byte: started on two
    different descriptors at offset 0, for two different files, with the
    destination empty and on a device that does not run out of room, they
    end, without a diagnostic, and leave in the destination exactly the
    bytes of the source, which is unchanged. Each turn moves at least one
    byte, so a turn more than the source has bytes is always enough. *)
Theorem copy_loops_copy_every_byte fuel dest sfd dfd fsrc fdst d w :
  sfd <> dfd ->
  fsrc <> fdst ->
  w_fds w !! sfd = Some (fsrc, 0) ->
  w_fds w !! dfd = Some (fdst, 0) ->
  data_of (w_fs w) fsrc = Some d ->
  data_of (w_fs w) fdst = Some "" ->
  avail (w_fs w) !! fst fdst = None ->
  (String.length d < fuel)%nat ->
  (exists w',
     Cp.copy_contents fuel dest sfd dfd w = Some (w', Return tt) /\
     data_of (w_fs w') fdst = Some d /\ data_of (w_fs w') fsrc = Some d /\
     w_stderr w' = w_stderr w) /\
  (exists w',
     Mv.copy_data fuel dest sfd dfd w = Some (w', Return tt) /\
     data_of (w_fs w') fdst = Some d /\ data_of (w_fs w') fsrc = Some d /\
     w_stderr w' = w_stderr w).
Proof.
  intros Hfd Hf Hs Hd Hds Hdd Hav Hfuel.
  pose proof (copying_start _ _ _ _ _ _ Hs Hd Hds Hdd Hav) as Hc.
  assert (Hm : (Z.to_nat (strlen d - 0) < fuel)%nat) by (unfold strlen; lia).
  split.
  - destruct (copy_contents_copies sfd dfd fsrc fdst d dest fuel Hfd Hf 0 w Hc Hm)
      as (w' & Hr & Hc' & He).
    apply copying_done in Hc' as (H1 & H2 & _). eauto 10.
  - destruct (copy_data_copies sfd dfd fsrc fdst d dest fuel Hfd Hf 0 w Hc Hm)
      as (w' & Hr & Hc' & He).
    apply copying_done in Hc' as (H1 & H2 & _). eauto 10.
Qed.

Lemma copy_loops_copy_every_byte_witness :
  let w := fst (open "new" (Z.lor O_WRONLY (Z.lor O_CREAT O_TRUNC)) 420
                  (fst (open "a" O_RDONLY 0 (Scenarios.plain "")))) in
  exists w',
    Cp.copy_contents 3 "new" 3 4 w = Some (w', Return tt) /\
    data_of (w_fs w') (0, 100) = Some "aa".
Proof.
  intros w.
  destruct (copy_loops_copy_every_byte 3 "new" 3 4 (0, 3) (0, 100) "aa" w)
    as [(w' & H1 & H2 & _) _].
  - discriminate.
  - discriminate.
  - vm_compute; reflexivity.
  - vm_compute; reflexivity.
  - vm_compute; reflexivity.
  - vm_compute; reflexivity.
  - vm_compute; reflexivity.
  - cbn; lia.
  - exists w'. split; [exact H1 | exact H2].
Defined.

(** *** From the paths to the copy *)

Lemma release_avail_none dev n fs dev' :
  avail fs !! dev' = None -> avail (release dev n fs) !! dev' = None.
Proof.
  intros H. unfold release. destruct (avail fs !! dev) as [free |] eqn:Hd; [| exact H].
  cbn [avail set_avail]. destruct (decide (dev = dev')) as [-> | Hne]; [congruence |].
  rewrite lookup_insert_ne by exact Hne. exact H.
Qed.

Lemma data_of_release dev n fs g : data_of (release dev n fs) g = data_of fs g.
Proof. unfold data_of. rewrite release_inodes. reflexivity. Qed.

(** open(2) for writing gives an empty regular file and touches the bytes
    of no other file. *)
Lemma fs_open_write_spec fs p mode fs1 f :
  fs_open_write fs p mode = Ok (fs1, f) ->
  data_of fs1 f = Some "" /\
  (forall g x, g <> f -> data_of fs g = Some x -> data_of fs1 g = Some x) /\
  (forall dev, avail fs !! dev = None -> avail fs1 !! dev = None).
Proof.
  unfold fs_open_write. destruct (lookup_path fs true p) as [e | f0].
  - destruct (negb (e =? ENOENT)); [discriminate |].
    destruct (lookup_parent fs p) as [e' | [d name]]; [discriminate |].
    destruct (get_dir fs d) as [e' | [m es]] eqn:Hg; [discriminate |].
    apply get_dir_ok in Hg as [Hd _].
    destruct (dir_find name es); [discriminate |].
    destruct (ends_with_slash p); [discriminate |].
    destruct (negb (may fs m W_OK)); [discriminate |].
    destruct (inodes fs !! (fst d, next_ino fs)) eqn:Hnew; [discriminate |].
    cbn [is_Some_b]. intros [= <- <-]. split; [| split].
    + unfold data_of. cbn [inodes bump_ino set_inodes]. rewrite lookup_insert_eq. reflexivity.
    + intros g x Hne Hx. unfold data_of in *. cbn [inodes bump_ino set_inodes put_dir].
      rewrite lookup_insert_ne by (intros E; apply Hne; symmetry; exact E).
      destruct (decide (d = g)) as [<- | Hdg].
      * rewrite Hd in Hx. discriminate.
      * rewrite lookup_insert_ne by exact Hdg. exact Hx.
    + intros dev H. exact H.
  - destruct (inodes fs !! f0) as [[m [d0 | es | t]] |] eqn:Hi; try discriminate.
    destruct (may fs m W_OK); [| discriminate].
    intros [= <- <-]. split; [| split].
    + rewrite data_of_release. apply data_of_insert.
    + intros g x Hne Hx. rewrite data_of_release.
      rewrite data_of_insert_ne by (intros E; apply Hne; symmetry; exact E). exact Hx.
    + intros dev H. apply release_avail_none. exact H.
Qed.

Lemma check_destination_overwrites fuel src dst options w :
  overwrites options ->
  exists w0,
    Cp.check_destination fuel src dst options w = Some (w0, Return tt) /\
    w_fs w0 = w_fs w /\ w_fds w0 = w_fds w.
Proof.
  intros [Hi Hfu]. unfold Cp.check_destination, access.
  rewrite Hi. cbn [Z.eqb negb].
  destruct (fs_access (w_fs w) dst F_OK) as [e | []]; cbn [Z.eqb].
  - eexists. split; [reflexivity |]. split; reflexivity.
  - destruct Hfu as [Hf | Hu].
    + apply Z.eqb_neq in Hf. rewrite Hf. eexists. split; [reflexivity |]. split; reflexivity.
    + rewrite Hu. cbn [Z.eqb negb]. destruct (Cp.force options =? 0);
        eexists; (split; [reflexivity |]); split; reflexivity.
Qed.

Lemma futimens_data fd a m w g :
  data_of (w_fs (fst (futimens fd a m w))) g = data_of (w_fs w) g.
Proof.
  unfold futimens. destruct (w_fds w !! fd) as [[f pos] |]; [| reflexivity].
  unfold syscall, fs_futimens. destruct (inodes (w_fs w) !! f) as [i |] eqn:Hi; [| reflexivity].
  cbn [fst w_fs record set_fs]. apply data_of_same_body. exact Hi.
Qed.

Lemma fchown_data fd u gid w g :
  data_of (w_fs (fst (fchown fd u gid w))) g = data_of (w_fs w) g.
Proof.
  unfold fchown. destruct (w_fds w !! fd) as [[f pos] |]; [| reflexivity].
  unfold syscall, fs_fchown. destruct (inodes (w_fs w) !! f) as [i |] eqn:Hi; [| reflexivity].
  destruct ((euid (w_fs w) =? 0) || _); [| reflexivity].
  cbn [fst w_fs record set_fs]. apply data_of_same_body. exact Hi.
Qed.

Lemma close_fs fd w : w_fs (fst (close fd w)) = w_fs w.
Proof. unfold close. destruct (w_fds w !! fd); reflexivity. Qed.

(** The two calls of [open] of a copy, when both succeed. *)
Lemma open_both src dst mode w fsrc fs1 fdst :
  fs_open_read (w_fs w) src = Ok fsrc ->
  fs_open_write (w_fs w) dst mode = Ok (fs1, fdst) ->
  exists w2 sfd w3 dfd,
    open src O_RDONLY 0 w = (w2, sfd) /\ (sfd =? -1) = false /\
    open dst (Z.lor O_WRONLY (Z.lor O_CREAT O_TRUNC)) mode w2 = (w3, dfd) /\
    (dfd =? -1) = false /\
    sfd <> dfd /\
    w_fs w3 = fs1 /\
    w_fds w3 !! sfd = Some (fsrc, 0) /\
    w_fds w3 !! dfd = Some (fdst, 0) /\
    w_stderr w3 = w_stderr w.
Proof.
  intros Hr Hw. unfold open. cbn [Z.eqb O_RDONLY]. rewrite Hr.
  set (sfd := fresh_fd (w_fds w)).
  set (fds1 := <[sfd := (fsrc, 0)]> (w_fds w)).
  set (dfd := fresh_fd fds1).
  assert (Hne : sfd <> dfd).
  { intros E. pose proof (fresh_fd_free fds1) as Hfree. fold dfd in Hfree.
    rewrite <- E in Hfree. unfold fds1 in Hfree. rewrite lookup_insert_eq in Hfree.
    discriminate. }
  exists (record (Opened src O_RDONLY sfd) (set_fds fds1 w)), sfd.
  cbn [w_fs record set_fds w_fds]. rewrite Hw. fold dfd.
  eexists _, dfd. split; [reflexivity |].
  split; [apply Z.eqb_neq; pose proof (fresh_fd_ge (w_fds w)); fold sfd in H; lia |].
  split; [reflexivity |].
  split; [apply Z.eqb_neq; pose proof (fresh_fd_ge fds1); fold dfd in H; lia |].
  split; [exact Hne |]. split; [reflexivity |].
  cbn [w_fds record set_fds set_fs].
  split; [rewrite lookup_insert_ne by (intros E; apply Hne; symmetry; exact E);
          unfold fds1; apply lookup_insert_eq |].
  split; [apply lookup_insert_eq | reflexivity].
Qed.

(** copy_file up to its loop and after it: once the loop has run to the
    end of the source, copy_file returns 0, and what it does after the
    loop changes the bytes of no file. *)
Lemma copy_file_around_the_loop fuel src dst options w s fsrc fs1 fdst :
  overwrites options ->
  fs_stat (w_fs w) true src = Ok s ->
  fs_open_read (w_fs w) src = Ok fsrc ->
  fs_open_write (w_fs w) dst (cp_mode options s) = Ok (fs1, fdst) ->
  exists w3 sfd dfd,
    sfd <> dfd /\
    w_fs w3 = fs1 /\
    w_fds w3 !! sfd = Some (fsrc, 0) /\
    w_fds w3 !! dfd = Some (fdst, 0) /\
    forall w4,
      Cp.copy_contents fuel dst sfd dfd w3 = Some (w4, Return tt) ->
      exists w',
        Cp.copy_file fuel src dst options w = Some (w', 0) /\
        forall g, data_of (w_fs w') g = data_of (w_fs w4) g.
Proof.
  intros Hov Hs Hr Hw.
  destruct (check_destination_overwrites fuel src dst options w Hov) as (w0 & Hc & Hfs0 & _).
  rewrite <- Hfs0 in Hr, Hw.
  destruct (open_both src dst _ w0 fsrc fs1 fdst Hr Hw)
    as (w2 & sfd & w3 & dfd & Ho1 & Hn1 & Ho2 & Hn2 & Hne & Hfs3 & Hl1 & Hl2 & _).
  exists w3, sfd, dfd. repeat (split; [assumption |]).
  intros w4 Hloop. unfold Cp.copy_file.
  rewrite (stat_ok _ _ _ Hs), Hc, Ho1, Hn1. cbv zeta. fold (cp_mode options s).
  rewrite Ho2, Hn2, Hloop.
  set (w5 := if negb (Cp.preserve options =? 0) then _ else w4).
  assert (H5 : forall g, data_of (w_fs w5) g = data_of (w_fs w4) g).
  { intros g. unfold w5. destruct (negb (Cp.preserve options =? 0)); [| reflexivity].
    pose proof (futimens_data dfd (st_atime s) (st_mtime s) w4 g) as Hf.
    destruct (futimens dfd (st_atime s) (st_mtime s) w4) as [w5' t]. cbn [fst] in Hf.
    set (w6 := if t =? -1 then _ else w5').
    assert (H6 : data_of (w_fs w6) g = data_of (w_fs w5') g)
      by (unfold w6; destruct (t =? -1); reflexivity).
    pose proof (fchown_data dfd (st_uid s) (st_gid s) w6 g) as Ho.
    destruct (fchown dfd (st_uid s) (st_gid s) w6) as [w7 o]. cbn [fst] in Ho.
    destruct (o =? -1); cbn [w_fs eprintf]; congruence. }
  pose proof (close_fs sfd w5) as Hc1. destruct (close sfd w5) as [w6 r6]. cbn [fst] in Hc1.
  pose proof (close_fs dfd w6) as Hc2. destruct (close dfd w6) as [w7 r7]. cbn [fst] in Hc2.
  eexists. split; [reflexivity |]. intros g.
  destruct (negb (Cp.verbose options =? 0)); cbn [w_fs printf]; rewrite Hc2, Hc1; apply H5.
Qed.

(** copy_file copies the bytes of a source it can read into the file it
    opens as the destination. *)
Lemma copy_file_copies fuel src dst options w s fsrc d fs1 fdst :
  overwrites options ->
  fs_stat (w_fs w) true src = Ok s ->
  fs_open_read (w_fs w) src = Ok fsrc ->
  data_of (w_fs w) fsrc = Some d ->
  fs_open_write (w_fs w) dst (cp_mode options s) = Ok (fs1, fdst) ->
  fdst <> fsrc ->
  avail (w_fs w) !! fst fdst = None ->
  (String.length d < fuel)%nat ->
  exists w',
    Cp.copy_file fuel src dst options w = Some (w', 0) /\
    data_of (w_fs w') fdst = Some d /\
    data_of (w_fs w') fsrc = Some d.
Proof.
  intros Hov Hs Hr Hd Hw Hne Hav Hfuel.
  destruct (copy_file_around_the_loop fuel src dst options w s fsrc fs1 fdst Hov Hs Hr Hw)
    as (w3 & sfd & dfd & Hfd & Hfs3 & Hl1 & Hl2 & Hrest).
  destruct (fs_open_write_spec _ _ _ _ _ Hw) as (Hempty & Hkeep & Havail).
  assert (Hc : copying sfd dfd fsrc fdst d 0 w3).
  { apply copying_start; try assumption; rewrite Hfs3; auto. }
  destruct (copy_contents_copies sfd dfd fsrc fdst d dst fuel Hfd
              ltac:(intros E; apply Hne; symmetry; exact E) 0 w3 Hc
              ltac:(unfold strlen; lia))
    as (w4 & Hloop & Hdone & _).
  apply copying_done in Hdone as (H1 & H2 & _).
  destruct (Hrest w4 Hloop) as (w' & Hres & Hdata).
  exists w'. split; [exact Hres |]. rewrite !Hdata. auto.
Qed.

(** X16. cp copies the bytes: when cp is to overwrite without asking, the
    source can be read, the destination can be opened for writing and is
    another file than the source, on a device that does not run out of
    room, copy_file returns 0 and the destination holds exactly the bytes
    of the source, which is unchanged. *)
Theorem cp_copy_file_copies_the_bytes fuel src dst options w s fsrc d fs1 fdst :
  overwrites options ->
  fs_stat (w_fs w) true src = Ok s ->
  fs_open_read (w_fs w) src = Ok fsrc ->
  data_of (w_fs w) fsrc = Some d ->
  fs_open_write (w_fs w) dst (cp_mode options s) = Ok (fs1, fdst) ->
  fdst <> fsrc ->
  avail (w_fs w) !! fst fdst = None ->
  (String.length d < fuel)%nat ->
  exists w',
    Cp.copy_file fuel src dst options w = Some (w', 0) /\
    data_of (w_fs w') fdst = Some d /\
    data_of (w_fs w') fsrc = Some d.
Proof. apply copy_file_copies. Qed.

(** X17. cp does not check whether source and destination are the same
    file. When they are, opening the destination empties the file before
    anything is read from it: copy_file returns 0 and the bytes are
    lost. *)
Theorem cp_onto_itself_empties_the_file fuel src dst options w s f fs1 :
  overwrites options ->
  fs_stat (w_fs w) true src = Ok s ->
  fs_open_read (w_fs w) src = Ok f ->
  fs_open_write (w_fs w) dst (cp_mode options s) = Ok (fs1, f) ->
  (0 < fuel)%nat ->
  exists w',
    Cp.copy_file fuel src dst options w = Some (w', 0) /\
    data_of (w_fs w') f = Some "".
Proof.
  intros Hov Hs Hr Hw Hfuel.
  destruct (copy_file_around_the_loop fuel src dst options w s f fs1 f Hov Hs Hr Hw)
    as (w3 & sfd & dfd & Hfd & Hfs3 & Hl1 & Hl2 & Hrest).
  destruct (fs_open_write_spec _ _ _ _ _ Hw) as (Hempty & _ & _).
  rewrite <- Hfs3 in Hempty.
  destruct (data_of_Some _ _ _ Hempty) as (m & Hi).
  destruct fuel as [| fuel]; [lia |].
  assert (Hloop : Cp.copy_contents (S fuel) dst sfd dfd w3
                  = Some (set_fds (<[sfd := (f, 0 + strlen "")]> (w_fds w3)) w3, Return tt)).
  { cbn [Cp.copy_contents]. unfold read. rewrite Hl1. unfold fs_read. rewrite Hi.
    reflexivity. }
  destruct (Hrest _ Hloop) as (w' & Hres & Hdata).
  exists w'. split; [exact Hres |]. rewrite Hdata. exact Hempty.
Qed.

Lemma cp_onto_itself_empties_the_file_witness :
  exists w',
    Cp.copy_file 1 "a" "./a" Cp.initial_options (Scenarios.plain "") = Some (w', 0) /\
    data_of (w_fs (Scenarios.plain "")) (0, 3) = Some "aa" /\
    data_of (w_fs w') (0, 3) = Some "".
Proof.
  destruct (cp_onto_itself_empties_the_file 1 "a" "./a" Cp.initial_options
              (Scenarios.plain "") (stat_of (0, 3) (Scenarios.file 420 "aa")) (0, 3)
              (release 0 2
                 (set_inodes (<[(0, 3) := {| i_meta := touch (w_fs (Scenarios.plain ""))
                                                         (Scenarios.meta 420);
                                             i_body := Reg "" |}]>
                                (inodes (w_fs (Scenarios.plain ""))))
                    (w_fs (Scenarios.plain "")))))
    as (w' & H1 & H2).
  - split; [reflexivity | right; reflexivity].
  - vm_compute; reflexivity.
  - vm_compute; reflexivity.
  - vm_compute; reflexivity.
  - lia.
  - exists w'. split; [exact H1 |]. split; [vm_compute; reflexivity | exact H2].
Defined.

Lemma cp_copy_file_copies_the_bytes_witness :
  exists w',
    Cp.copy_file 3 "a" "b" Cp.initial_options (Scenarios.plain "") = Some (w', 0) /\
    data_of (w_fs (Scenarios.plain "")) (0, 4) = Some "bb" /\
    data_of (w_fs w') (0, 4) = Some "aa".
Proof.
  destruct (cp_copy_file_copies_the_bytes 3 "a" "b" Cp.initial_options
              (Scenarios.plain "") (stat_of (0, 3) (Scenarios.file 420 "aa")) (0, 3) "aa"
              (release 0 2
                 (set_inodes (<[(0, 4) := {| i_meta := touch (w_fs (Scenarios.plain ""))
                                                         (Scenarios.meta 420);
                                             i_body := Reg "" |}]>
                                (inodes (w_fs (Scenarios.plain ""))))
                    (w_fs (Scenarios.plain "")))) (0, 4))
    as (w' & H1 & H2 & _).
  - split; [reflexivity | right; reflexivity].
  - vm_compute; reflexivity.
  - vm_compute; reflexivity.
  - vm_compute; reflexivity.
  - vm_compute; reflexivity.
  - discriminate.
  - vm_compute; reflexivity.
  - cbn; lia.
  - exists w'. split; [exact H1 |]. split; [vm_compute; reflexivity | exact H2].
Defined.

Lemma fs_unlink_data fs p fs' g x :
  fs_unlink fs p = Ok fs' -> data_of fs g = Some x -> data_of fs' g = Some x.
Proof.
  unfold fs_unlink. destruct (lookup_parent fs p) as [e | [d name]]; [discriminate |].
  destruct (get_dir fs d) as [e | [m es]] eqn:Hg; [discriminate |].
  apply get_dir_ok in Hg as [Hd _].
  destruct (dir_find name es) as [f |]; [| discriminate].
  destruct (ends_with_slash p && negb (is_dir_inode fs f)); [discriminate |].
  destruct (negb (may fs m W_OK)); [discriminate |].
  destruct (is_dir_inode fs f); [discriminate |].
  intros [= <-] Hx. unfold put_dir.
  destruct (decide (d = g)) as [<- | Hne].
  - unfold data_of in Hx. rewrite Hd in Hx. discriminate.
  - rewrite data_of_insert_ne by exact Hne. exact Hx.
Qed.

(** X18. A move across devices loses no byte: when rename fails with EXDEV,
    the source can be read, and the destination can be opened for writing
    and is another file, on a device that does not run out of room,
    move_file leaves in the destination exactly the bytes of the source.
    It returns 0 only after it has removed the name of the source; when
    the source cannot be removed it returns -1 and both files hold the
    bytes. *)
Theorem mv_across_devices_keeps_the_bytes fuel fl source dest w s fsrc d fs1 fdst :
  fs_rename (w_fs w) source dest = Err EXDEV ->
  fs_stat (w_fs w) true source = Ok s ->
  fs_open_read (w_fs w) source = Ok fsrc ->
  data_of (w_fs w) fsrc = Some d ->
  fs_open_write (w_fs w) dest (st_mode s) = Ok (fs1, fdst) ->
  fdst <> fsrc ->
  avail (w_fs w) !! fst fdst = None ->
  (String.length d < fuel)%nat ->
  exists w' r,
    Mv.move_file fuel fl source dest w = Some (w', r) /\
    data_of (w_fs w') fdst = Some d /\
    ((r = 0 /\ fs_stat (w_fs w') false source = Err ENOENT)
     \/ (r = -1 /\ data_of (w_fs w') fsrc = Some d)).
Proof.
  intros Hren Hs Hr Hd Hw Hne Hav Hfuel.
  unfold Mv.move_file, rename, syscall. rewrite Hren.
  cbn [Z.eqb w_errno set_errno]. change (EXDEV =? EXDEV) with true. cbv iota.
  set (w1 := set_errno EXDEV w).
  rewrite (stat_ok w1 source s Hs).
  destruct (open_both source dest (st_mode s) w1 fsrc fs1 fdst Hr Hw)
    as (w2 & sfd & w3 & dfd & -> & -> & -> & -> & Hfd & Hfs3 & Hl1 & Hl2 & _).
  destruct (fs_open_write_spec _ _ _ _ _ Hw) as (Hempty & Hkeep & Havail).
  assert (Hc : copying sfd dfd fsrc fdst d 0 w3).
  { apply copying_start; try assumption; rewrite Hfs3; auto. }
  destruct (copy_data_copies sfd dfd fsrc fdst d dest fuel Hfd
              ltac:(intros E; apply Hne; symmetry; exact E) 0 w3 Hc
              ltac:(unfold strlen; lia))
    as (w4 & -> & Hdone & _).
  apply copying_done in Hdone as (H1 & H2 & _).
  pose proof (close_fs sfd w4) as Hc1. destruct (close sfd w4) as [w5 r5]. cbn [fst] in Hc1.
  pose proof (close_fs dfd w5) as Hc2. destruct (close dfd w5) as [w6 r6]. cbn [fst] in Hc2.
  assert (H1' : data_of (w_fs w6) fdst = Some d) by (rewrite Hc2, Hc1; exact H1).
  assert (H2' : data_of (w_fs w6) fsrc = Some d) by (rewrite Hc2, Hc1; exact H2).
  unfold unlink, syscall.
  destruct (fs_unlink (w_fs w6) source) as [e | fs'] eqn:Hu.
  - cbn [Z.eqb negb]. eexists _, _. split; [reflexivity |].
    split; [exact H1' |]. right. split; [reflexivity | exact H2'].
  - cbn [Z.eqb negb]. eexists _, _. split; [reflexivity |].
    assert (Hfs : forall v : world,
               w_fs (if negb (Mv.verbose_flag fl =? 0)
                     then printf (q source +:+ " -> " +:+ q dest +:+ nl) v else v) = w_fs v)
      by (intros v; destruct (negb (Mv.verbose_flag fl =? 0)); reflexivity).
    rewrite Hfs. cbn [w_fs record set_fs].
    split; [exact (fs_unlink_data _ _ _ _ _ Hu H1') |].
    left. split; [reflexivity | exact (fs_unlink_gone _ _ _ Hu)].
Qed.

Lemma mv_across_devices_keeps_the_bytes_witness :
  exists w',
    Mv.move_file 7 Mv.initial_flags "f" "m/f" two_devices = Some (w', 0) /\
    data_of (w_fs w') (1, 100) = Some "hello" /\
    fs_stat (w_fs w') false "f" = Err ENOENT.
Proof.
  destruct (mv_across_devices_keeps_the_bytes 7 Mv.initial_flags "f" "m/f" two_devices
              (stat_of (0, 3) (Scenarios.file 420 "hello")) (0, 3) "hello"
              (match fs_open_write (w_fs two_devices) "m/f" 33188 with
               | Ok (fs1, _) => fs1
               | Err _ => w_fs two_devices
               end) (1, 100))
    as (w' & r & H & Hd & Hr).
  - vm_compute; reflexivity.
  - vm_compute; reflexivity.
  - vm_compute; reflexivity.
  - vm_compute; reflexivity.
  - vm_compute; reflexivity.
  - discriminate.
  - vm_compute; reflexivity.
  - cbn; lia.
  - assert (r = 0) as -> by (vm_compute in H; injection H as _ <-; reflexivity).
    exists w'. split; [exact H |]. split; [exact Hd |].
    destruct Hr as [[_ Hg] | [Hz _]]; [exact Hg | discriminate Hz].
Defined.
End CopyLoops.


(** ** cp: what becomes of a symlink in a copied directory *)

Section LinkCopies.
Import Posix Libc Getopt Notions CopyTerms.

(** open(2) for writing leaves a directory a directory. *)
Lemma fs_open_write_keeps_directories fs p mode fs1 f g :
  fs_open_write fs p mode = Ok (fs1, f) ->
  is_dir_inode fs g = true -> is_dir_inode fs1 g = true.
Proof.
  unfold fs_open_write, is_dir_inode. destruct (lookup_path fs true p) as [e | f0].
  - destruct (negb (e =? ENOENT)); [discriminate |].
    destruct (lookup_parent fs p) as [e' | [d name]]; [discriminate |].
    destruct (get_dir fs d) as [e' | [m es]] eqn:Hg; [discriminate |].
    destruct (dir_find name es); [discriminate |].
    destruct (ends_with_slash p); [discriminate |].
    destruct (negb (may fs m W_OK)); [discriminate |].
    destruct (inodes fs !! (fst d, next_ino fs)) eqn:Hnew; [discriminate |].
    cbn [is_Some_b]. intros [= <- <-] Hdir.
    cbn [inodes bump_ino set_inodes put_dir].
    destruct (decide ((fst d, next_ino fs) = g)) as [<- | Hn].
    + rewrite Hnew in Hdir. discriminate.
    + rewrite lookup_insert_ne by exact Hn.
      destruct (decide (d = g)) as [<- | Hdg].
      * rewrite lookup_insert_eq. reflexivity.
      * rewrite lookup_insert_ne by exact Hdg. exact Hdir.
  - destruct (inodes fs !! f0) as [[m [d0 | es | t]] |] eqn:Hi; try discriminate.
    destruct (may fs m W_OK); [| discriminate].
    intros [= <- <-] Hdir. rewrite release_inodes. cbn [inodes set_inodes].
    destruct (decide (f0 = g)) as [<- | Hn].
    + rewrite Hi in Hdir. discriminate.
    + rewrite lookup_insert_ne by exact Hn. exact Hdir.
Qed.

(** copy_file on a directory that can be opened: read fails at once, and
    the destination is left empty. *)
Lemma copy_file_reads_no_directory fuel src dst options w s fsrc fs1 fdst :
  overwrites options ->
  fs_stat (w_fs w) true src = Ok s ->
  fs_open_read (w_fs w) src = Ok fsrc ->
  is_dir_inode (w_fs w) fsrc = true ->
  fs_open_write (w_fs w) dst (cp_mode options s) = Ok (fs1, fdst) ->
  (0 < fuel)%nat ->
  exists w',
    Cp.copy_file fuel src dst options w = Some (w', 0) /\
    data_of (w_fs w') fdst = Some "".
Proof.
  intros Hov Hs Hr Hdir Hw Hfuel.
  destruct (copy_file_around_the_loop fuel src dst options w s fsrc fs1 fdst Hov Hs Hr Hw)
    as (w3 & sfd & dfd & Hfd & Hfs3 & Hl1 & Hl2 & Hrest).
  destruct (fs_open_write_spec _ _ _ _ _ Hw) as (Hempty & _ & _).
  pose proof (fs_open_write_keeps_directories _ _ _ _ _ _ Hw Hdir) as Hdir1.
  rewrite <- Hfs3 in Hempty, Hdir1.
  destruct fuel as [| fuel]; [lia |].
  assert (Hloop : Cp.copy_contents (S fuel) dst sfd dfd w3
                  = Some (set_errno EISDIR w3, Return tt)).
  { cbn [Cp.copy_contents]. unfold read. rewrite Hl1. unfold fs_read.
    unfold is_dir_inode in Hdir1.
    destruct (inodes (w_fs w3) !! fsrc) as [[m [d0 | es | t]] |]; try discriminate.
    reflexivity. }
  destruct (Hrest _ Hloop) as (w' & Hres & Hdata).
  exists w'. split; [exact Hres |]. rewrite Hdata. exact Hempty.
Qed.

(** The step of copy_directory at an entry that is a symlink. *)
Lemma copy_entries_at_a_link fuel options recur dir src dst d_name rest w st :
  (String.eqb d_name "." || String.eqb d_name "..") = false ->
  fs_stat (w_fs w) false (Cp.snprintf_path src d_name) = Ok st ->
  S_ISLNK (st_mode st) = true ->
  Cp.copy_entries fuel options recur dir src dst (d_name :: rest) w =
    match Cp.copy_file fuel (Cp.snprintf_path src d_name) (Cp.snprintf_path dst d_name)
            options w with
    | None => None
    | Some (w', r) =>
        if r =? -1 then Some (w', -1)
        else Cp.copy_entries fuel options recur dir src dst rest w'
    end.
Proof.
  intros Hdot Hst Hlnk.
  cbn [Cp.copy_entries]. rewrite Hdot, (lstat_ok _ _ _ Hst).
  rewrite (link_is_not_directory _ Hlnk).
  destruct (Cp.copy_file _ _ _ _ w) as [[w' r] |]; reflexivity.
Qed.

(** C4 (as amended). In a recursive copy, an entry of a traversed
    directory that lstat shows to be a symlink is not descended into: it
    is handed to copy_file, which opens no directory, makes none and
    creates no symlink, and the traversal goes on or ends by the value
    copy_file returns. copy_file stats and opens the path with the link
    followed. When the link leads nowhere, it reports that it cannot stat
    the source file and returns -1, which ends the traversal. When the
    link leads to a regular file that can be read, and cp overwrites
    without asking a destination that can be opened for writing, that is
    another file and is on a device that does not run out of room, the
    file opened as the destination is a regular file that holds the bytes
    of the link's target, and the traversal goes on with the next entry.
    (What the code does with a link that leads to a directory is the last
    part: read fails at once, copy_file takes that for the end of the
    file, and the file opened as the destination is left an empty regular
    file.) *)
Theorem cp_hands_symlinks_to_copy_file fuel options recur dir src dst d_name rest w st :
  (String.eqb d_name "." || String.eqb d_name "..") = false ->
  fs_stat (w_fs w) false (Cp.snprintf_path src d_name) = Ok st ->
  S_ISLNK (st_mode st) = true ->
  Cp.copy_entries fuel options recur dir src dst (d_name :: rest) w =
    match Cp.copy_file fuel (Cp.snprintf_path src d_name) (Cp.snprintf_path dst d_name)
            options w with
    | None => None
    | Some (w', r) =>
        if r =? -1 then Some (w', -1)
        else Cp.copy_entries fuel options recur dir src dst rest w'
    end
  /\ (forall w' r,
        Cp.copy_file fuel (Cp.snprintf_path src d_name) (Cp.snprintf_path dst d_name)
          options w = Some (w', r) ->
        calm w w')
  /\ (forall e,
        fs_stat (w_fs w) true (Cp.snprintf_path src d_name) = Err e ->
        Cp.copy_entries fuel options recur dir src dst (d_name :: rest) w =
          Some (eprintf ("Error: Cannot stat source file " +:+ q (Cp.snprintf_path src d_name)
                         +:+ ": " +:+ strerror e +:+ nl) (set_errno e w), -1))
  /\ (forall s fsrc d fs1 fdst,
        overwrites options ->
        fs_stat (w_fs w) true (Cp.snprintf_path src d_name) = Ok s ->
        fs_open_read (w_fs w) (Cp.snprintf_path src d_name) = Ok fsrc ->
        data_of (w_fs w) fsrc = Some d ->
        fs_open_write (w_fs w) (Cp.snprintf_path dst d_name) (cp_mode options s)
          = Ok (fs1, fdst) ->
        fdst <> fsrc ->
        avail (w_fs w) !! fst fdst = None ->
        (String.length d < fuel)%nat ->
        exists w',
          Cp.copy_file fuel (Cp.snprintf_path src d_name) (Cp.snprintf_path dst d_name)
            options w = Some (w', 0) /\
          data_of (w_fs w') fdst = Some d /\
          Cp.copy_entries fuel options recur dir src dst (d_name :: rest) w =
            Cp.copy_entries fuel options recur dir src dst rest w')
  /\ (forall s fsrc fs1 fdst,
        overwrites options ->
        fs_stat (w_fs w) true (Cp.snprintf_path src d_name) = Ok s ->
        fs_open_read (w_fs w) (Cp.snprintf_path src d_name) = Ok fsrc ->
        is_dir_inode (w_fs w) fsrc = true ->
        fs_open_write (w_fs w) (Cp.snprintf_path dst d_name) (cp_mode options s)
          = Ok (fs1, fdst) ->
        (0 < fuel)%nat ->
        exists w',
          Cp.copy_file fuel (Cp.snprintf_path src d_name) (Cp.snprintf_path dst d_name)
            options w = Some (w', 0) /\
          data_of (w_fs w') fdst = Some "" /\
          Cp.copy_entries fuel options recur dir src dst (d_name :: rest) w =
            Cp.copy_entries fuel options recur dir src dst rest w').
Proof.
  intros Hdot Hst Hlnk.
  pose proof (copy_entries_at_a_link fuel options recur dir src dst d_name rest w st
                Hdot Hst Hlnk) as Hstep.
  split; [exact Hstep |].
  split; [intros w' r; apply copy_file_calm |].
  split; [| split].
  - intros e He. rewrite Hstep. unfold Cp.copy_file, stat. rewrite He. reflexivity.
  - intros s fsrc d fs1 fdst Hov Hs Hr Hd Hw Hne Hav Hfuel.
    destruct (copy_file_copies fuel _ _ options w s fsrc d fs1 fdst Hov Hs Hr Hd Hw Hne Hav Hfuel)
      as (w' & Hc & Hdata & _).
    exists w'. split; [exact Hc |]. split; [exact Hdata |].
    rewrite Hstep, Hc. reflexivity.
  - intros s fsrc fs1 fdst Hov Hs Hr Hdir Hw Hfuel.
    destruct (copy_file_reads_no_directory fuel _ _ options w s fsrc fs1 fdst Hov Hs Hr Hdir Hw Hfuel)
      as (w' & Hc & Hdata).
    exists w'. split; [exact Hc |]. split; [exact Hdata |].
    rewrite Hstep, Hc. reflexivity.
Qed.

Lemma cp_hands_symlinks_to_copy_file_witness :
  let recur := fun s d w => Cp.copy_directory 5 s d Scenarios.cp_r w in
  (let w := Scenarios.linked in
   exists st w',
     fs_stat (w_fs w) false (Cp.snprintf_path "a" "l") = Ok st /\
     S_ISLNK (st_mode st) = true /\
     Cp.copy_file 10 (Cp.snprintf_path "a" "l") (Cp.snprintf_path "d" "l") Scenarios.cp_r w
       = Some (w', 0) /\
     data_of (w_fs w') (0, 100) = Some "secret" /\
     Cp.copy_entries 10 Scenarios.cp_r recur [] "a" "d" ["l"] w = Some (w', 0) /\
     calm w w') /\
  (let w := Scenarios.linked in
   exists st w',
     fs_stat (w_fs w) false (Cp.snprintf_path "a" "ld") = Ok st /\
     S_ISLNK (st_mode st) = true /\
     is_dir_inode (w_fs w) (0, 7) = true /\
     Cp.copy_file 10 (Cp.snprintf_path "a" "ld") (Cp.snprintf_path "d" "ld") Scenarios.cp_r w
       = Some (w', 0) /\
     data_of (w_fs w') (0, 100) = Some "" /\
     Cp.copy_entries 10 Scenarios.cp_r recur [] "a" "d" ["ld"] w = Some (w', 0)) /\
  (let w := Scenarios.dangling in
   exists st,
     fs_stat (w_fs w) false (Cp.snprintf_path "a" "l") = Ok st /\
     S_ISLNK (st_mode st) = true /\
     Cp.copy_entries 10 Scenarios.cp_r recur [] "a" "d" ["l"; "m"] w =
       Some (eprintf ("Error: Cannot stat source file 'a/l': No such file or directory" +:+ nl)
               (set_errno ENOENT w), -1)).
Proof.
  intros recur. split; [| split]; intros w.
  - assert (Hst : fs_stat (w_fs w) false (Cp.snprintf_path "a" "l")
                  = Ok (stat_of (0, 4) (Scenarios.symlink "/t")))
      by (vm_compute; reflexivity).
    destruct (cp_hands_symlinks_to_copy_file 10 Scenarios.cp_r recur [] "a" "d" "l" [] w _
                eq_refl Hst eq_refl) as (_ & Hcalm & _ & Hreg & _).
    destruct (fs_open_write (w_fs w) (Cp.snprintf_path "d" "l")
                (cp_mode Scenarios.cp_r (stat_of (0, 6) (Scenarios.file 420 "secret"))))
      as [e | [fs1 fdst]] eqn:Hw; [vm_compute in Hw; discriminate Hw |].
    assert (fdst = (0, 100)) by (vm_compute in Hw; injection Hw as _ <-; reflexivity).
    subst fdst.
    destruct (Hreg (stat_of (0, 6) (Scenarios.file 420 "secret")) (0, 6) "secret" fs1 (0, 100))
      as (w' & Hc & Hd & Hgo).
    + split; [reflexivity | right; reflexivity].
    + vm_compute; reflexivity.
    + vm_compute; reflexivity.
    + vm_compute; reflexivity.
    + exact Hw.
    + discriminate.
    + vm_compute; reflexivity.
    + cbn; lia.
    + exists (stat_of (0, 4) (Scenarios.symlink "/t")), w'.
      split; [exact Hst |]. split; [reflexivity |]. split; [exact Hc |].
      split; [exact Hd |]. split; [exact Hgo | exact (Hcalm w' 0 Hc)].
  - assert (Hst : fs_stat (w_fs w) false (Cp.snprintf_path "a" "ld")
                  = Ok (stat_of (0, 5) (Scenarios.symlink "/d")))
      by (vm_compute; reflexivity).
    destruct (cp_hands_symlinks_to_copy_file 10 Scenarios.cp_r recur [] "a" "d" "ld" [] w _
                eq_refl Hst eq_refl) as (_ & _ & _ & _ & Hdir).
    pose (s := stat_of (0, 7) (Scenarios.dir 493 (0, 7) (0, 2) [("k", (0, 8))])).
    destruct (fs_open_write (w_fs w) (Cp.snprintf_path "d" "ld") (cp_mode Scenarios.cp_r s))
      as [e | [fs1 fdst]] eqn:Hw; [vm_compute in Hw; discriminate Hw |].
    assert (fdst = (0, 100)) by (vm_compute in Hw; injection Hw as _ <-; reflexivity).
    subst fdst.
    destruct (Hdir s (0, 7) fs1 (0, 100)) as (w' & Hc & Hd & Hgo).
    + split; [reflexivity | right; reflexivity].
    + vm_compute; reflexivity.
    + vm_compute; reflexivity.
    + vm_compute; reflexivity.
    + exact Hw.
    + lia.
    + exists (stat_of (0, 5) (Scenarios.symlink "/d")), w'.
      split; [exact Hst |]. split; [reflexivity |]. split; [vm_compute; reflexivity |].
      split; [exact Hc |]. split; [exact Hd | exact Hgo].
  - assert (Hst : fs_stat (w_fs w) false (Cp.snprintf_path "a" "l")
                  = Ok (stat_of (0, 4) (Scenarios.symlink "/gone")))
      by (vm_compute; reflexivity).
    destruct (cp_hands_symlinks_to_copy_file 10 Scenarios.cp_r recur [] "a" "d" "l" ["m"] w _
                eq_refl Hst eq_refl) as (_ & _ & Hgone & _).
    exists (stat_of (0, 4) (Scenarios.symlink "/gone")).
    split; [exact Hst |]. split; [reflexivity |].
    rewrite (Hgone ENOENT ltac:(vm_compute; reflexivity)). reflexivity.
Defined.
End LinkCopies.


(** ** cp with several sources, rm -rfv *)

Section Skips.
Import Posix Libc Getopt Notions SkipTerms.

Lemma copy_all_passes_over fuel options target sources :
  Cp.recursive options = 0 ->
  forall w,
    forallb (passed_over (w_fs w)) sources = true ->
    exists w',
      Cp.copy_all fuel options target sources w = Some (w', Return tt) /\
      w_fs w' = w_fs w /\ w_trace w' = w_trace w /\ w_stdout w' = w_stdout w /\
      w_stderr w' = w_stderr w ++ omitting (w_fs w) sources.
Proof.
  intros Hr. induction sources as [| source rest IH]; intros w Hall.
  - exists w. cbn [omitting flat_map]. rewrite app_nil_r. repeat split.
  - cbn [forallb] in Hall. apply andb_true_iff in Hall as [Hs Hall].
    cbn [Cp.copy_all]. unfold Cp.copy_into, stat. unfold passed_over in Hs.
    cbn [omitting flat_map].
    destruct (fs_stat (w_fs w) true (basename_arg source)) as [e | st].
    + destruct (IH (set_errno e w) Hall) as (w' & -> & Hfs & Htr & Hout & Herr).
      exists w'. repeat split; assumption.
    + rewrite Hs, Hr. cbn [Z.eqb negb].
      destruct (IH (eprintf ("Error: Omitting directory " +:+ q (basename_arg source) +:+ nl) w)
                  Hall)
        as (w' & -> & Hfs & Htr & Hout & Herr).
      exists w'. repeat split; try assumption.
      rewrite Herr. cbn [w_stderr eprintf w_fs]. rewrite <- app_assoc. reflexivity.
Qed.

(** X19. With several sources and a directory as the target, and without
    -r, the sources that are missing or are directories cost cp nothing:
    a missing source is passed over without a word, a directory with one
    line (which names it without its trailing slashes, basename having cut
    them), and when all sources are such, cp ends with status 0 having
    copied nothing. (With a single source, either case ends cp with
    status 1.) *)
Theorem cp_passes_over_sources fuel argv w options operands sources target :
  Cp.parse_arguments (List.hd "" argv) (List.tl argv) Cp.initial_options w
    = (w, Return (options, operands)) ->
  split_last operands = Some (sources, target) ->
  (1 < length sources)%nat ->
  Cp.no_target_dir options = 0 ->
  Cp.recursive options = 0 ->
  existing_directory w target = true ->
  forallb (passed_over (w_fs w)) sources = true ->
  exists w',
    Cp.main fuel argv w = Some (w', 0) /\
    w_fs w' = w_fs w /\
    w_trace w' = w_trace w /\
    w_stdout w' = w_stdout w /\
    w_stderr w' = w_stderr w ++ omitting (w_fs w) sources.
Proof.
  intros Hp Hsl Hlen HT Hr Hdir Hall.
  assert (Hcount : (2 <? Z.of_nat (length operands)) = true).
  { apply Z.ltb_lt. rewrite (split_last_app _ _ _ Hsl), length_app. cbn [length]. lia. }
  unfold Cp.main. rewrite Hp, Hsl, Hcount, HT. cbn [Z.eqb].
  destruct sources as [| s1 [| s2 ss]]; [simpl in Hlen; lia | simpl in Hlen; lia |].
  destruct (stat_existing_directory w target Hdir) as (st & -> & ->).
  destruct (copy_all_passes_over fuel options target (s1 :: s2 :: ss) Hr w Hall)
    as (w' & -> & Hfs & Htr & Hout & Herr).
  exists w'. repeat split; assumption.
Qed.

Lemma cp_passes_over_sources_witness :
  exists w',
    Cp.main 5 ["cp"; "d/"; "nothing"; "d"] (Scenarios.plain "") = Some (w', 0) /\
    w_fs w' = w_fs (Scenarios.plain "") /\
    w_stderr w' = ["Error: Omitting directory 'd'" +:+ nl].
Proof.
  destruct (cp_passes_over_sources 5 ["cp"; "d/"; "nothing"; "d"] (Scenarios.plain "")
              Cp.initial_options ["d/"; "nothing"; "d"] ["d/"; "nothing"] "d")
    as (w' & H & Hfs & _ & _ & Herr).
  - reflexivity.
  - reflexivity.
  - cbn; lia.
  - reflexivity.
  - reflexivity.
  - vm_compute; reflexivity.
  - vm_compute; reflexivity.
  - exists w'. split; [exact H |]. split; [exact Hfs |].
    rewrite Herr. vm_compute. reflexivity.
Defined.

(** X20. During rm -r, -f makes the callback of the tree walk ignore the
    result of remove(3) altogether, also for -v: with -f and -v every
    object the walk meets is announced as removed, whether it was or not;
    when it was not, nothing has changed. *)
Theorem rm_forced_walk_announces_everything options fpath w :
  Rm.force options <> 0 ->
  Rm.verbose options <> 0 ->
  exists w',
    Rm.handle_remove options fpath w = (w', 0) /\
    w_stdout w' = w_stdout w ++ [removed fpath] /\
    w_stderr w' = w_stderr w /\
    (snd (remove fpath w) <> 0 -> w_fs w' = w_fs w /\ w_trace w' = w_trace w).
Proof.
  intros Hf Hv. unfold Rm.handle_remove.
  destruct (remove_outcome fpath w) as (w1 & r & -> & Herr & Hout & _ & Hr).
  apply Z.eqb_neq in Hf, Hv. rewrite Hf, Hv, andb_false_r. cbn [negb snd].
  eexists. split; [reflexivity |]. cbn [w_stdout w_stderr printf w_fs w_trace].
  rewrite Hout. split; [reflexivity |]. split; [exact Herr |].
  intros Hne. destruct Hr as [[-> _] | (_ & Hfs & Htr)]; [congruence | auto].
Qed.

Lemma rm_forced_walk_announces_everything_witness :
  let options := {| Rm.recursive := 1; Rm.force := 1; Rm.verbose := 1; Rm.interactive := 0;
                    Rm.preserve_root := 1; Rm.no_preserve_root := 0 |} in
  exists w',
    Rm.handle_remove options "s/q" Scenarios.unsearchable = (w', 0) /\
    w_stdout w' = [removed "s/q"] /\
    w_fs w' = w_fs Scenarios.unsearchable.
Proof.
  intros options.
  destruct (rm_forced_walk_announces_everything options "s/q" Scenarios.unsearchable)
    as (w' & H & Hout & _ & Hfs).
  - discriminate.
  - discriminate.
  - exists w'. split; [exact H |]. split; [exact Hout |].
    apply Hfs. vm_compute. discriminate.
Defined.
End Skips.


(** ** head: the lines printed, the headers, the exit status *)

Section HeadMore.
Import Posix Libc HeadTerms.

Lemma text_cons x l : text (x :: l) = x +:+ text l.
Proof.
  unfold text. destruct l as [| y l]; cbn [String.concat]; [symmetry; apply append_empty |].
  reflexivity.
Qed.

Lemma newlines_app a b : newlines (a +:+ b) = newlines a + newlines b.
Proof.
  induction a as [| c a IH]; [reflexivity |].
  change (String c a +:+ b) with (String c (a +:+ b)). cbn [newlines]. rewrite IH. lia.
Qed.

Lemma newlines_nonneg s : 0 <= newlines s.
Proof. induction s as [| c s IH]; cbn [newlines]; [lia |]. destruct (Ascii.eqb c newline); lia. Qed.

Lemma up_to_newline_spec s :
  forall l r,
    Head.up_to_newline s = (l, r) ->
    newlines l = 0 /\
    (String.length r <= String.length s)%nat /\
    (s = l +:+ nl +:+ r \/ (r = "" /\ s = l)).
Proof.
  induction s as [| c s IH]; intros l r H.
  - injection H as <- <-. cbn. auto.
  - cbn [Head.up_to_newline] in H. destruct (Ascii.eqb_spec c newline) as [-> | Hc].
    + injection H as <- <-. split; [reflexivity |]. split; [cbn; lia |]. left. reflexivity.
    + destruct (Head.up_to_newline s) as [l' r'] eqn:Hs. injection H as <- <-.
      destruct (IH l' r' eq_refl) as (Hn & Hl & Hd).
      split; [cbn [newlines]; apply Ascii.eqb_neq in Hc; rewrite Hc; lia |].
      split; [cbn [String.length]; lia |].
      destruct Hd as [-> | [-> ->]]; [left | right]; auto.
Qed.

Lemma wrote_cons x outs w : wrote (x :: outs) w = wrote outs (printf x w).
Proof. reflexivity. Qed.

Lemma wrote_stdout outs : forall w, w_stdout (wrote outs w) = w_stdout w ++ outs.
Proof.
  induction outs as [| x outs IH]; intros w; [cbn; rewrite app_nil_r; reflexivity |].
  rewrite wrote_cons, IH. cbn [w_stdout printf]. rewrite <- app_assoc. reflexivity.
Qed.

Lemma wrote_rest outs :
  forall w, w_stdin (wrote outs w) = w_stdin w /\ w_stderr (wrote outs w) = w_stderr w /\
            w_fs (wrote outs w) = w_fs w /\ w_trace (wrote outs w) = w_trace w.
Proof.
  induction outs as [| x outs IH]; intros w; [repeat split |].
  rewrite wrote_cons. destruct (IH (printf x w)) as (H1 & H2 & H3 & H4). auto.
Qed.

(** The loop over the lines, from any count on. *)
Lemma lines_in_nonneg s : 0 <= lines_in s.
Proof.
  induction s as [| c s IH]; cbn [lines_in]; [lia |].
  destruct (Ascii.eqb c newline); [lia |]. destruct s; [lia | exact IH].
Qed.

Lemma up_to_newline_lines c s :
  lines_in (String c s) = 1 + lines_in (snd (Head.up_to_newline (String c s))).
Proof.
  revert c. induction s as [| d s IH]; intros c.
  - cbn. destruct (Ascii.eqb c newline); reflexivity.
  - cbn [Head.up_to_newline lines_in]. destruct (Ascii.eqb c newline) eqn:Hc.
    + reflexivity.
    + specialize (IH d). cbn [Head.up_to_newline lines_in] in IH.
      destruct (Ascii.eqb d newline) eqn:Hd.
      * cbn [snd]. reflexivity.
      * destruct (Head.up_to_newline s) as [l r] eqn:Hu. cbn [snd] in *. exact IH.
Qed.

Lemma ends_with_newline_none s : newlines s = 0 -> ends_with_newline s = false.
Proof.
  induction s as [| c s IH]; [reflexivity |]. cbn [newlines ends_with_newline].
  pose proof (newlines_nonneg s).
  destruct (Ascii.eqb c newline); [lia |]. intros H0. destruct s; [reflexivity | apply IH; lia].
Qed.

Lemma ends_with_newline_app a b :
  b <> "" -> ends_with_newline (a +:+ b) = ends_with_newline b.
Proof.
  intros Hb. induction a as [| c a IH]; [reflexivity |].
  change (String c a +:+ b) with (String c (a +:+ b)). cbn [ends_with_newline].
  destruct (a +:+ b) eqn:Hab; [| exact IH].
  exfalso. apply (f_equal String.length) in Hab. rewrite length_append in Hab.
  destruct b; [congruence | cbn [String.length] in Hab; lia].
Qed.

Lemma print_lines_runs fuel :
  forall n count input w,
    (String.length input < fuel)%nat ->
    exists rest outs,
      Head.print_lines fuel n count input w = Some (rest, wrote outs w) /\
      Forall whole_line outs /\
      Z.of_nat (length outs) = Z.min (Z.max 0 (n - count)) (lines_in input) /\
      (text outs +:+ rest = input
       \/ (rest = "" /\ input <> "" /\ ends_with_newline input = false
           /\ text outs = input +:+ nl)).
Proof.
  induction fuel as [| fuel IH]; intros n count input w Hfuel; [lia |].
  cbn [Head.print_lines]. pose proof (lines_in_nonneg input) as Hnn.
  destruct (Z.ltb_spec count n) as [Hlt | Hge].
  - destruct input as [| c s].
    + exists "", []. cbn [Head.getline]. split; [reflexivity |].
      split; [constructor |]. split; [cbn; lia |]. left. reflexivity.
    + cbn [Head.getline].
      pose proof (up_to_newline_lines c s) as Hlines.
      destruct (Head.up_to_newline (String c s)) as [l r] eqn:Hu. cbn [snd] in Hlines.
      destruct (up_to_newline_spec _ _ _ Hu) as (Hn & Hl & Hd).
      assert (Hr : (String.length r < fuel)%nat).
      { cbn [String.length] in *.
        destruct Hd as [Hd | [-> _]]; [| cbn; lia].
        apply (f_equal String.length) in Hd. cbn [String.length] in Hd.
        rewrite !length_append in Hd. cbn [String.length nl] in Hd. lia. }
      destruct (IH n (count + 1) r (printf (l +:+ nl) w) Hr)
        as (rest & outs & -> & Hwhole & Hcount & Hparts).
      pose proof (lines_in_nonneg r).
      exists rest, ((l +:+ nl) :: outs). split; [reflexivity |].
      split; [constructor; [exists l; auto | exact Hwhole] |].
      split; [cbn [length]; lia |].
      rewrite text_cons.
      destruct Hd as [Hd | [Hre Hd]].
      * destruct Hparts as [Hp | (Hre & Hne & Hend & Hp)].
        -- left. rewrite Hd, <- Hp, !append_assoc. reflexivity.
        -- right. split; [exact Hre |]. split; [discriminate |].
           split; [| rewrite Hd, Hp, !append_assoc; reflexivity].
           rewrite Hd, ends_with_newline_app by (destruct r; [congruence | discriminate]).
           rewrite ends_with_newline_app by exact Hne. exact Hend.
      * subst r. destruct Hparts as [Hp | (_ & Hne & _)]; [| congruence].
        assert (text outs = "" /\ rest = "") as [Ho Hre].
        { destruct (text outs); [| discriminate]. split; [reflexivity | exact Hp]. }
        right. split; [exact Hre |]. split; [discriminate |].
        split; [rewrite Hd; apply ends_with_newline_none; exact Hn |].
        rewrite Ho, Hd, append_empty. reflexivity.
  - exists input, []. split; [reflexivity |]. split; [constructor |].
    split; [cbn; lia |]. left. reflexivity.
Qed.

(** X21. In line mode head writes whole lines only, each with a newline
    after it, as many as numLines says or, if the input has fewer, as
    many as the input has: what it writes is the beginning of the input,
    up to the newline that ends the last line written, and what it has
    not written stays in the stream; a last line that does not end with
    a newline is given one. A count that is not positive writes
    nothing. *)
Theorem head_prints_the_leading_lines fuel n input w :
  (String.length input < fuel)%nat ->
  exists rest outs,
    Head.print_lines fuel n 0 input w = Some (rest, wrote outs w) /\
    Forall whole_line outs /\
    Z.of_nat (length outs) = Z.min (Z.max 0 n) (lines_in input) /\
    (text outs +:+ rest = input
     \/ (rest = "" /\ input <> "" /\ ends_with_newline input = false
         /\ text outs = input +:+ nl)).
Proof.
  intros Hfuel.
  destruct (print_lines_runs fuel n 0 input w Hfuel) as (rest & outs & H1 & H2 & H3 & H4).
  rewrite Z.sub_0_r in H3. eauto 10.
Qed.

Lemma head_prints_the_leading_lines_witness :
  let input := "one" +:+ nl +:+ "two" +:+ nl +:+ "three" in
  exists w',
    Head.print_lines 20 2 0 input (Scenarios.plain "") = Some ("three", w') /\
    text (w_stdout w') = "one" +:+ nl +:+ "two" +:+ nl.
Proof.
  intros input.
  destruct (head_prints_the_leading_lines 20 2 input (Scenarios.plain "")
              ltac:(apply Nat.ltb_lt; vm_compute; reflexivity))
    as (rest & outs & H & _).
  assert (rest = "three" /\ outs = ["one" +:+ nl; "two" +:+ nl]) as [-> ->].
  { vm_compute in H. injection H as <- E.
    split; [reflexivity |].
    apply (f_equal w_stdout) in E. rewrite wrote_stdout in E. cbn in E. symmetry. exact E. }
  eexists. split; [exact H |]. rewrite wrote_stdout. reflexivity.
Defined.

Lemma parse_loop_returns rs :
  forall h w w' h',
    Head.parse_loop rs h w = (w', Head.Value (Some h')) ->
    w' = w /\
    Head.filenames h' = Head.filenames h /\
    Head.showFilename h' = Head.showFilename h || existsb is_verbose rs.
Proof.
  induction rs as [| r rest IH]; intros h w w' h' H.
  - injection H as <- <-. rewrite orb_false_r. auto.
  - destruct r as [opt optarg | msg]; [| discriminate H].
    cbn [Head.parse_loop] in H. cbn [existsb is_verbose].
    destruct (opt =? chr "c") eqn:Hc.
    { destruct (Head.stoll optarg) as [v |]; [| discriminate H].
      apply IH in H as (-> & -> & ->). cbn [Head.filenames Head.showFilename].
      apply Z.eqb_eq in Hc. subst opt. auto. }
    destruct (opt =? chr "n") eqn:Hn.
    { destruct (Head.stoll optarg) as [v |]; [| discriminate H].
      apply IH in H as (-> & -> & ->). cbn [Head.filenames Head.showFilename].
      apply Z.eqb_eq in Hn. subst opt. auto. }
    destruct (opt =? chr "q") eqn:Hq.
    { apply IH in H as (-> & -> & ->). cbn [Head.filenames Head.showFilename].
      apply Z.eqb_eq in Hq. subst opt. auto. }
    destruct (opt =? chr "v") eqn:Hv.
    { apply IH in H as (-> & -> & ->). cbn [Head.filenames Head.showFilename].
      rewrite orb_true_r. auto. }
    destruct (opt =? chr "h"); [discriminate H |].
    destruct (opt =? chr "V"); discriminate H.
Qed.

Lemma parseArgs_returns rs operands h0 w w' h :
  Head.parseArgs rs operands h0 w = (w', Head.Value (Some h)) ->
  w' = w /\
  Head.showFilename h = Head.showFilename h0 || existsb is_verbose rs /\
  Head.filenames h <> [].
Proof.
  unfold Head.parseArgs.
  destruct (Head.parse_loop rs h0 w) as [w1 [[h1 |] |]] eqn:Hp; try discriminate.
  apply parse_loop_returns in Hp as (-> & _ & Hs).
  intros [= <- <-]. cbn [Head.showFilename Head.filenames].
  split; [reflexivity |]. split; [exact Hs |].
  destruct (Head.filenames h1 ++ operands); discriminate.
Qed.

(** X22. Once -v has been met, every file that can be opened gets its
    header, whatever options follow: -q sets quietMode but does not take
    back showFilename, so that head -v -q still writes the headers. *)
Theorem head_verbose_headers_survive_quiet fuel rs operands w w1 h filename v f :
  Head.parseArgs rs operands Head.default_settings w = (w1, Head.Value (Some h)) ->
  existsb is_verbose rs = true ->
  filename <> "-" ->
  fs_open_read (w_fs v) filename = Ok f ->
  (String.length (Head.bytes_of (w_fs v) f) < fuel)%nat ->
  exists v' more,
    Head.processFile fuel h filename v = Some v' /\
    w_stdout v' = w_stdout v ++ header filename :: more.
Proof.
  intros Hp Hv Hname Hopen Hfuel.
  apply parseArgs_returns in Hp as (_ & Hs & _). rewrite Hv, orb_true_r in Hs.
  unfold Head.processFile. apply String.eqb_neq in Hname. rewrite Hname, Hopen, Hs.
  cbn [orb andb negb]. fold (header filename).
  set (sep := _ && negb (_ =? Head.back _)%string).
  destruct (0 <=? Head.numBytes h).
  - destruct sep; (eexists _, _; split; [reflexivity |]);
      cbn [w_stdout printf]; rewrite <- !app_assoc; reflexivity.
  - destruct (print_lines_runs fuel (Head.numLines h) 0 (Head.bytes_of (w_fs v) f)
                (printf (header filename) v) Hfuel) as (rest & outs & -> & _).
    destruct sep; (eexists _, _; split; [reflexivity |]);
      cbn [w_stdout printf]; rewrite wrote_stdout; cbn [w_stdout printf];
      rewrite <- !app_assoc; reflexivity.
Qed.

Lemma head_verbose_headers_survive_quiet_witness :
  let rs := [Head.Given (chr "v") ""; Head.Given (chr "q") ""] in
  exists h v',
    Head.parseArgs rs ["a"] Head.default_settings (Scenarios.plain "")
      = (Scenarios.plain "", Head.Value (Some h)) /\
    Head.quietMode h = true /\
    Head.processFile 5 h "a" (Scenarios.plain "") = Some v' /\
    text (w_stdout v') = header "a" +:+ "aa" +:+ nl.
Proof.
  intros rs.
  eexists. 
  destruct (head_verbose_headers_survive_quiet 5 rs ["a"] (Scenarios.plain "")
              (Scenarios.plain "") _ "a" (Scenarios.plain "") (0, 3) eq_refl eq_refl)
    as (v' & more & H & Hout).
  - discriminate.
  - vm_compute; reflexivity.
  - vm_compute; lia.
  - exists v'. split; [reflexivity |]. split; [reflexivity |]. split; [exact H |].
    vm_compute in H. injection H as <-. vm_compute. reflexivity.
Defined.

Lemma process_files_unreadable fuel h names :
  forall w,
    forallb (unreadable (w_fs w)) names = true ->
    exists w',
      Head.process_files fuel h names w = Some w' /\
      w_fs w' = w_fs w /\ w_stdin w' = w_stdin w /\ w_stdout w' = w_stdout w /\
      w_stderr w' = w_stderr w ++ map cannot_open names.
Proof.
  induction names as [| name rest IH]; intros w Hall.
  - exists w. cbn. rewrite app_nil_r. auto.
  - cbn [forallb] in Hall. apply andb_true_iff in Hall as [Hn Hall].
    unfold unreadable in Hn. apply andb_true_iff in Hn as [Hdash Hopen].
    cbn [Head.process_files]. unfold Head.processFile.
    apply negb_true_iff in Hdash. rewrite Hdash.
    destruct (fs_open_read (w_fs w) name) as [e | f]; [| discriminate Hopen].
    fold (cannot_open name).
    destruct (IH (eprintf (cannot_open name) w) Hall) as (w' & -> & Hfs & Hin & Hout & Herr).
    exists w'. split; [reflexivity |]. repeat split; try assumption.
    rewrite Herr. cbn [w_stderr eprintf map]. rewrite <- app_assoc. reflexivity.
Qed.

(** X23. The exit status of head says nothing about the files: when the
    options are accepted, head ends with status 0 even if none of its
    operands can be opened. Each gets one line on the standard error,
    which names the cause as "No such file or directory" whatever it
    is. *)
Theorem head_exit_status_ignores_unreadable_files fuel elapsed rs operands w w1 h :
  Head.parseArgs rs operands Head.default_settings w = (w1, Head.Value (Some h)) ->
  forallb (unreadable (w_fs w)) (Head.filenames h) = true ->
  exists w',
    Head.main fuel elapsed rs operands w = Some (w', Head.Exited 0) /\
    w_stdout w' = w_stdout w /\
    w_stderr w' = w_stderr w ++ map cannot_open (Head.filenames h)
                    ++ (if Head.verboseMode h then [report elapsed] else []).
Proof.
  intros Hp Hall. unfold Head.main, Head.execute. rewrite Hp.
  apply parseArgs_returns in Hp as (-> & _ & _).
  destruct (process_files_unreadable fuel h (Head.filenames h) w Hall)
    as (w' & -> & _ & _ & Hout & Herr).
  eexists. split; [reflexivity |].
  destruct (Head.verboseMode h); cbn [w_stdout w_stderr Head.reportPerformance eprintf].
  - fold (report elapsed). rewrite Hout, Herr, <- app_assoc. auto.
  - rewrite Hout, Herr, app_nil_r. auto.
Qed.

Lemma head_exit_status_ignores_unreadable_files_witness :
  exists w',
    Head.main 5 "0.1" [] ["s/q"; "nothing"] Scenarios.unsearchable = Some (w', Head.Exited 0) /\
    w_stdout w' = [] /\
    w_stderr w' = [cannot_open "s/q"; cannot_open "nothing"].
Proof.
  destruct (head_exit_status_ignores_unreadable_files 5 "0.1" [] ["s/q"; "nothing"]
              Scenarios.unsearchable Scenarios.unsearchable _ eq_refl)
    as (w' & H & Hout & Herr).
  - vm_compute; reflexivity.
  - exists w'. split; [exact H |]. split; [exact Hout | exact Herr].
Defined.

(** X24. A negative count prints nothing. -c with a negative number leaves
    numBytes negative, so that head works by lines, with the numLines of
    -1 that -c has set; -n with a number that is not positive lets the
    loop over the lines end before it reads. With one operand that can be
    opened, head then reads nothing, writes nothing and ends with
    status 0. *)
Theorem head_negative_count_prints_nothing fuel elapsed opt optarg v operand w :
  (opt = chr "c" /\ v < 0) \/ (opt = chr "n" /\ v <= 0) ->
  Head.stoll optarg = Some v ->
  operand = "-" \/ (exists f, fs_open_read (w_fs w) operand = Ok f) ->
  (0 < fuel)%nat ->
  Head.main fuel elapsed [Head.Given opt optarg] [operand] w = Some (w, Head.Exited 0).
Proof.
  intros Hopt Hv Hopen Hfuel. destruct fuel as [| fuel]; [lia |].
  unfold Head.main, Head.parseArgs. cbn [Head.parse_loop].
  assert (Hrun : forall n b,
             b < 0 -> n <= 0 ->
             Head.execute (S fuel) elapsed
               {| Head.numLines := n; Head.numBytes := b; Head.quietMode := false;
                  Head.verboseMode := false; Head.showFilename := false;
                  Head.filenames := [operand] |} w = Some w).
  { intros n b Hb Hn. unfold Head.execute.
    cbn [Head.filenames Head.verboseMode Head.process_files].
    unfold Head.processFile.
    cbn [Head.filenames Head.showFilename Head.quietMode Head.numBytes Head.numLines length].
    change (1 <? Z.of_nat 1) with false. cbn [orb andb].
    destruct (Z.leb_spec 0 b) as [|_]; [lia |].
    cbn [Head.print_lines]. destruct (Z.ltb_spec 0 n) as [| _]; [lia |].
    destruct Hopen as [-> | (f & Hf)].
    - cbn [String.eqb Ascii.eqb Bool.eqb]. destruct w; reflexivity.
    - destruct (String.eqb operand "-"); [destruct w; reflexivity |].
      rewrite Hf. reflexivity. }
  destruct Hopt as [[-> Hneg] | [-> Hneg]].
  - change (chr "c" =? chr "c") with true. cbv iota. rewrite Hv.
    cbn [Head.filenames Head.default_settings app is_nil Head.numLines Head.numBytes
         Head.quietMode Head.verboseMode Head.showFilename].
    rewrite (Hrun (-1) v Hneg ltac:(lia)). reflexivity.
  - change (chr "n" =? chr "c") with false. change (chr "n" =? chr "n") with true.
    cbv iota. rewrite Hv.
    cbn [Head.filenames Head.default_settings app is_nil Head.numLines Head.numBytes
         Head.quietMode Head.verboseMode Head.showFilename].
    rewrite (Hrun v (-1) ltac:(lia) Hneg). reflexivity.
Qed.

Lemma head_negative_count_prints_nothing_witness :
  Head.stoll "-5" = Some (-5) /\
  Head.main 1 "0.1" [Head.Given (chr "c") "-5"] ["a"] (Scenarios.plain "")
    = Some (Scenarios.plain "", Head.Exited 0).
Proof.
  split; [reflexivity |].
  apply (head_negative_count_prints_nothing 1 "0.1" (chr "c") "-5" (-5) "a").
  - left. split; [reflexivity | lia].
  - reflexivity.
  - right. exists (0, 3). vm_compute. reflexivity.
  - lia.
Defined.
End HeadMore.
